(** * A shallow embedding of the rules engine of [chess_pygame_ai.py]

    The engine works on a board of type [List[List[str]]]: eight rows of
    eight one-character strings, ['.'] for an empty square, an upper-case
    letter for a White piece and a lower-case letter for a Black one.  Moves
    are 4-tuples [(r1, c1, r2, c2)] of Python integers.

    Python integers are modelled by [Z], one-character strings by [ascii],
    lists by [list] with Python's indexing rules (negative indices count
    from the end, anything else out of range raises [IndexError]), the
    constant dictionary [VALUES] by a [gmap], and exceptions by an error
    monad.  The two side strings ['w'] and ['b'] are the enumeration [Side].
    [random.choice] takes the raw draw of the generator as an argument. *)

From Stdlib Require Import ZArith Ascii String.
From stdpp Require Import base decidable option list list_numbers sorting gmap strings.

Open Scope Z_scope.

(** ** Exceptions and results *)

Inductive exn : Set :=
  | IndexError   (* list index out of range *)
  | KeyError     (* missing dictionary key *)
  | OutOfFuel    (* not a Python exception: the bound of a modelled [while] was reached *)
  | BadRef.      (* not a Python exception: a reference that denotes no list of the expected kind *)

Inductive result (A : Type) : Type :=
  | Ok (a : A)
  | Raise (e : exn).
Arguments Ok {A} a.
Arguments Raise {A} e.

#[global] Instance result_ret : MRet result := λ A a, Ok a.
#[global] Instance result_bind : MBind result := λ A B f x,
  match x with
  | Ok a => f a
  | Raise e => Raise e
  end.

#[global] Instance exn_eq_dec : EqDecision exn.
Proof. solve_decision. Defined.

(** A [for] loop over a tuple or a range whose body updates the local
    state [S] and may raise. *)
Fixpoint for_each {X S : Type} (xs : list X) (body : X → S → result S) (s : S)
  : result S :=
  match xs with
  | [] => Ok s
  | x :: xs' => s' ← body x s; for_each xs' body s'
  end.

(** ** Python lists *)

(** The position that index [i] denotes in a list of length [len]. *)
Definition py_index (len : nat) (i : Z) : result nat :=
  if (0 <=? i) && (i <? Z.of_nat len) then Ok (Z.to_nat i)
  else if (- Z.of_nat len <=? i) && (i <? 0) then Ok (Z.to_nat (Z.of_nat len + i))
  else Raise IndexError.

(** [l[i]] *)
Definition getitem {A : Type} (l : list A) (i : Z) : result A :=
  n ← py_index (length l) i;
  match l !! n with
  | Some x => Ok x
  | None => Raise IndexError
  end.

(** [l[i] = x] *)
Definition setitem {A : Type} (l : list A) (i : Z) (x : A) : result (list A) :=
  n ← py_index (length l) i; Ok (<[n := x]> l).

(** ** Configuration, cells, boards and moves *)

Definition ROWS : Z := 8.
Definition COLS : Z := 8.

Abbreviation Cell := ascii (only parsing).
Abbreviation Board := (list (list ascii)) (only parsing).
Abbreviation Move := (Z * Z * Z * Z)%type (only parsing).  (* (r1, c1, r2, c2) *)

Inductive Side : Set :=
  | White   (* 'w' *)
  | Black.  (* 'b' *)

#[global] Instance Side_eq_dec : EqDecision Side.
Proof. solve_decision. Defined.

Definition opposite (s : Side) : Side :=
  match s with White => Black | Black => White end.

(** [board[r][c]] *)
Definition getitem2 (board : Board) (r c : Z) : result Cell :=
  row ← getitem board r; getitem row c.

(** [board[r][c] = x]: the row object [board[r]] is updated in place, which
    on a board value is the replacement of that row. *)
Definition setitem2 (board : Board) (r c : Z) (x : Cell) : result Board :=
  row ← getitem board r;
  row' ← setitem row c x;
  setitem board r row'.

Definition new_board : Board :=
  [ list_ascii_of_string "rnbqkbnr";
    list_ascii_of_string "pppppppp";
    list_ascii_of_string "........";
    list_ascii_of_string "........";
    list_ascii_of_string "........";
    list_ascii_of_string "........";
    list_ascii_of_string "PPPPPPPP";
    list_ascii_of_string "RNBQKBNR" ].

Definition in_bounds (r c : Z) : bool :=
  (0 <=? r) && (r <? ROWS) && (0 <=? c) && (c <? COLS).

(** [str.isupper], [str.islower] and [str.lower] on a one-character ASCII
    string (codes 0 to 127).  Python also counts letters beyond ASCII as
    cased, which these definitions do not: every statement that depends on
    the case of a cell therefore reads well-formed boards only, whose cells
    are ['.'] or one of the twelve piece letters. *)
Definition code (p : Cell) : Z := Z.of_N (N_of_ascii p).
Definition isupper (p : Cell) : bool := (65 <=? code p) && (code p <=? 90).
Definition islower (p : Cell) : bool := (97 <=? code p) && (code p <=? 122).
Definition lower (p : Cell) : Cell :=
  if isupper p then ascii_of_N (N_of_ascii p + 32) else p.

Definition is_white (piece : Cell) : bool := isupper piece.
Definition is_black (piece : Cell) : bool := islower piece.

(** A cell holds one character, so the test [not piece] of the source (the
    empty string) never fires. *)
Definition side_of (piece : Cell) : option Side :=
  if Ascii.eqb piece "." then None
  else Some (if is_white piece then White else Black).

(** Truthiness of an [Optional[str]] holding ['w'], ['b'] or [None]. *)
Definition truthy (o : option Side) : bool :=
  match o with Some _ => true | None => false end.

(** ** Move generation *)

Definition gen_pawn (board : Board) (r c : Z) (side : Side) : result (list Move) :=
  let moves : list Move := [] in
  let dir := match side with White => -1 | Black => 1 end in
  let start_row := match side with White => 6 | Black => 1 end in
  (* Single push *)
  let r1 := r + dir in
  moves ←
    (if in_bounds r1 c then
       t1 ← getitem2 board r1 c;
       if Ascii.eqb t1 "." then
         let moves := moves ++ [(r, c, r1, c)] in
         (* Double push from start *)
         let r2 := r + 2 * dir in
         if (r =? start_row) && in_bounds r2 c then
           t2 ← getitem2 board r2 c;
           if Ascii.eqb t2 "." then
             t1' ← getitem2 board r1 c;
             if Ascii.eqb t1' "." then Ok (moves ++ [(r, c, r2, c)]) else Ok moves
           else Ok moves
         else Ok moves
       else Ok moves
     else Ok moves);
  (* Captures *)
  for_each [-1; 1] (λ dc moves,
    let cc := c + dc in
    let rr := r + dir in
    if in_bounds rr cc then
      target ← getitem2 board rr cc;
      if negb (Ascii.eqb target ".") && truthy (side_of target)
         && bool_decide (side_of target ≠ Some side)
      then Ok (moves ++ [(r, c, rr, cc)]) else Ok moves
    else Ok moves) moves.

Definition jumps : list (Z * Z) :=
  [(2, 1); (2, -1); (-2, 1); (-2, -1); (1, 2); (1, -2); (-1, 2); (-1, -2)].

Definition gen_knight (board : Board) (r c : Z) (side : Side) : result (list Move) :=
  for_each jumps (λ '(dr, dc) moves,
    let rr := r + dr in
    let cc := c + dc in
    if negb (in_bounds rr cc) then Ok moves
    else
      target ← getitem2 board rr cc;
      if Ascii.eqb target "." || bool_decide (side_of target ≠ Some side)
      then Ok (moves ++ [(r, c, rr, cc)]) else Ok moves) [].

(** The [while in_bounds(rr, cc)] loop of [slide_moves], one ray. *)
Fixpoint slide_ray (fuel : nat) (board : Board) (r c : Z) (side : Side)
    (dr dc rr cc : Z) (moves : list Move) : result (list Move) :=
  match fuel with
  | O => Raise OutOfFuel
  | S fuel' =>
      if in_bounds rr cc then
        target ← getitem2 board rr cc;
        if Ascii.eqb target "." then
          slide_ray fuel' board r c side dr dc (rr + dr) (cc + dc)
                    (moves ++ [(r, c, rr, cc)])
        else if bool_decide (side_of target ≠ Some side)
             then Ok (moves ++ [(r, c, rr, cc)])       (* capture, then break *)
             else Ok moves                             (* break *)
      else Ok moves
  end.

(** From any origin a ray crosses at most eight cells of the board, so the
    loop test runs at most nine times. *)
Definition ray_fuel : nat := 9.

Definition slide_moves (board : Board) (r c : Z) (side : Side)
    (directions : list (Z * Z)) : result (list Move) :=
  for_each directions (λ '(dr, dc) moves,
    slide_ray ray_fuel board r c side dr dc (r + dr) (c + dc) moves) [].

Definition bishop_dirs : list (Z * Z) := [(1, 1); (1, -1); (-1, 1); (-1, -1)].
Definition rook_dirs : list (Z * Z) := [(1, 0); (-1, 0); (0, 1); (0, -1)].
Definition queen_dirs : list (Z * Z) :=
  [(1, 1); (1, -1); (-1, 1); (-1, -1); (1, 0); (-1, 0); (0, 1); (0, -1)].

Definition gen_bishop (board : Board) (r c : Z) (side : Side) : result (list Move) :=
  slide_moves board r c side bishop_dirs.

Definition gen_rook (board : Board) (r c : Z) (side : Side) : result (list Move) :=
  slide_moves board r c side rook_dirs.

Definition gen_queen (board : Board) (r c : Z) (side : Side) : result (list Move) :=
  slide_moves board r c side queen_dirs.

Definition gen_king (board : Board) (r c : Z) (side : Side) : result (list Move) :=
  for_each [-1; 0; 1] (λ dr moves,
    for_each [-1; 0; 1] (λ dc moves,
      if (dr =? 0) && (dc =? 0) then Ok moves
      else
        let rr := r + dr in
        let cc := c + dc in
        if negb (in_bounds rr cc) then Ok moves
        else
          target ← getitem2 board rr cc;
          if Ascii.eqb target "." || bool_decide (side_of target ≠ Some side)
          then Ok (moves ++ [(r, c, rr, cc)]) else Ok moves) moves) [].

(** The body of the double loop of [generate_moves] at cell [(r, c)]. *)
Definition scan_cell (board : Board) (side : Side) (r c : Z) (moves : list Move)
  : result (list Move) :=
  piece ← getitem2 board r c;
  if Ascii.eqb piece "." then Ok moves
  else if bool_decide (side = White) && negb (is_white piece) then Ok moves
  else if bool_decide (side = Black) && negb (is_black piece) then Ok moves
  else
    let p := lower piece in
    if Ascii.eqb p "p" then ms ← gen_pawn board r c side; Ok (moves ++ ms)
    else if Ascii.eqb p "n" then ms ← gen_knight board r c side; Ok (moves ++ ms)
    else if Ascii.eqb p "b" then ms ← gen_bishop board r c side; Ok (moves ++ ms)
    else if Ascii.eqb p "r" then ms ← gen_rook board r c side; Ok (moves ++ ms)
    else if Ascii.eqb p "q" then ms ← gen_queen board r c side; Ok (moves ++ ms)
    else if Ascii.eqb p "k" then ms ← gen_king board r c side; Ok (moves ++ ms)
    else Ok moves.

Definition generate_moves (board : Board) (side : Side) : result (list Move) :=
  for_each (seqZ 0 ROWS) (λ r moves,
    for_each (seqZ 0 COLS) (λ c moves, scan_cell board side r c moves) moves) [].

(** ** Applying a move *)

Definition apply_move (board : Board) (move : Move) : result Board :=
  let '(r1, c1, r2, c2) := move in
  piece ← getitem2 board r1 c1;
  let new_b := board in                      (* [row.copy() for row in board] *)
  new_b ← setitem2 new_b r1 c1 "."%char;
  new_b ← setitem2 new_b r2 c2 piece;
  (* Pawn promotion (auto-queen) *)
  new_b ← (if Ascii.eqb piece "P" && (r2 =? 0)
           then setitem2 new_b r2 c2 "Q"%char else Ok new_b);
  new_b ← (if Ascii.eqb piece "p" && (r2 =? ROWS - 1)
           then setitem2 new_b r2 c2 "q"%char else Ok new_b);
  Ok new_b.

Definition has_moves (board : Board) (side : Side) : result bool :=
  moves ← generate_moves board side; Ok (0 <? Z.of_nat (length moves)).

(** ** The opponent *)

Definition VALUES : gmap ascii Z :=
  list_to_map
    [("K"%char, 0); ("Q"%char, 9); ("R"%char, 5); ("B"%char, 3); ("N"%char, 3); ("P"%char, 1);
     ("k"%char, 0); ("q"%char, 9); ("r"%char, 5); ("b"%char, 3); ("n"%char, 3); ("p"%char, 1)].

(** [VALUES[target]] *)
Definition VALUES_getitem (target : Cell) : result Z :=
  match VALUES !! target with
  | Some v => Ok v
  | None => Raise KeyError
  end.

(** [random.choice(seq)], where [k] is the draw of the generator:
    [seq[k mod len(seq)]], and [IndexError] on an empty sequence. *)
Definition choice {A : Type} (k : nat) (l : list A) : result A :=
  match l with
  | [] => Raise IndexError
  | _ => match l !! (k mod length l)%nat with
         | Some x => Ok x
         | None => Raise IndexError
         end
  end.

(** The score the opponent gives to a move: the value of what stands on the
    destination. *)
Definition score_of (board : Board) (m : Move) : result Z :=
  let '(r1, c1, r2, c2) := m in
  target ← getitem2 board r2 c2;
  if negb (Ascii.eqb target ".") then VALUES_getitem target else Ok 0.

(** The loop of [ai_choose_move]; its state is [(best_moves, best_score)]. *)
Definition best_step (board : Board) (m : Move) (st : list Move * Z)
  : result (list Move * Z) :=
  let '(best_moves, best_score) := st in
  score ← score_of board m;
  if score >? best_score then Ok ([m], score)
  else if score =? best_score then Ok (best_moves ++ [m], best_score)
  else Ok (best_moves, best_score).

Definition ai_choose_move (k : nat) (board : Board) (side : Side)
  : result (option Move) :=
  moves ← generate_moves board side;
  match moves with
  | [] => Ok None
  | _ =>
      '(best_moves, best_score) ← for_each moves (best_step board) ([], -999);
      m ← (match best_moves with
           | [] => choice k moves
           | _ => choice k best_moves
           end);
      Ok (Some m)
  end.

(** ** Well-formed boards *)

Definition pieces : list Cell :=
  list_ascii_of_string "KQRBNPkqrbnp".

Definition valid_cell (p : Cell) : bool :=
  Ascii.eqb p "." || bool_decide (p ∈ pieces).

(** Eight rows of eight cells. *)
Definition gridb (board : Board) : bool :=
  (length board =? 8)%nat && forallb (λ row, (length row =? 8)%nat) board.

Definition grid (board : Board) : Prop := gridb board = true.

(** A grid all of whose cells are ['.'] or one of the twelve piece letters. *)
Definition wf_boardb (board : Board) : bool :=
  gridb board && forallb (forallb valid_cell) board.

Definition wf_board (board : Board) : Prop := wf_boardb board = true.

(** The number of cells different from ['.']. *)
Definition occupied (p : Cell) : nat := if Ascii.eqb p "." then 0%nat else 1%nat.

Definition count_nonempty (board : Board) : nat :=
  sum_list ((λ row, sum_list (occupied <$> row)) <$> board).

(** Total views of a grid, used in the proofs. *)
Definition cell (board : Board) (r c : Z) : Cell :=
  default "."%char (board !! Z.to_nat r ≫= λ row, row !! Z.to_nat c).

Definition set_cell (board : Board) (r c : Z) (x : Cell) : Board :=
  alter (λ row, <[Z.to_nat c := x]> row) (Z.to_nat r) board.

(** The cell value that arrives at row [r2] when [piece] is moved there. *)
Definition arrival (piece : Cell) (r2 : Z) : Cell :=
  if Ascii.eqb piece "P" && (r2 =? 0) then "Q"%char
  else if Ascii.eqb piece "p" && (r2 =? ROWS - 1) then "q"%char
  else piece.

(** What the generators promise about a move of [side] made from [(r, c)]:
    it starts there and lands inside the board on a cell that is empty or
    holds a piece of the other side. *)
Definition move_from (board : Board) (side : Side) (r c : Z) (m : Move) : Prop :=
  let '(r1, c1, r2, c2) := m in
  (r1, c1) = (r, c) ∧ in_bounds r2 c2 = true ∧
  (cell board r2 c2 = "."%char ∨ side_of (cell board r2 c2) = Some (opposite side)).

(** The distance, along one axis, from coordinate [x] to the first
    coordinate outside the board when stepping by [d]. *)
Definition room (d x : Z) : Z :=
  if d =? 1 then 8 - x else if d =? -1 then x + 1 else 8.

(** The material value of what a cell holds, as the table of the opponent's
    policy gives it by kind: queen 9, rook 5, bishop 3, knight 3, pawn 1,
    king 0, and 0 for an empty cell. *)
Definition material (t : Cell) : Z :=
  let p := lower t in
  if Ascii.eqb p "q" then 9
  else if Ascii.eqb p "r" then 5
  else if Ascii.eqb p "b" then 3
  else if Ascii.eqb p "n" then 3
  else if Ascii.eqb p "p" then 1
  else 0.

(** The state of the loop of [ai_choose_move] after the moves [seen]: the
    best moves are among the moves seen, all have the best score, and no
    move seen scores more. *)
Definition best_inv (sc : Move → Z) (seen : list Move) (st : list Move * Z) : Prop :=
  let '(best_moves, best_score) := st in
  (seen = [] ∧ best_moves = [] ∧ best_score = -999) ∨
  (best_moves ≠ [] ∧
   (∀ m, m ∈ best_moves → m ∈ seen ∧ sc m = best_score) ∧
   (∀ m, m ∈ seen → sc m ≤ best_score)).

(** The material that stands on the destination of a move. *)
Definition dest_material (board : Board) (m : Move) : Z :=
  let '(_, _, r2, c2) := m in material (cell board r2 c2).

(** ** Kings and their neighbours *)

Definition king_letter (side : Side) : Cell :=
  match side with White => "K"%char | Black => "k"%char end.

Definition neighbours : list (Z * Z) :=
  [(-1, -1); (-1, 0); (-1, 1); (0, -1); (0, 1); (1, -1); (1, 0); (1, 1)].

(** Every neighbouring cell of [(r, c)] that lies on the board holds a piece
    of [side]. *)
Definition surrounded (board : Board) (side : Side) (r c : Z) : bool :=
  forallb (λ '(dr, dc),
    negb (in_bounds (r + dr) (c + dc))
    || match getitem2 board (r + dr) (c + dc) with
       | Ok t => bool_decide (side_of t = Some side)
       | Raise _ => false
       end) neighbours.

(** What one iteration of the double loop of [gen_king] appends. *)
Definition king_step (board : Board) (r c : Z) (side : Side) (dr dc : Z) : list Move :=
  if (dr =? 0) && (dc =? 0) then []
  else if negb (in_bounds (r + dr) (c + dc)) then []
  else if Ascii.eqb (cell board (r + dr) (c + dc)) "."
          || bool_decide (side_of (cell board (r + dr) (c + dc)) ≠ Some side)
       then [(r, c, r + dr, c + dc)] else [].

(** Two boards with nothing but a White king and eight White pawns around
    it: in the centre of the board, and in the corner where the pawns are
    held by the edge and by each other. *)
Definition king_block_centre : Board :=
  [ list_ascii_of_string "........";
    list_ascii_of_string "........";
    list_ascii_of_string "........";
    list_ascii_of_string "...PPP..";
    list_ascii_of_string "...PKP..";
    list_ascii_of_string "...PPP..";
    list_ascii_of_string "........";
    list_ascii_of_string "........" ].

Definition king_block_corner : Board :=
  [ list_ascii_of_string "PPP.....";
    list_ascii_of_string "PKP.....";
    list_ascii_of_string "PPP.....";
    list_ascii_of_string "........";
    list_ascii_of_string "........";
    list_ascii_of_string "........";
    list_ascii_of_string "........";
    list_ascii_of_string "........" ].

(** ** Classifying the moves of the initial position *)

Definition origin (m : Move) : Z * Z := let '(r1, c1, _, _) := m in (r1, c1).

(** The kind letter (lower case) of the piece on the origin of [m] is [p]. *)
Definition moves_kind (board : Board) (p : Cell) (m : Move) : bool :=
  let '(r1, c1, _, _) := m in
  match getitem2 board r1 c1 with
  | Ok t => Ascii.eqb (lower t) p
  | Raise _ => false
  end.

(** [m] stays on its column and changes its row by [n]. *)
Definition pushes (n : Z) (m : Move) : bool :=
  let '(r1, c1, r2, c2) := m in (c1 =? c2) && (Z.abs (r2 - r1) =? n).

(** * The board as Python objects

    A board is a list object whose items are references to row objects, and
    [board[r][c] = x] writes into a row object that every holder of the
    board sees.  This module runs the same functions on a store of list
    objects, to tell what they do to the objects they are given. *)

Module Heap.

Definition loc : Set := nat.

Inductive obj : Type :=
  | ORow (cells : list ascii)     (* a [list] of one-character strings *)
  | OBoard (rows : list loc).     (* a [list] of references to rows *)

Abbreviation heap := (gmap nat obj) (only parsing).

(** Computations that read and write the store and may raise; what was
    written before an exception stays written. *)
Definition M (A : Type) : Type := gmap nat obj → result A * gmap nat obj.

#[global] Instance M_ret : MRet M := λ A a h, (Ok a, h).
#[global] Instance M_bind : MBind M := λ A B f x h,
  match x h with
  | (Ok a, h') => f a h'
  | (Raise e, h') => (Raise e, h')
  end.

(** A pure, possibly raising, step. *)
Definition lift {A : Type} (x : result A) : M A := λ h, (x, h).

Definition get_board (l : loc) : M (list loc) := λ h,
  match h !! l with
  | Some (OBoard rows) => (Ok rows, h)
  | _ => (Raise BadRef, h)
  end.

Definition get_row (l : loc) : M (list ascii) := λ h,
  match h !! l with
  | Some (ORow cells) => (Ok cells, h)
  | _ => (Raise BadRef, h)
  end.

Definition put (l : loc) (o : obj) : M unit := λ h, (Ok tt, <[l := o]> h).

Definition alloc (o : obj) : M loc := λ h,
  let l := fresh (dom h) in (Ok l, <[l := o]> h).

Fixpoint for_each {X S : Type} (xs : list X) (body : X → S → M S) (s : S) : M S :=
  match xs with
  | [] => mret s
  | x :: xs' => s' ← body x s; for_each xs' body s'
  end.

(** [board[r][c]] *)
Definition getitem2 (board : loc) (r c : Z) : M ascii :=
  rows ← get_board board;
  row ← lift (getitem rows r);
  cells ← get_row row;
  lift (getitem cells c).

(** [board[r][c] = x] *)
Definition setitem2 (board : loc) (r c : Z) (x : ascii) : M unit :=
  rows ← get_board board;
  row ← lift (getitem rows r);
  cells ← get_row row;
  cells' ← lift (setitem cells c x);
  put row (ORow cells').

(** [row.copy()] *)
Definition copy (row : loc) : M loc :=
  cells ← get_row row; alloc (ORow cells).

Definition gen_pawn (board : loc) (r c : Z) (side : Side) : M (list Move) :=
  let moves : list Move := [] in
  let dir := match side with White => -1 | Black => 1 end in
  let start_row := match side with White => 6 | Black => 1 end in
  let r1 := r + dir in
  moves ←
    (if in_bounds r1 c then
       t1 ← getitem2 board r1 c;
       if Ascii.eqb t1 "." then
         let moves := moves ++ [(r, c, r1, c)] in
         let r2 := r + 2 * dir in
         if (r =? start_row) && in_bounds r2 c then
           t2 ← getitem2 board r2 c;
           if Ascii.eqb t2 "." then
             t1' ← getitem2 board r1 c;
             if Ascii.eqb t1' "." then mret (moves ++ [(r, c, r2, c)]) else mret moves
           else mret moves
         else mret moves
       else mret moves
     else mret moves);
  for_each [-1; 1] (λ dc moves,
    let cc := c + dc in
    let rr := r + dir in
    if in_bounds rr cc then
      target ← getitem2 board rr cc;
      if negb (Ascii.eqb target ".") && truthy (side_of target)
         && bool_decide (side_of target ≠ Some side)
      then mret (moves ++ [(r, c, rr, cc)]) else mret moves
    else mret moves) moves.

Definition gen_knight (board : loc) (r c : Z) (side : Side) : M (list Move) :=
  for_each jumps (λ '(dr, dc) moves,
    let rr := r + dr in
    let cc := c + dc in
    if negb (in_bounds rr cc) then mret moves
    else
      target ← getitem2 board rr cc;
      if Ascii.eqb target "." || bool_decide (side_of target ≠ Some side)
      then mret (moves ++ [(r, c, rr, cc)]) else mret moves) [].

Fixpoint slide_ray (fuel : nat) (board : loc) (r c : Z) (side : Side)
    (dr dc rr cc : Z) (moves : list Move) : M (list Move) :=
  match fuel with
  | O => lift (Raise OutOfFuel)
  | S fuel' =>
      if in_bounds rr cc then
        target ← getitem2 board rr cc;
        if Ascii.eqb target "." then
          slide_ray fuel' board r c side dr dc (rr + dr) (cc + dc)
                    (moves ++ [(r, c, rr, cc)])
        else if bool_decide (side_of target ≠ Some side)
             then mret (moves ++ [(r, c, rr, cc)])
             else mret moves
      else mret moves
  end.

Definition slide_moves (board : loc) (r c : Z) (side : Side)
    (directions : list (Z * Z)) : M (list Move) :=
  for_each directions (λ '(dr, dc) moves,
    slide_ray ray_fuel board r c side dr dc (r + dr) (c + dc) moves) [].

Definition gen_bishop (board : loc) (r c : Z) (side : Side) : M (list Move) :=
  slide_moves board r c side bishop_dirs.

Definition gen_rook (board : loc) (r c : Z) (side : Side) : M (list Move) :=
  slide_moves board r c side rook_dirs.

Definition gen_queen (board : loc) (r c : Z) (side : Side) : M (list Move) :=
  slide_moves board r c side queen_dirs.

Definition gen_king (board : loc) (r c : Z) (side : Side) : M (list Move) :=
  for_each [-1; 0; 1] (λ dr moves,
    for_each [-1; 0; 1] (λ dc moves,
      if (dr =? 0) && (dc =? 0) then mret moves
      else
        let rr := r + dr in
        let cc := c + dc in
        if negb (in_bounds rr cc) then mret moves
        else
          target ← getitem2 board rr cc;
          if Ascii.eqb target "." || bool_decide (side_of target ≠ Some side)
          then mret (moves ++ [(r, c, rr, cc)]) else mret moves) moves) [].

Definition scan_cell (board : loc) (side : Side) (r c : Z) (moves : list Move)
  : M (list Move) :=
  piece ← getitem2 board r c;
  if Ascii.eqb piece "." then mret moves
  else if bool_decide (side = White) && negb (is_white piece) then mret moves
  else if bool_decide (side = Black) && negb (is_black piece) then mret moves
  else
    let p := lower piece in
    if Ascii.eqb p "p" then ms ← gen_pawn board r c side; mret (moves ++ ms)
    else if Ascii.eqb p "n" then ms ← gen_knight board r c side; mret (moves ++ ms)
    else if Ascii.eqb p "b" then ms ← gen_bishop board r c side; mret (moves ++ ms)
    else if Ascii.eqb p "r" then ms ← gen_rook board r c side; mret (moves ++ ms)
    else if Ascii.eqb p "q" then ms ← gen_queen board r c side; mret (moves ++ ms)
    else if Ascii.eqb p "k" then ms ← gen_king board r c side; mret (moves ++ ms)
    else mret moves.

Definition generate_moves (board : loc) (side : Side) : M (list Move) :=
  for_each (seqZ 0 ROWS) (λ r moves,
    for_each (seqZ 0 COLS) (λ c moves, scan_cell board side r c moves) moves) [].

(** [[row.copy() for row in board]] *)
Definition copy_rows (board : loc) : M loc :=
  rows ← get_board board;
  copies ← for_each rows (λ row copies, l ← copy row; mret (copies ++ [l])) [];
  alloc (OBoard copies).

Definition apply_move (board : loc) (move : Move) : M loc :=
  let '(r1, c1, r2, c2) := move in
  piece ← getitem2 board r1 c1;
  new_b ← copy_rows board;
  _ ← setitem2 new_b r1 c1 "."%char;
  _ ← setitem2 new_b r2 c2 piece;
  _ ← (if Ascii.eqb piece "P" && (r2 =? 0)
       then setitem2 new_b r2 c2 "Q"%char else mret tt);
  _ ← (if Ascii.eqb piece "p" && (r2 =? ROWS - 1)
       then setitem2 new_b r2 c2 "q"%char else mret tt);
  mret new_b.

(** Building the list objects of a board value, as [new_board] does for
    the initial position. *)
Definition store (b : Board) : M loc :=
  rows ← for_each b (λ cells rows, l ← alloc (ORow cells); mret (rows ++ [l])) [];
  alloc (OBoard rows).

Definition new_board : M loc := store new_board.

(** The board object at [l] holds the board value [b]. *)
Definition represents (h : gmap nat obj) (l : loc) (b : Board) : Prop :=
  ∃ rows, h !! l = Some (OBoard rows)
          ∧ Forall2 (λ row cells, h !! row = Some (ORow cells)) rows b.

(** The board object at [l] and its rows did not exist in [h0]: the board
    shares nothing with what [h0] holds. *)
Definition fresh_board (h0 h : gmap nat obj) (l : loc) : Prop :=
  h0 !! l = None ∧
  ∃ rows, h !! l = Some (OBoard rows) ∧ NoDup rows
          ∧ Forall (λ row, h0 !! row = None) rows.

(** The state between two statements of [apply_move]: the new board [nb]
    holds [b'], it and its rows are objects that [h0] did not have, and all
    that [h0] had is still there. *)
Definition working (h0 h : gmap nat obj) (nb : loc) (b' : Board) : Prop :=
  h0 ⊆ h ∧ fresh_board h0 h nb ∧ represents h nb b'.

End Heap.

(** The result of a step that returns nothing. *)
Definition void {A : Type} (x : result A) : result unit :=
  match x with Ok _ => Ok tt | Raise e => Raise e end.

(** ** Positions used as instances *)

(** A Black rook that can take a White queen or a White pawn. *)
Definition rook_choice : Board :=
  [ list_ascii_of_string "r..Q....";
    list_ascii_of_string "........";
    list_ascii_of_string "........";
    list_ascii_of_string "P.......";
    list_ascii_of_string "........";
    list_ascii_of_string "........";
    list_ascii_of_string "........";
    list_ascii_of_string "....K..k" ].

(** A White pawn one step from the last row, next to a Black rook. *)
Definition pawn_on_seventh : Board :=
  [ list_ascii_of_string ".r......";
    list_ascii_of_string "P.......";
    list_ascii_of_string "........";
    list_ascii_of_string "........";
    list_ascii_of_string "........";
    list_ascii_of_string "........";
    list_ascii_of_string "........";
    list_ascii_of_string "....K..k" ].

(** The store that [new_board] leaves when it starts from an empty one; the
    board object is the last one allocated. *)
Definition initial_store : gmap nat Heap.obj := (Heap.new_board ∅).2.

(** * The window: squares, glyphs and clicks *)

Definition WIDTH : Z := 640.
Definition HEIGHT : Z := 640.
Definition SQ : Z := WIDTH / COLS.

(** Code points of the chess glyphs. *)
Definition UNICODE_PIECES : gmap ascii Z :=
  list_to_map
    [("K"%char, 9812); ("Q"%char, 9813); ("R"%char, 9814);
     ("B"%char, 9815); ("N"%char, 9816); ("P"%char, 9817);
     ("k"%char, 9818); ("q"%char, 9819); ("r"%char, 9820);
     ("b"%char, 9821); ("n"%char, 9822); ("p"%char, 9823)].

(** [UNICODE_PIECES[piece]] *)
Definition UNICODE_PIECES_getitem (piece : Cell) : result Z :=
  match UNICODE_PIECES !! piece with
  | Some g => Ok g
  | None => Raise KeyError
  end.

(** [mouse_to_square]: the square under a pixel of the window, [None] on the
    info panel and outside the board. *)
Definition mouse_to_square (pos : Z * Z) : option (Z * Z) :=
  let '(x, y) := pos in
  if y <? 32 then None
  else
    let y_adj := y - 32 in
    let r := y_adj / SQ in
    let c := x / SQ in
    if in_bounds r c then Some (r, c) else None.

(** [draw_pieces]: what it blits on the board surface, in order: the glyph
    and the centre of its rectangle. *)
Definition draw_pieces (board : Board) : result (list (Z * (Z * Z))) :=
  for_each (seqZ 0 ROWS) (λ r blits,
    for_each (seqZ 0 COLS) (λ c blits,
      piece ← getitem2 board r c;
      if Ascii.eqb piece "." then Ok blits
      else
        glyph ← UNICODE_PIECES_getitem piece;
        Ok (blits ++ [(glyph, (c * SQ + SQ / 2, r * SQ + SQ / 2))])) blits) [].

(** [screen.blit(board_surface, (0, 32))] of [main]: where a point of the
    board surface is in the window. *)
Definition on_screen (p : Z * Z) : Z * Z := let '(x, y) := p in (x, y + 32).

(** The centre of the rectangle of square [(r, c)] on the board surface, as
    [draw_pieces] and [draw_highlights] compute it. *)
Definition centre (r c : Z) : Z * Z := (c * SQ + SQ / 2, r * SQ + SQ / 2).

(** What [draw_pieces] blits for one cell. *)
Definition cell_blits (board : Board) (r c : Z) : list (Z * (Z * Z)) :=
  if Ascii.eqb (cell board r c) "." then []
  else match UNICODE_PIECES !! cell board r c with
       | Some g => [(g, centre r c)]
       | None => []
       end.

(** The position that Python gives to the index [i] of a list of eight
    items: negative indices count from the end. *)
Definition wrap (i : Z) : Z := if i <? 0 then 8 + i else i.

(** An index that a list of eight items accepts. *)
Definition indexable (i : Z) : Prop := -8 ≤ i < 8.

(** The number of cells that hold a piece of [side]. *)
Definition belongs (side : Side) (p : Cell) : nat :=
  if bool_decide (side_of p = Some side) then 1%nat else 0%nat.

Definition count_side (board : Board) (side : Side) : nat :=
  sum_list ((λ row, sum_list (belongs side <$> row)) <$> board).

(** The test that the knight, the king and the sliding pieces make on the
    cell they land on: empty, or not a piece of [side]. *)
Definition can_land (side : Side) (t : Cell) : Prop :=
  t = "."%char ∨ side_of t ≠ Some side.

(** What one iteration of the loop of [gen_knight] appends. *)
Definition knight_step (board : Board) (r c : Z) (side : Side) (d : Z * Z) : list Move :=
  let '(dr, dc) := d in
  if negb (in_bounds (r + dr) (c + dc)) then []
  else if Ascii.eqb (cell board (r + dr) (c + dc)) "."
          || bool_decide (side_of (cell board (r + dr) (c + dc)) ≠ Some side)
       then [(r, c, r + dr, c + dc)] else [].

(** The direction and the starting row of the pawns of [side], the [dir] and
    [start_row] of [gen_pawn]. *)
Definition pawn_dir (side : Side) : Z := match side with White => -1 | Black => 1 end.
Definition pawn_start (side : Side) : Z := match side with White => 6 | Black => 1 end.

(** What the first part of [gen_pawn] leaves in [moves]. *)
Definition pawn_pushes (board : Board) (r c : Z) (side : Side) : list Move :=
  let r1 := r + pawn_dir side in
  let r2 := r + 2 * pawn_dir side in
  if in_bounds r1 c && Ascii.eqb (cell board r1 c) "." then
    if (r =? pawn_start side) && in_bounds r2 c && Ascii.eqb (cell board r2 c) "."
    then [(r, c, r1, c); (r, c, r2, c)] else [(r, c, r1, c)]
  else [].

(** What one iteration of the capture loop of [gen_pawn] appends. *)
Definition pawn_capture (board : Board) (r c : Z) (side : Side) (dc : Z) : list Move :=
  let rr := r + pawn_dir side in
  let cc := c + dc in
  if in_bounds rr cc
     && bool_decide (side_of (cell board rr cc) = Some (opposite side))
  then [(r, c, rr, cc)] else [].

(** The loop of [ai_choose_move] drops no move that has the best score. *)
Definition best_all (sc : Move → Z) (seen : list Move) (st : list Move * Z) : Prop :=
  let '(best_moves, best_score) := st in
  ∀ m, m ∈ seen → sc m = best_score → m ∈ best_moves.

(** * The game loop of [main]

    The state of the loop is the values of its local variables; the window,
    the clock and the fonts are left out.  One iteration of [while running]
    takes the events that [pygame.event.get()] returns and the draw of the
    generator that [ai_choose_move] uses. *)

Inductive event : Type :=
  | Quit                                (* [event.type == pygame.QUIT] *)
  | MouseButtonDown (button : Z) (pos : Z * Z)
      (* [pos] is what [pygame.mouse.get_pos()] returns while the event is handled *)
  | OtherEvent.

Record state : Type := State {
  board : list (list ascii);
  turn : Side;
  selected : option (Z * Z);
  legal_for_selected : list (Z * Z * Z * Z);
  running : bool;
  status_text : string;
}.

(** The state that [main] sets up before the loop. *)
Definition initial_state : state :=
  {| board := new_board; turn := White; selected := None;
     legal_for_selected := []; running := true; status_text := "" |}.

(** The selection of the square [(r, c)], the code that [main] has twice:
    for a first click and for a click that made no move. *)
Definition select (st : state) (r c : Z) : result state :=
  piece ← getitem2 (board st) r c;
  if negb (Ascii.eqb piece ".") && is_white piece then
    all_moves ← generate_moves (board st) White;
    Ok {| board := board st; turn := turn st; selected := Some (r, c);
          legal_for_selected :=
            List.filter (λ '(r1, c1, _, _), (r1 =? r) && (c1 =? c)) all_moves;
          running := running st; status_text := status_text st |}
  else
    Ok {| board := board st; turn := turn st; selected := None;
          legal_for_selected := []; running := running st;
          status_text := status_text st |}.

(** The loop [for m in legal_for_selected] with its [break]: the state after
    the first move that ends on [(r, c)], or [None] when [made] stays
    [False]. *)
Fixpoint make_move (ms : list Move) (st : state) (r c : Z) : result (option state) :=
  match ms with
  | [] => Ok None
  | m :: ms' =>
      let '(_, _, r2, c2) := m in
      if (r2 =? r) && (c2 =? c) then
        b ← apply_move (board st) m;
        Ok (Some {| board := b; turn := Black; selected := None;
                    legal_for_selected := []; running := running st;
                    status_text := "" |})
      else make_move ms' st r c
  end.

(** The body of [for event in pygame.event.get()]. *)
Definition handle_event (ev : event) (st : state) : result state :=
  match ev with
  | Quit =>
      Ok {| board := board st; turn := turn st; selected := selected st;
            legal_for_selected := legal_for_selected st; running := false;
            status_text := status_text st |}
  | MouseButtonDown button pos =>
      if button =? 1 then
        match turn st with
        | White =>
            match mouse_to_square pos with
            | None => Ok st                                  (* continue *)
            | Some (r, c) =>
                match selected st with
                | None => select st r c
                | Some _ =>
                    made ← make_move (legal_for_selected st) st r c;
                    match made with
                    | Some st' => Ok st'
                    | None => select st r c
                    end
                end
            end
        | Black => Ok st
        end
      else Ok st
  | OtherEvent => Ok st
  end.

(** [if running and turn == 'b']: the opponent moves at once. *)
Definition ai_turn (k : nat) (st : state) : result state :=
  if running st && bool_decide (turn st = Black) then
    move ← ai_choose_move k (board st) Black;
    match move with
    | None =>
        Ok {| board := board st; turn := White; selected := selected st;
              legal_for_selected := legal_for_selected st; running := running st;
              status_text := "Black has no moves. Game over." |}
    | Some m =>
        b ← apply_move (board st) m;
        Ok {| board := b; turn := White; selected := selected st;
              legal_for_selected := legal_for_selected st; running := running st;
              status_text := status_text st |}
    end
  else Ok st.

Definition set_status (st : state) (s : string) : state :=
  {| board := board st; turn := turn st; selected := selected st;
     legal_for_selected := legal_for_selected st; running := running st;
     status_text := s |}.

(** [if running:] the two end conditions. *)
Definition end_conditions (st : state) : result state :=
  if running st then
    w ← has_moves (board st) White;
    let st := if negb w then set_status st "White has no moves. Game over." else st in
    bl ← has_moves (board st) Black;
    if negb bl then
      if negb (String.eqb (status_text st) "")
      then Ok (set_status st (status_text st ++ " | Black has no moves."))
      else Ok (set_status st "Black has no moves. Game over.")
    else Ok st
  else Ok st.

(** One iteration of [while running]; of the rendering, [draw_pieces] is the
    part that can raise. *)
Definition iteration (k : nat) (events : list event) (st : state) : result state :=
  st ← for_each events handle_event st;
  st ← ai_turn k st;
  st ← end_conditions st;
  _ ← draw_pieces (board st);
  Ok st.

(** The loop, on the events and draws of its successive iterations, as far
    as they go. *)
Fixpoint main_loop (inputs : list (nat * list event)) (st : state) : result state :=
  match inputs with
  | [] => Ok st
  | (k, events) :: inputs' =>
      if running st then st' ← iteration k events st; main_loop inputs' st'
      else Ok st
  end.

(** What the loop keeps true between two iterations. *)
Definition selection_ok (st : state) : Prop :=
  match selected st with
  | None => legal_for_selected st = []
  | Some (r, c) =>
      in_bounds r c = true ∧ turn st = White ∧
      side_of (cell (board st) r c) = Some White ∧
      ∃ all_moves, generate_moves (board st) White = Ok all_moves ∧
        legal_for_selected st
        = List.filter (λ '(r1, c1, _, _), (r1 =? r) && (c1 =? c)) all_moves
  end.

Definition loop_inv (st : state) : Prop :=
  wf_board (board st) ∧ selection_ok st ∧ (running st = true → turn st = White).

(** One move of [side], taken from [generate_moves], leads from [b] to
    [b']. *)
Definition ply (side : Side) (b b' : Board) : Prop :=
  ∃ moves m, generate_moves b side = Ok moves ∧ m ∈ moves ∧ apply_move b m = Ok b'.

(** What the loop over the events of one iteration keeps true, [b0] being the
    board at the start of the iteration: either nothing was played yet, or
    White played one generated move and it is Black's turn. *)
Definition events_inv (b0 : Board) (st : state) : Prop :=
  wf_board (board st) ∧ selection_ok st ∧
  ((board st = b0 ∧ turn st = White)
   ∨ (ply White b0 (board st) ∧ turn st = Black ∧ selected st = None
      ∧ legal_for_selected st = [])).



(** The list of a generator that raised nothing. *)
Definition unwrap {A : Type} (x : result (list A)) : list A :=
  match x with Ok l => l | Raise _ => [] end.

(** The place of the origin of a move in the scan of the board, row by row. *)
Definition scan_index (m : Move) : Z := let '(r1, c1, _, _) := m in 8 * r1 + c1.

(** * Proofs *)

(** ** The error monad and the loops *)

Lemma bind_Ok_l {A B : Type} (a : A) (f : A → result B) : Ok a ≫= f = f a.
Proof. reflexivity. Qed.

(** A loop whose body keeps an invariant and never raises ends, without
    raising, in a state where the invariant holds. *)
Lemma for_each_inv {X S : Type} (P : S → Prop) (xs : list X)
    (body : X → S → result S) (s : S) :
  P s →
  (∀ x s, x ∈ xs → P s → ∃ s', body x s = Ok s' ∧ P s') →
  ∃ s', for_each xs body s = Ok s' ∧ P s'.
Proof.
  revert s. induction xs as [|x xs IH]; intros s Hs Hbody; simpl.
  - eauto.
  - destruct (Hbody x s) as (s1 & -> & Hs1); [left | done |]. simpl.
    apply IH; [done |]. intros y s2 Hy. apply Hbody. by right.
Qed.

(** ** Indexing a grid *)

Lemma py_index_in_range (len : nat) (i : Z) :
  0 ≤ i < Z.of_nat len → py_index len i = Ok (Z.to_nat i).
Proof.
  intros H. unfold py_index.
  replace ((0 <=? i) && (i <? Z.of_nat len)) with true; [done |].
  symmetry. apply andb_true_iff. split; [apply Z.leb_le | apply Z.ltb_lt]; lia.
Qed.

Lemma getitem_in_range {A : Type} (l : list A) (i : Z) :
  0 ≤ i < Z.of_nat (length l) →
  ∃ x, l !! Z.to_nat i = Some x ∧ getitem l i = Ok x.
Proof.
  intros H. unfold getitem. rewrite py_index_in_range by done. simpl.
  destruct (lookup_lt_is_Some_2 l (Z.to_nat i)) as [x Hx]; [lia |].
  exists x. by rewrite Hx.
Qed.

Lemma setitem_in_range {A : Type} (l : list A) (i : Z) (x : A) :
  0 ≤ i < Z.of_nat (length l) → setitem l i x = Ok (<[Z.to_nat i := x]> l).
Proof. intros H. unfold setitem. by rewrite py_index_in_range. Qed.

Lemma in_bounds_spec (r c : Z) :
  in_bounds r c = true ↔ 0 ≤ r < 8 ∧ 0 ≤ c < 8.
Proof.
  unfold in_bounds, ROWS, COLS. rewrite !andb_true_iff.
  rewrite !Z.leb_le, !Z.ltb_lt. lia.
Qed.

Lemma grid_spec (b : Board) :
  grid b ↔ length b = 8%nat ∧ ∀ row, row ∈ b → length row = 8%nat.
Proof.
  unfold grid, gridb. rewrite andb_true_iff, Nat.eqb_eq, forallb_forall.
  split; intros [H1 H2]; split; try done.
  - intros row Hrow. apply Nat.eqb_eq, H2. by apply list_elem_of_In.
  - intros row Hrow. apply Nat.eqb_eq, H2. by apply list_elem_of_In.
Qed.

Lemma grid_row (b : Board) (r c : Z) :
  grid b → in_bounds r c = true →
  ∃ row, b !! Z.to_nat r = Some row ∧ length row = 8%nat
         ∧ row !! Z.to_nat c = Some (cell b r c).
Proof.
  intros [Hlen Hrows]%grid_spec [Hr Hc]%in_bounds_spec.
  destruct (lookup_lt_is_Some_2 b (Z.to_nat r)) as [row Hrow]; [lia |].
  assert (length row = 8%nat) as Hl by (eapply Hrows, list_elem_of_lookup_2, Hrow).
  destruct (lookup_lt_is_Some_2 row (Z.to_nat c)) as [p Hp]; [lia |].
  exists row. split_and!; [done .. |]. unfold cell. rewrite Hrow. simpl. by rewrite Hp.
Qed.

Lemma getitem2_grid (b : Board) (r c : Z) :
  grid b → in_bounds r c = true → getitem2 b r c = Ok (cell b r c).
Proof.
  intros Hg Hb. destruct (grid_row b r c Hg Hb) as (row & Hrow & Hl & Hp).
  pose proof Hg as [Hlen _]%grid_spec. apply in_bounds_spec in Hb as [Hr Hc].
  unfold getitem2.
  destruct (getitem_in_range b r) as (row' & Hrow' & ->); [lia |].
  simpl. assert (row' = row) as -> by congruence.
  destruct (getitem_in_range row c) as (p & Hp' & ->); [lia |]. congruence.
Qed.

Lemma setitem2_grid (b : Board) (r c : Z) (x : Cell) :
  grid b → in_bounds r c = true → setitem2 b r c x = Ok (set_cell b r c x).
Proof.
  intros Hg Hb. destruct (grid_row b r c Hg Hb) as (row & Hrow & Hl & Hp).
  pose proof Hg as [Hlen _]%grid_spec. apply in_bounds_spec in Hb as [Hr Hc].
  unfold setitem2.
  destruct (getitem_in_range b r) as (row' & Hrow' & ->); [lia |].
  simpl. assert (row' = row) as -> by congruence.
  rewrite setitem_in_range by lia. simpl. rewrite setitem_in_range by lia.
  f_equal. unfold set_cell. apply list_eq. intros i.
  destruct (decide (i = Z.to_nat r)) as [-> | Hne].
  - rewrite list_lookup_insert_eq by lia. rewrite list_lookup_alter_eq, Hrow. done.
  - rewrite list_lookup_insert_ne by done. by rewrite list_lookup_alter_ne.
Qed.

Lemma set_cell_grid (b : Board) (r c : Z) (x : Cell) :
  grid b → grid (set_cell b r c x).
Proof.
  rewrite !grid_spec. intros [Hlen Hrows]. unfold set_cell. split.
  - by rewrite length_alter.
  - intros row (i & Hi)%list_elem_of_lookup_1.
    destruct (decide (i = Z.to_nat r)) as [-> | Hne].
    + rewrite list_lookup_alter_eq in Hi.
      destruct (b !! Z.to_nat r) as [row0|] eqn:E; simplify_eq/=.
      rewrite length_insert. eapply Hrows, list_elem_of_lookup_2, E.
    + rewrite list_lookup_alter_ne in Hi by done.
      eapply Hrows, list_elem_of_lookup_2, Hi.
Qed.

Lemma cell_set_cell_eq (b : Board) (r c : Z) (x : Cell) :
  grid b → in_bounds r c = true → cell (set_cell b r c x) r c = x.
Proof.
  intros Hg Hb. destruct (grid_row b r c Hg Hb) as (row & Hrow & Hl & Hp).
  apply in_bounds_spec in Hb as [Hr Hc].
  unfold cell, set_cell. rewrite list_lookup_alter_eq, Hrow. simpl.
  rewrite list_lookup_insert_eq by lia. done.
Qed.

Lemma cell_set_cell_ne (b : Board) (r c r' c' : Z) (x : Cell) :
  in_bounds r c = true → in_bounds r' c' = true → (r, c) ≠ (r', c') →
  cell (set_cell b r c x) r' c' = cell b r' c'.
Proof.
  intros [Hr Hc]%in_bounds_spec [Hr' Hc']%in_bounds_spec Hne.
  unfold cell, set_cell.
  destruct (decide (Z.to_nat r = Z.to_nat r')) as [Heq | Hner].
  - rewrite <- Heq. rewrite list_lookup_alter_eq.
    destruct (b !! Z.to_nat r) as [row|]; simpl; [| done].
    rewrite list_lookup_insert_ne; [done |].
    intros Hcc. apply Hne. f_equal; lia.
  - by rewrite list_lookup_alter_ne.
Qed.

Lemma set_cell_twice (b : Board) (r c : Z) (x y : Cell) :
  set_cell (set_cell b r c x) r c y = set_cell b r c y.
Proof.
  unfold set_cell. apply list_eq. intros i.
  destruct (decide (i = Z.to_nat r)) as [-> | Hne].
  - rewrite !list_lookup_alter_eq. destruct (b !! Z.to_nat r) as [row|]; simpl; [| done].
    by rewrite list_insert_insert_eq.
  - by rewrite !list_lookup_alter_ne.
Qed.

(** ** What [apply_move] computes on a grid *)

Lemma apply_move_grid (b : Board) (r1 c1 r2 c2 : Z) :
  grid b → in_bounds r1 c1 = true → in_bounds r2 c2 = true →
  apply_move b (r1, c1, r2, c2)
  = Ok (set_cell (set_cell b r1 c1 ".") r2 c2 (arrival (cell b r1 c1) r2)).
Proof.
  intros Hg H1 H2. unfold apply_move.
  rewrite getitem2_grid by done. simpl.
  rewrite setitem2_grid by done. simpl.
  pose proof (set_cell_grid b r1 c1 "." Hg) as Hg1.
  rewrite setitem2_grid by done. simpl.
  pose proof (set_cell_grid _ r2 c2 (cell b r1 c1) Hg1) as Hg2.
  unfold arrival.
  destruct (Ascii.eqb (cell b r1 c1) "P" && (r2 =? 0)) eqn:EP.
  - rewrite setitem2_grid by done. simpl.
    apply andb_true_iff in EP as [->%Ascii.eqb_eq _]. simpl.
    by rewrite set_cell_twice.
  - simpl. destruct (Ascii.eqb (cell b r1 c1) "p" && (r2 =? ROWS - 1)) eqn:Ep.
    + rewrite setitem2_grid by done. simpl. by rewrite set_cell_twice.
    + done.
Qed.

Lemma arrival_occupied (p : Cell) (r2 : Z) : occupied (arrival p r2) = occupied p.
Proof.
  unfold arrival.
  destruct (Ascii.eqb p "P" && (r2 =? 0)) eqn:EP.
  { apply andb_true_iff in EP as [->%Ascii.eqb_eq _]. done. }
  destruct (Ascii.eqb p "p" && (r2 =? ROWS - 1)) eqn:Ep.
  { apply andb_true_iff in Ep as [->%Ascii.eqb_eq _]. done. }
  done.
Qed.

(** ** Counting the occupied cells *)

Lemma sum_list_insert {A : Type} (w : A → nat) (l : list A) (i : nat) (x y : A) :
  l !! i = Some y →
  (sum_list (w <$> <[i := x]> l) + w y = sum_list (w <$> l) + w x)%nat.
Proof.
  revert i. induction l as [|a l IH]; intros [|i] Hi; simplify_eq/=.
  - lia.
  - specialize (IH i Hi). lia.
Qed.

Lemma count_set_cell (b : Board) (r c : Z) (x : Cell) :
  grid b → in_bounds r c = true →
  (count_nonempty (set_cell b r c x) + occupied (cell b r c)
   = count_nonempty b + occupied x)%nat.
Proof.
  intros Hg Hb. destruct (grid_row b r c Hg Hb) as (row & Hrow & Hl & Hp).
  unfold count_nonempty, set_cell.
  assert (alter (λ row, <[Z.to_nat c := x]> row) (Z.to_nat r) b
          = <[Z.to_nat r := <[Z.to_nat c := x]> row]> b) as ->.
  { apply list_eq. intros i. destruct (decide (i = Z.to_nat r)) as [-> | Hne].
    - rewrite list_lookup_alter_eq, Hrow. simpl.
      rewrite list_lookup_insert_eq; [done |]. by eapply lookup_lt_Some.
    - rewrite list_lookup_alter_ne by done. by rewrite list_lookup_insert_ne. }
  pose proof (sum_list_insert (λ row, sum_list (occupied <$> row)) b (Z.to_nat r)
                (<[Z.to_nat c := x]> row) row Hrow) as Hout.
  pose proof (sum_list_insert occupied row (Z.to_nat c) x _ Hp) as Hin.
  simpl in Hout. lia.
Qed.

(** ** Claims on [apply_move] *)

(** C6.  Promotion: on a grid, a move inside the board whose origin holds a
    White pawn ['P'] and whose destination row is 0 puts a White queen ['Q']
    on the destination, whatever the origin row; a Black pawn ['p'] moved to
    row 7 becomes ['q']; in every other case the content of the origin
    arrives unchanged at the destination. *)
Theorem apply_move_promotion (b : Board) (r1 c1 r2 c2 : Z) (p : Cell) :
  grid b → in_bounds r1 c1 = true → in_bounds r2 c2 = true →
  getitem2 b r1 c1 = Ok p →
  ∃ b', apply_move b (r1, c1, r2, c2) = Ok b' ∧
    (p = "P"%char → r2 = 0 → getitem2 b' r2 c2 = Ok "Q"%char) ∧
    (p = "p"%char → r2 = 7 → getitem2 b' r2 c2 = Ok "q"%char) ∧
    (¬ (p = "P"%char ∧ r2 = 0) → ¬ (p = "p"%char ∧ r2 = 7) →
     getitem2 b' r2 c2 = Ok p).
Proof.
  intros Hg H1 H2 Hp. rewrite getitem2_grid in Hp by done. injection Hp as Hp.
  eexists. split; [by apply apply_move_grid |].
  pose proof (set_cell_grid b r1 c1 "." Hg) as Hg1.
  pose proof (set_cell_grid _ r2 c2 (arrival (cell b r1 c1) r2) Hg1) as Hg2.
  rewrite getitem2_grid, cell_set_cell_eq, Hp by done.
  split_and!.
  - intros -> ->. done.
  - intros -> ->. done.
  - intros HP Hp'. f_equal. unfold arrival, ROWS.
    destruct (Ascii.eqb p "P" && (r2 =? 0)) eqn:EP.
    { apply andb_true_iff in EP as [?%Ascii.eqb_eq ?%Z.eqb_eq]. tauto. }
    destruct (Ascii.eqb p "p" && (r2 =? 8 - 1)) eqn:Ep.
    { apply andb_true_iff in Ep as [?%Ascii.eqb_eq ?%Z.eqb_eq]. exfalso. apply Hp'. split; [done | lia]. }
    done.
Qed.

(** C7.  On a grid, a move inside the board from an occupied origin to a
    different cell never adds an occupied cell: the number of occupied cells
    is unchanged when the destination was empty and one less when it was
    occupied. *)
Theorem apply_move_population (b : Board) (r1 c1 r2 c2 : Z) (p t : Cell) :
  grid b → in_bounds r1 c1 = true → in_bounds r2 c2 = true →
  getitem2 b r1 c1 = Ok p → p ≠ "."%char →
  getitem2 b r2 c2 = Ok t →
  (r1, c1) ≠ (r2, c2) →
  ∃ b', apply_move b (r1, c1, r2, c2) = Ok b' ∧
    (count_nonempty b' ≤ count_nonempty b)%nat ∧
    (t = "."%char → count_nonempty b' = count_nonempty b) ∧
    (t ≠ "."%char → S (count_nonempty b') = count_nonempty b).
Proof.
  intros Hg H1 H2 Hp Hne Ht Hdiff.
  rewrite getitem2_grid in Hp, Ht by done. injection Hp as Hp. injection Ht as Ht.
  eexists. split; [by apply apply_move_grid |].
  pose proof (set_cell_grid b r1 c1 "." Hg) as Hg1.
  pose proof (count_set_cell b r1 c1 "." Hg H1) as Hc1.
  pose proof (count_set_cell _ r2 c2 (arrival (cell b r1 c1) r2) Hg1 H2) as Hc2.
  rewrite cell_set_cell_ne in Hc2 by done.
  rewrite arrival_occupied, Hp, Ht in *.
  assert (occupied p = 1%nat) as Hop.
  { unfold occupied. by apply Ascii.eqb_neq in Hne as ->. }
  change (occupied ".") with 0%nat in Hc1.
  split_and!.
  - lia.
  - intros ->. change (occupied ".") with 0%nat in Hc2. lia.
  - intros Hn. assert (occupied t = 1%nat) as Hot.
    { unfold occupied. by apply Ascii.eqb_neq in Hn as ->. }
    lia.
Qed.

(** C10.  [apply_move] raises nothing on a grid and a move inside the board,
    whatever the origin holds; when the origin is empty the board it returns
    has both the origin and the destination empty: what stood on the
    destination is gone. *)
Theorem apply_move_empty_origin (b : Board) (r1 c1 r2 c2 : Z) :
  grid b → in_bounds r1 c1 = true → in_bounds r2 c2 = true →
  ∃ b', apply_move b (r1, c1, r2, c2) = Ok b' ∧
    (getitem2 b r1 c1 = Ok "."%char →
     getitem2 b' r1 c1 = Ok "."%char ∧ getitem2 b' r2 c2 = Ok "."%char).
Proof.
  intros Hg H1 H2. eexists. split; [by apply apply_move_grid |].
  intros Hp. rewrite getitem2_grid in Hp by done. injection Hp as Hp.
  pose proof (set_cell_grid b r1 c1 "." Hg) as Hg1.
  pose proof (set_cell_grid _ r2 c2 (arrival (cell b r1 c1) r2) Hg1) as Hg2.
  rewrite !getitem2_grid by done. rewrite Hp. change (arrival "." r2) with "."%char.
  rewrite cell_set_cell_eq by done. split; [| done]. f_equal.
  destruct (decide ((r2, c2) = (r1, c1))) as [[= -> ->] | Hne].
  - by rewrite cell_set_cell_eq.
  - rewrite cell_set_cell_ne by done. by rewrite cell_set_cell_eq.
Qed.

(** ** Loops that only append to their list *)

(** A loop whose body appends to the list [f x], which does not depend on
    the list built so far, appends the lists of all its iterations. *)
Lemma for_each_collect {X A : Type} (xs : list X) (f : X → result (list A))
    (body : X → list A → result (list A)) :
  (∀ x, x ∈ xs → ∃ ms, f x = Ok ms ∧ ∀ acc, body x acc = Ok (acc ++ ms)) →
  ∃ out, (∀ acc, for_each xs body acc = Ok (acc ++ out)) ∧
         (∀ a, a ∈ out ↔ ∃ x ms, x ∈ xs ∧ f x = Ok ms ∧ a ∈ ms).
Proof.
  induction xs as [|x xs IH]; intros Hbody.
  - exists []. split.
    + intros acc. simpl. by rewrite app_nil_r.
    + intros a. split; [by intros ?%not_elem_of_nil |].
      by intros (x & ms & ?%not_elem_of_nil & _).
  - destruct (Hbody x) as (ms & Hf & Hx); [left |].
    destruct IH as (out & Hout & Hmem).
    { intros y Hy. apply Hbody. by right. }
    exists (ms ++ out). split.
    + intros acc. simpl. rewrite Hx. simpl. rewrite Hout. by rewrite app_assoc.
    + intros a. rewrite elem_of_app, Hmem. split.
      * intros [Ha | (y & ms' & Hy & Hfy & Ha)].
        -- exists x, ms. split_and!; [left | done | done].
        -- exists y, ms'. split_and!; [by right | done | done].
      * intros (y & ms' & Hy & Hfy & Ha).
        apply elem_of_cons in Hy as [-> | Hy].
        -- left. congruence.
        -- right. eauto.
Qed.

(** ** Sides of cells *)

Lemma wf_board_grid (b : Board) : wf_board b → grid b.
Proof. unfold wf_board, wf_boardb. by intros [? _]%andb_true_iff. Qed.

Lemma wf_board_cell (b : Board) (r c : Z) :
  wf_board b → in_bounds r c = true → valid_cell (cell b r c) = true.
Proof.
  intros Hwf Hb. pose proof (wf_board_grid b Hwf) as Hg.
  destruct (grid_row b r c Hg Hb) as (row & Hrow & _ & Hp).
  unfold wf_board, wf_boardb in Hwf. apply andb_true_iff in Hwf as [_ Hall].
  rewrite forallb_forall in Hall.
  specialize (Hall row). rewrite forallb_forall in Hall.
  apply Hall.
  - apply list_elem_of_In. eapply list_elem_of_lookup_2, Hrow.
  - apply list_elem_of_In. eapply list_elem_of_lookup_2, Hp.
Qed.

Lemma side_of_other (t : Cell) (s : Side) :
  side_of t ≠ Some s → t = "."%char ∨ side_of t = Some (opposite s).
Proof.
  unfold side_of. destruct (Ascii.eqb_spec t ".") as [-> | Hne]; [by left |].
  intros H. right. destruct (is_white t), s; simpl; congruence.
Qed.

Lemma side_of_opposite (t : Cell) (s : Side) :
  side_of t = Some (opposite s) → side_of t ≠ Some s.
Proof. intros ->. destruct s; simpl; congruence. Qed.

(** ** The generators, piece by piece *)

Section generators.
Context (b : Board) (side : Side) (r c : Z).
Hypothesis Hgrid : grid b.

Local Abbreviation P := (Forall (move_from b side r c)).

(** The step every generator ends with: append a move that is known to
    be good. *)
Lemma P_snoc (moves : list Move) (rr cc : Z) :
  P moves → in_bounds rr cc = true →
  cell b rr cc = "."%char ∨ side_of (cell b rr cc) = Some (opposite side) →
  P (moves ++ [(r, c, rr, cc)]).
Proof.
  intros Hm Hb Hc. apply Forall_app. split; [done |].
  apply Forall_singleton. done.
Qed.

Lemma P_nil : P [].
Proof. constructor. Qed.

Lemma gen_pawn_sound :
  ∃ ms, gen_pawn b r c side = Ok ms ∧ P ms.
Proof.
  unfold gen_pawn.
  set (dir := match side with White => -1 | Black => 1 end).
  set (start_row := match side with White => 6 | Black => 1 end).
  assert (∃ ms,
    (if in_bounds (r + dir) c then
       t1 ← getitem2 b (r + dir) c;
       if Ascii.eqb t1 "." then
         if (r =? start_row) && in_bounds (r + 2 * dir) c then
           t2 ← getitem2 b (r + 2 * dir) c;
           if Ascii.eqb t2 "." then
             t1' ← getitem2 b (r + dir) c;
             if Ascii.eqb t1' "."
             then Ok (([] ++ [(r, c, r + dir, c)]) ++ [(r, c, r + 2 * dir, c)])
             else Ok ([] ++ [(r, c, r + dir, c)])
           else Ok ([] ++ [(r, c, r + dir, c)])
         else Ok ([] ++ [(r, c, r + dir, c)])
       else Ok []
     else Ok []) = Ok ms ∧ P ms) as (ms & -> & Hms).
  { destruct (in_bounds (r + dir) c) eqn:E1; [| exists []; split; [done | apply P_nil]].
    rewrite getitem2_grid by done. simpl.
    destruct (Ascii.eqb_spec (cell b (r + dir) c) ".") as [H1 | H1];
      [| exists []; split; [done | apply P_nil]].
    assert (P ([] ++ [(r, c, r + dir, c)])) as Hone.
    { apply P_snoc; [apply P_nil | done | by left]. }
    destruct ((r =? start_row) && in_bounds (r + 2 * dir) c) eqn:E2; [| eauto].
    apply andb_true_iff in E2 as [_ E2].
    rewrite getitem2_grid by done. simpl.
    destruct (Ascii.eqb_spec (cell b (r + 2 * dir) c) ".") as [H2 | H2]; [| eauto].
    eexists. split; [done |].
    apply (P_snoc ([] ++ [(r, c, r + dir, c)]) (r + 2 * dir) c Hone E2). by left. }
  rewrite bind_Ok_l. apply for_each_inv; [done |].
  intros dc moves _ Hm.
  destruct (in_bounds (r + dir) (c + dc)) eqn:E; [| eauto].
  rewrite getitem2_grid by done. simpl.
  destruct (negb (Ascii.eqb (cell b (r + dir) (c + dc)) ".")
            && truthy (side_of (cell b (r + dir) (c + dc)))
            && bool_decide (side_of (cell b (r + dir) (c + dc)) ≠ Some side)) eqn:E3;
    [| eauto].
  apply andb_true_iff in E3 as [_ E3%bool_decide_eq_true].
  eexists. split; [done |]. apply P_snoc; [done | done |]. by apply side_of_other.
Qed.

(** The test shared by the knight, the king and the sliding pieces. *)
Lemma landing_ok (rr cc : Z) :
  Ascii.eqb (cell b rr cc) "." || bool_decide (side_of (cell b rr cc) ≠ Some side) = true →
  cell b rr cc = "."%char ∨ side_of (cell b rr cc) = Some (opposite side).
Proof.
  intros [H%Ascii.eqb_eq | H%bool_decide_eq_true]%orb_true_iff; [by left |].
  by apply side_of_other.
Qed.

Lemma gen_knight_sound :
  ∃ ms, gen_knight b r c side = Ok ms ∧ P ms.
Proof.
  unfold gen_knight. apply for_each_inv; [constructor |].
  intros [dr dc] moves _ Hm.
  destruct (in_bounds (r + dr) (c + dc)) eqn:E; simpl; [| eauto].
  rewrite getitem2_grid by done. simpl.
  destruct (Ascii.eqb (cell b (r + dr) (c + dc)) "."
            || bool_decide (side_of (cell b (r + dr) (c + dc)) ≠ Some side)) eqn:E2;
    [| eauto].
  eexists. split; [done |]. apply P_snoc; [done | done |]. by apply landing_ok.
Qed.

Lemma gen_king_sound :
  ∃ ms, gen_king b r c side = Ok ms ∧ P ms.
Proof.
  unfold gen_king. apply for_each_inv; [constructor |].
  intros dr moves0 _ Hm0. apply for_each_inv; [done |].
  intros dc moves _ Hm.
  destruct ((dr =? 0) && (dc =? 0)); [eauto |].
  destruct (in_bounds (r + dr) (c + dc)) eqn:E; simpl; [| eauto].
  rewrite getitem2_grid by done. simpl.
  destruct (Ascii.eqb (cell b (r + dr) (c + dc)) "."
            || bool_decide (side_of (cell b (r + dr) (c + dc)) ≠ Some side)) eqn:E2;
    [| eauto].
  eexists. split; [done |]. apply P_snoc; [done | done |]. by apply landing_ok.
Qed.

(** A ray leaves the board before its fuel is spent. *)
Lemma slide_ray_sound (dr dc : Z) (fuel : nat) :
  (dr, dc) ∈ queen_dirs →
  ∀ rr cc moves,
    0 ≤ Z.min (room dr rr) (room dc cc) < Z.of_nat fuel →
    P moves →
    ∃ ms, slide_ray fuel b r c side dr dc rr cc moves = Ok ms ∧ P ms.
Proof.
  intros Hd. induction fuel as [|fuel IH]; intros rr cc moves Hroom Hm; [lia |].
  simpl. destruct (in_bounds rr cc) eqn:E; [| eauto].
  rewrite getitem2_grid by done. simpl.
  destruct (Ascii.eqb_spec (cell b rr cc) ".") as [He | He].
  - apply IH; [| apply P_snoc; [done | done | by left]].
    apply in_bounds_spec in E. clear IH.
    unfold queen_dirs in Hd. set_unfold in Hd.
    destruct Hd as [[=] | [[=] | [[=] | [[=] | [[=] | [[=] | [[=] | [[=] | []]]]]]]]];
      subst dr dc; unfold room in *; simpl in *; lia.
  - destruct (bool_decide (side_of (cell b rr cc) ≠ Some side)) eqn:E2; [| eauto].
    apply bool_decide_eq_true in E2.
    eexists. split; [done |]. apply P_snoc; [done | done |]. by apply side_of_other.
Qed.

Hypothesis Hrc : in_bounds r c = true.

Lemma slide_moves_sound (directions : list (Z * Z)) :
  directions ⊆ queen_dirs →
  ∃ ms, slide_moves b r c side directions = Ok ms ∧ P ms.
Proof.
  intros Hsub. unfold slide_moves. apply for_each_inv; [constructor |].
  intros [dr dc] moves Hin Hm. apply slide_ray_sound; [by apply Hsub | | done].
  apply in_bounds_spec in Hrc. apply Hsub in Hin.
  unfold queen_dirs in Hin. set_unfold in Hin. unfold ray_fuel.
  destruct Hin as [[=] | [[=] | [[=] | [[=] | [[=] | [[=] | [[=] | [[=] | []]]]]]]]];
    subst dr dc; unfold room; simpl; lia.
Qed.

End generators.

(** ** The scan of the board *)

Lemma bishop_dirs_queen : bishop_dirs ⊆ queen_dirs.
Proof.
  intros d. unfold bishop_dirs, queen_dirs.
  rewrite !elem_of_cons, !elem_of_nil. tauto.
Qed.

Lemma rook_dirs_queen : rook_dirs ⊆ queen_dirs.
Proof.
  intros d. unfold rook_dirs, queen_dirs.
  rewrite !elem_of_cons, !elem_of_nil. tauto.
Qed.

Lemma scan_cell_spec (b : Board) (side : Side) (r c : Z) :
  grid b → in_bounds r c = true →
  ∃ ms, scan_cell b side r c [] = Ok ms ∧ Forall (move_from b side r c) ms
        ∧ ∀ acc, scan_cell b side r c acc = Ok (acc ++ ms).
Proof.
  intros Hg Hb. unfold scan_cell. rewrite getitem2_grid by done.
  rewrite !bind_Ok_l.
  assert (∃ ms : list Move, Ok [] = Ok ms ∧ Forall (move_from b side r c) ms
            ∧ ∀ acc : list Move, Ok acc = Ok (acc ++ ms)) as Hnone.
  { exists []. split_and!; [done | constructor |]. intros acc. by rewrite app_nil_r. }
  assert (∀ gen : result (list Move),
            (∃ ms, gen = Ok ms ∧ Forall (move_from b side r c) ms) →
            ∃ ms, (ms0 ← gen; Ok ([] ++ ms0)) = Ok ms
                  ∧ Forall (move_from b side r c) ms
                  ∧ ∀ acc, (ms0 ← gen; Ok (acc ++ ms0)) = Ok (acc ++ ms)) as Hgen.
  { intros gen (ms & -> & Hms). exists ms. done. }
  cbv beta iota delta [mbind result_bind] in Hgen |- *.
  destruct (Ascii.eqb (cell b r c) "."); cbv iota; [exact Hnone |].
  destruct (bool_decide (side = White) && negb (is_white (cell b r c)));
    cbv iota; [exact Hnone |].
  destruct (bool_decide (side = Black) && negb (is_black (cell b r c)));
    cbv iota; [exact Hnone |].
  destruct (Ascii.eqb (lower (cell b r c)) "p"); cbv iota;
    [by apply Hgen, gen_pawn_sound |].
  destruct (Ascii.eqb (lower (cell b r c)) "n"); cbv iota;
    [by apply Hgen, gen_knight_sound |].
  destruct (Ascii.eqb (lower (cell b r c)) "b"); cbv iota.
  { apply Hgen, slide_moves_sound; [done | done |]. apply bishop_dirs_queen. }
  destruct (Ascii.eqb (lower (cell b r c)) "r"); cbv iota.
  { apply Hgen, slide_moves_sound; [done | done |]. apply rook_dirs_queen. }
  destruct (Ascii.eqb (lower (cell b r c)) "q"); cbv iota.
  { apply Hgen, slide_moves_sound; [done | done | done]. }
  destruct (Ascii.eqb (lower (cell b r c)) "k"); cbv iota;
    [by apply Hgen, gen_king_sound |].
  exact Hnone.
Qed.

(** On a grid [generate_moves] raises nothing, and its list is made of the
    lists that [scan_cell] yields at the 64 cells. *)
Lemma generate_moves_spec (b : Board) (side : Side) :
  grid b →
  ∃ all, generate_moves b side = Ok all ∧
    ∀ m, m ∈ all ↔ ∃ r c ms, in_bounds r c = true
                             ∧ scan_cell b side r c [] = Ok ms ∧ m ∈ ms.
Proof.
  intros Hg. unfold generate_moves.
  assert (∀ r, r ∈ seqZ 0 ROWS →
            ∃ out, (∀ acc, for_each (seqZ 0 COLS)
                             (λ c moves, scan_cell b side r c moves) acc
                           = Ok (acc ++ out)) ∧
                   (∀ m, m ∈ out ↔ ∃ c ms, c ∈ seqZ 0 COLS
                                    ∧ scan_cell b side r c [] = Ok ms ∧ m ∈ ms))
    as Hrow.
  { intros r Hr. apply (for_each_collect _ (λ c, scan_cell b side r c [])).
    intros c Hc. apply elem_of_seqZ in Hr, Hc.
    destruct (scan_cell_spec b side r c Hg) as (ms & H1 & _ & H2).
    { apply in_bounds_spec. unfold ROWS, COLS in *. lia. }
    eauto. }
  destruct (for_each_collect (seqZ 0 ROWS)
              (λ r, for_each (seqZ 0 COLS) (λ c moves, scan_cell b side r c moves) [])
              (λ r moves, for_each (seqZ 0 COLS)
                            (λ c moves, scan_cell b side r c moves) moves))
    as (all & Hall & Hmem).
  { intros r Hr. destruct (Hrow r Hr) as (out & Hout & _).
    exists out. split; [apply (Hout []) | done]. }
  exists all. split; [apply (Hall []) |].
  intros m. rewrite Hmem. split.
  - intros (r & out & Hr & Hout & Hm).
    destruct (Hrow r Hr) as (out' & Hout' & Hmem').
    rewrite (Hout' []) in Hout. injection Hout as <-.
    apply Hmem' in Hm as (c & ms & Hc & Hms & Hm).
    exists r, c, ms. split_and!; [| done | done].
    apply elem_of_seqZ in Hr, Hc. apply in_bounds_spec. unfold ROWS, COLS in *. lia.
  - intros (r & c & ms & [Hr Hc]%in_bounds_spec & Hms & Hm).
    assert (r ∈ seqZ 0 ROWS) as Hr' by (apply elem_of_seqZ; unfold ROWS; lia).
    destruct (Hrow r Hr') as (out & Hout & Hmem').
    exists r, out. split_and!; [done | apply (Hout []) |].
    apply Hmem'. exists c, ms. split_and!; [| done | done].
    apply elem_of_seqZ. unfold COLS. lia.
Qed.

(** The generated moves start on the board and obey [move_from]. *)
Lemma generate_moves_from (b : Board) (side : Side) :
  grid b →
  ∃ moves, generate_moves b side = Ok moves ∧
    ∀ m, m ∈ moves → ∃ r c, in_bounds r c = true ∧ move_from b side r c m.
Proof.
  intros Hg. destruct (generate_moves_spec b side Hg) as (all & Hall & Hmem).
  exists all. split; [done |].
  intros m (r & c & ms & Hb & Hms & Hm)%Hmem.
  destruct (scan_cell_spec b side r c Hg Hb) as (ms' & Hms' & Hgood & _).
  assert (ms' = ms) as -> by congruence.
  rewrite Forall_forall in Hgood. eauto.
Qed.

Lemma generate_moves_dest (b : Board) (side : Side) (moves : list Move) :
  grid b → generate_moves b side = Ok moves →
  ∀ r1 c1 r2 c2, (r1, c1, r2, c2) ∈ moves → in_bounds r2 c2 = true.
Proof.
  intros Hg Hgen r1 c1 r2 c2 Hm.
  destruct (generate_moves_from b side Hg) as (moves' & Hgen' & Hfrom).
  assert (moves' = moves) as -> by congruence.
  by destruct (Hfrom _ Hm) as (r & c & _ & _ & Hb2 & _).
Qed.

(** C5.  On a well-formed board every move of [generate_moves] has its
    origin and its destination inside the board, and its destination is
    empty or holds a piece of the other side, never one of the side that
    moves. *)
Theorem generate_moves_sound (b : Board) (side : Side) :
  wf_board b →
  ∃ moves, generate_moves b side = Ok moves ∧
    ∀ r1 c1 r2 c2, (r1, c1, r2, c2) ∈ moves →
      in_bounds r1 c1 = true ∧ in_bounds r2 c2 = true ∧
      ∃ t, getitem2 b r2 c2 = Ok t ∧
           (t = "."%char ∨ side_of t = Some (opposite side)) ∧
           side_of t ≠ Some side.
Proof.
  intros Hwf. pose proof (wf_board_grid b Hwf) as Hg.
  destruct (generate_moves_from b side Hg) as (moves & Hgen & Hfrom).
  exists moves. split; [done |].
  intros r1 c1 r2 c2 Hm.
  destruct (Hfrom _ Hm) as (r & c & Hb & [= -> ->] & Hb2 & Hdest).
  split_and!; [done | done |].
  exists (cell b r2 c2). split_and!; [by apply getitem2_grid | done |].
  destruct Hdest as [-> | Hopp]; [done |]. by apply side_of_opposite.
Qed.

(** ** The opponent's choice *)

Lemma valid_cell_cases (t : Cell) :
  valid_cell t = true → t ∈ "."%char :: pieces.
Proof.
  unfold valid_cell. intros [->%Ascii.eqb_eq | H%bool_decide_eq_true]%orb_true_iff.
  - left.
  - by right.
Qed.

Lemma score_of_material (b : Board) (r1 c1 r2 c2 : Z) :
  wf_board b → in_bounds r2 c2 = true →
  score_of b (r1, c1, r2, c2) = Ok (material (cell b r2 c2))
  ∧ 0 ≤ material (cell b r2 c2) ≤ 9.
Proof.
  intros Hwf Hb. unfold score_of.
  rewrite getitem2_grid by (done || by apply wf_board_grid). rewrite bind_Ok_l.
  pose proof (valid_cell_cases _ (wf_board_cell b r2 c2 Hwf Hb)) as Hc.
  unfold pieces in Hc. simpl in Hc. rewrite !elem_of_cons, elem_of_nil in Hc.
  destruct Hc as [-> | [-> | [-> | [-> | [-> | [-> | [-> | [-> | [-> | [->
               | [-> | [-> | [-> | []]]]]]]]]]]]]];
    (split; [vm_compute; reflexivity | vm_compute; split; discriminate]).
Qed.

Lemma choice_elem {A : Type} (k : nat) (l : list A) :
  l ≠ [] → ∃ x, choice k l = Ok x ∧ x ∈ l.
Proof.
  intros Hl. unfold choice. destruct l as [|a l']; [done |].
  set (l := a :: l').
  destruct (lookup_lt_is_Some_2 l (k mod length l)%nat) as [x Hx].
  { apply Nat.mod_upper_bound. done. }
  rewrite Hx. exists x. split; [done |]. eapply list_elem_of_lookup_2, Hx.
Qed.

Lemma best_loop (b : Board) (sc : Move → Z) (xs : list Move) :
  (∀ m, m ∈ xs → score_of b m = Ok (sc m) ∧ 0 ≤ sc m) →
  ∀ seen st, best_inv sc seen st →
    ∃ st', for_each xs (best_step b) st = Ok st' ∧ best_inv sc (seen ++ xs) st'.
Proof.
  induction xs as [|x xs IH]; intros Hsc seen st Hinv.
  - exists st. rewrite app_nil_r. done.
  - destruct (Hsc x) as [Hx Hx0]; [left |].
    assert (∃ st1, best_step b x st = Ok st1 ∧ best_inv sc (seen ++ [x]) st1)
      as (st1 & Hst1 & Hinv1).
    { destruct st as [bm bs]. unfold best_step. rewrite Hx, bind_Ok_l.
      destruct (Z.gtb_spec (sc x) bs) as [Hgt | Hle].
      - eexists. split; [done |]. right. split_and!; [done | |].
        + intros m ->%list_elem_of_singleton. split; [| done].
          apply elem_of_app. right. left.
        + intros m [Hm | ->%list_elem_of_singleton]%elem_of_app; [| lia].
          destruct Hinv as [(-> & _) | (_ & _ & Hmax)].
          * by apply not_elem_of_nil in Hm.
          * specialize (Hmax m Hm). lia.
      - destruct Hinv as [(-> & -> & ->) | (Hne & Hbm & Hmax)]; [lia |].
        destruct (Z.eqb_spec (sc x) bs) as [Heq | Hneq].
        + eexists. split; [done |]. right. split_and!.
          * by destruct bm.
          * intros m [Hm | ->%list_elem_of_singleton]%elem_of_app.
            -- destruct (Hbm m Hm). split; [| done]. apply elem_of_app. by left.
            -- split; [| done]. apply elem_of_app. right. left.
          * intros m [Hm | ->%list_elem_of_singleton]%elem_of_app; [by apply Hmax | lia].
        + eexists. split; [done |]. right. split_and!; [done | |].
          * intros m Hm. destruct (Hbm m Hm). split; [| done]. apply elem_of_app. by left.
          * intros m [Hm | ->%list_elem_of_singleton]%elem_of_app; [by apply Hmax | lia]. }
    destruct (IH (λ m Hm, Hsc m (list_elem_of_further _ _ _ Hm)) _ _ Hinv1)
      as (st' & Hst' & Hinv').
    exists st'. split.
    + simpl. rewrite Hst1. done.
    + by rewrite <- app_assoc in Hinv'.
Qed.

(** The moves of a well-formed board all have a score, that of the material
    on their destination. *)
Lemma generated_scores (b : Board) (side : Side) (moves : list Move) :
  wf_board b → generate_moves b side = Ok moves →
  ∀ m, m ∈ moves → score_of b m = Ok (dest_material b m) ∧ 0 ≤ dest_material b m.
Proof.
  intros Hwf Hgen [[[r1 c1] r2] c2] Hm.
  pose proof (generate_moves_dest b side moves (wf_board_grid b Hwf) Hgen _ _ _ _ Hm)
    as Hb2.
  destruct (score_of_material b r1 c1 r2 c2 Hwf Hb2) as [Hs Hrange].
  split; [done | simpl; lia].
Qed.

(** With at least one move generated, the opponent returns one of the
    generated moves, and none of them lands on more material. *)
Lemma ai_choose_move_spec (k : nat) (b : Board) (side : Side) (moves : list Move) :
  wf_board b → generate_moves b side = Ok moves → moves ≠ [] →
  ∃ m, ai_choose_move k b side = Ok (Some m) ∧ m ∈ moves ∧
       ∀ m', m' ∈ moves → dest_material b m' ≤ dest_material b m.
Proof.
  intros Hwf Hgen Hne. unfold ai_choose_move. rewrite Hgen, bind_Ok_l.
  destruct (best_loop b (dest_material b) moves (generated_scores b side moves Hwf Hgen)
              [] ([], -999)) as ([bm bs] & Hloop & Hinv).
  { left. done. }
  destruct moves as [|m0 moves']; [done |]. rewrite Hloop, bind_Ok_l.
  simpl in Hinv. destruct Hinv as [([=] & _) | (Hbm & Hin & Hmax)].
  destruct (choice_elem k bm Hbm) as (m & Hm & Hmem).
  destruct bm as [|m1 bm']; [done |]. rewrite Hm, bind_Ok_l.
  exists m. destruct (Hin m Hmem) as [Hmm <-]. done.
Qed.

(** C8.  On a well-formed board [ai_choose_move] raises nothing; it returns
    [None] exactly when [generate_moves] is empty, and a move it returns,
    whatever the random draw [k], is one of the moves of [generate_moves]. *)
Theorem ai_choose_move_contract (k : nat) (b : Board) (side : Side) :
  wf_board b →
  ∃ moves res, generate_moves b side = Ok moves ∧
    ai_choose_move k b side = Ok res ∧
    (res = None ↔ moves = []) ∧
    (∀ m, res = Some m → m ∈ moves).
Proof.
  intros Hwf.
  destruct (generate_moves_from b side (wf_board_grid b Hwf)) as (moves & Hgen & _).
  exists moves. destruct (decide (moves = [])) as [-> | Hne].
  - exists None. unfold ai_choose_move. rewrite Hgen. done.
  - destruct (ai_choose_move_spec k b side moves Hwf Hgen Hne) as (m & Hm & Hin & _).
    exists (Some m). split_and!; [done | done | done |].
    by intros m' [= <-].
Qed.

(** C3.  On a well-formed board with at least one generated move, the move
    the opponent returns, whatever the random draw [k], has the greatest
    score of all generated moves, where the score of a move is the material
    on its destination before the move (queen 9, rook 5, bishop 3, knight 3,
    pawn 1, king 0, empty 0).  So when some generated move lands on a queen
    the returned move scores 9, and a move that lands on a king scores 0,
    as a move to an empty cell does. *)
Theorem ai_choose_move_greedy (k : nat) (b : Board) (side : Side) (moves : list Move) :
  wf_board b → generate_moves b side = Ok moves → moves ≠ [] →
  ∃ m v, ai_choose_move k b side = Ok (Some m) ∧ m ∈ moves ∧
    score_of b m = Ok v ∧
    (∀ r1 c1 r2 c2, (r1, c1, r2, c2) ∈ moves →
       ∃ t, getitem2 b r2 c2 = Ok t ∧
            score_of b (r1, c1, r2, c2) = Ok (material t) ∧ material t ≤ v ∧
            (t = "."%char ∨ t = "K"%char ∨ t = "k"%char →
             score_of b (r1, c1, r2, c2) = Ok 0)) ∧
    ((∃ r1 c1 r2 c2 t, (r1, c1, r2, c2) ∈ moves ∧ getitem2 b r2 c2 = Ok t
                       ∧ (t = "Q"%char ∨ t = "q"%char)) → v = 9).
Proof.
  intros Hwf Hgen Hne. pose proof (wf_board_grid b Hwf) as Hg.
  destruct (ai_choose_move_spec k b side moves Hwf Hgen Hne) as (m & Hm & Hin & Hmax).
  pose proof (generated_scores b side moves Hwf Hgen) as Hsc.
  pose proof (generate_moves_dest b side moves Hg Hgen) as Hsound.
  exists m, (dest_material b m). split_and!; [done | done | by apply Hsc | |].
  - intros r1 c1 r2 c2 Hm'. pose proof (Hsound _ _ _ _ Hm') as Hb2.
    exists (cell b r2 c2). split_and!.
    + by apply getitem2_grid.
    + by apply (Hsc _ Hm').
    + apply (Hmax _ Hm').
    + intros Ht. destruct (Hsc _ Hm') as [-> _]. simpl.
      by destruct Ht as [-> | [-> | ->]].
  - intros (r1 & c1 & r2 & c2 & t & Hm' & Ht & Hq).
    pose proof (Hsound _ _ _ _ Hm') as Hb2.
    rewrite getitem2_grid in Ht by done. injection Ht as Ht.
    destruct m as [[[mr1 mc1] mr2] mc2].
    pose proof (Hmax _ Hm') as Hle. simpl in Hle. rewrite Ht in Hle.
    assert (material t = 9) as H9 by (by destruct Hq as [-> | ->]).
    pose proof (Hsound _ _ _ _ Hin) as Hmb.
    destruct (score_of_material b mr1 mc1 mr2 mc2 Hwf Hmb) as [_ Hrange].
    simpl. lia.
Qed.

(** ** The king *)

Lemma gen_king_spec (b : Board) (r c : Z) (side : Side) :
  grid b →
  ∃ out, gen_king b r c side = Ok out ∧
    ∀ m, m ∈ out ↔ ∃ dr dc, dr ∈ [-1; 0; 1] ∧ dc ∈ [-1; 0; 1]
                            ∧ m ∈ king_step b r c side dr dc.
Proof.
  intros Hg. unfold gen_king.
  assert (∀ dr dc, ∀ acc,
            (if (dr =? 0) && (dc =? 0) then Ok acc
             else if negb (in_bounds (r + dr) (c + dc)) then Ok acc
             else target ← getitem2 b (r + dr) (c + dc);
                  if Ascii.eqb target "." || bool_decide (side_of target ≠ Some side)
                  then Ok (acc ++ [(r, c, r + dr, c + dc)]) else Ok acc)
            = Ok (acc ++ king_step b r c side dr dc)) as Hstep.
  { intros dr dc acc. unfold king_step.
    destruct ((dr =? 0) && (dc =? 0)); [by rewrite app_nil_r |].
    destruct (in_bounds (r + dr) (c + dc)) eqn:E; simpl; [| by rewrite app_nil_r].
    rewrite getitem2_grid by done. rewrite bind_Ok_l.
    destruct (Ascii.eqb (cell b (r + dr) (c + dc)) "."
              || bool_decide (side_of (cell b (r + dr) (c + dc)) ≠ Some side));
      [done | by rewrite app_nil_r]. }
  assert (∀ dr,
    ∃ out, (∀ acc, for_each [-1; 0; 1] (λ dc moves,
              if (dr =? 0) && (dc =? 0) then Ok moves
              else if negb (in_bounds (r + dr) (c + dc)) then Ok moves
              else target ← getitem2 b (r + dr) (c + dc);
                   if Ascii.eqb target "." || bool_decide (side_of target ≠ Some side)
                   then Ok (moves ++ [(r, c, r + dr, c + dc)]) else Ok moves) acc
            = Ok (acc ++ out)) ∧
           (∀ m, m ∈ out ↔ ∃ dc ms, dc ∈ [-1; 0; 1]
                    ∧ Ok (king_step b r c side dr dc) = Ok ms ∧ m ∈ ms)) as Hrow.
  { intros dr. apply (for_each_collect _ (λ dc, Ok (king_step b r c side dr dc))).
    intros dc _. eexists. split; [done |]. intros acc. apply Hstep. }
  destruct (for_each_collect [-1; 0; 1]
              (λ dr, for_each [-1; 0; 1] (λ dc moves,
                 if (dr =? 0) && (dc =? 0) then Ok moves
                 else if negb (in_bounds (r + dr) (c + dc)) then Ok moves
                 else target ← getitem2 b (r + dr) (c + dc);
                      if Ascii.eqb target "." || bool_decide (side_of target ≠ Some side)
                      then Ok (moves ++ [(r, c, r + dr, c + dc)]) else Ok moves) [])
              (λ dr moves, for_each [-1; 0; 1] (λ dc moves,
                 if (dr =? 0) && (dc =? 0) then Ok moves
                 else if negb (in_bounds (r + dr) (c + dc)) then Ok moves
                 else target ← getitem2 b (r + dr) (c + dc);
                      if Ascii.eqb target "." || bool_decide (side_of target ≠ Some side)
                      then Ok (moves ++ [(r, c, r + dr, c + dc)]) else Ok moves) moves))
    as (all & Hall & Hmem).
  { intros dr _. destruct (Hrow dr) as (out & Hout & _).
    exists out. split; [apply (Hout []) | done]. }
  exists all. split; [apply (Hall []) |].
  intros m. rewrite Hmem. split.
  - intros (dr & out & Hdr & Hout & Hm).
    destruct (Hrow dr) as (out' & Hout' & Hmem').
    rewrite (Hout' []) in Hout. injection Hout as <-.
    apply Hmem' in Hm as (dc & ms & Hdc & [= <-] & Hm). eauto.
  - intros (dr & dc & Hdr & Hdc & Hm).
    destruct (Hrow dr) as (out & Hout & Hmem').
    exists dr, out. split_and!; [done | apply (Hout []) |].
    apply Hmem'. eauto.
Qed.

Lemma neighbours_spec (dr dc : Z) :
  (dr, dc) ∈ neighbours ↔
  dr ∈ [-1; 0; 1] ∧ dc ∈ [-1; 0; 1] ∧ (dr =? 0) && (dc =? 0) = false.
Proof.
  unfold neighbours. rewrite !elem_of_cons, !elem_of_nil. split.
  - intros H. repeat destruct H as [[= -> ->] | H]; try done; simpl; tauto.
  - intros ([-> | [-> | [-> | []]]] & [-> | [-> | [-> | []]]] & H);
      simpl in H; try done; tauto.
Qed.

Lemma surrounded_spec (b : Board) (side : Side) (r c dr dc : Z) :
  grid b → surrounded b side r c = true → (dr, dc) ∈ neighbours →
  in_bounds (r + dr) (c + dc) = true →
  side_of (cell b (r + dr) (c + dc)) = Some side.
Proof.
  intros Hg Hs Hn Hb. unfold surrounded in Hs. rewrite forallb_forall in Hs.
  apply list_elem_of_In in Hn. specialize (Hs (dr, dc) Hn). cbv beta iota in Hs.
  rewrite Hb, getitem2_grid in Hs by done.
  simpl in Hs. by apply bool_decide_eq_true in Hs.
Qed.

(** A king all of whose neighbours are friendly has no move. *)
Lemma gen_king_surrounded (b : Board) (side : Side) (r c : Z) :
  grid b → surrounded b side r c = true → gen_king b r c side = Ok [].
Proof.
  intros Hg Hs. destruct (gen_king_spec b r c side Hg) as (out & -> & Hmem).
  f_equal. apply elem_of_nil_inv. intros m (dr & dc & Hdr & Hdc & Hm)%Hmem.
  unfold king_step in Hm.
  destruct ((dr =? 0) && (dc =? 0)) eqn:E0; [by apply not_elem_of_nil in Hm |].
  destruct (in_bounds (r + dr) (c + dc)) eqn:Eb; simpl in Hm;
    [| by apply not_elem_of_nil in Hm].
  assert (side_of (cell b (r + dr) (c + dc)) = Some side) as Hside.
  { apply surrounded_spec; [done | done | | done]. by apply neighbours_spec. }
  assert (Ascii.eqb (cell b (r + dr) (c + dc)) "." = false) as Hdot.
  { apply Ascii.eqb_neq. intros Heq. rewrite Heq in Hside. done. }
  rewrite Hdot, Hside in Hm. rewrite bool_decide_eq_false_2 in Hm by (by intros []).
  by apply not_elem_of_nil in Hm.
Qed.

(** A king with an empty neighbour on the board can move there. *)
Lemma gen_king_empty_neighbour (b : Board) (side : Side) (r c dr dc : Z) :
  grid b → (dr, dc) ∈ neighbours → in_bounds (r + dr) (c + dc) = true →
  cell b (r + dr) (c + dc) = "."%char →
  ∃ out, gen_king b r c side = Ok out ∧ (r, c, r + dr, c + dc) ∈ out.
Proof.
  intros Hg (Hdr & Hdc & H0)%neighbours_spec Hb Hc.
  destruct (gen_king_spec b r c side Hg) as (out & Hout & Hmem).
  exists out. split; [done |]. apply Hmem. exists dr, dc. split_and!; [done | done |].
  unfold king_step. rewrite H0, Hb, Hc. simpl. left.
Qed.

(** The scan of a cell that holds the king of the side to move is the list
    of [gen_king]. *)
Lemma scan_cell_king (b : Board) (side : Side) (r c : Z) :
  grid b → in_bounds r c = true → cell b r c = king_letter side →
  scan_cell b side r c [] = gen_king b r c side.
Proof.
  intros Hg Hb Hk. unfold scan_cell. rewrite getitem2_grid, Hk, bind_Ok_l by done.
  destruct (gen_king_spec b r c side Hg) as (out & Hout & _).
  destruct side; simpl; rewrite Hout; done.
Qed.

(** ** Having a move *)

Lemma has_moves_false_iff (b : Board) (side : Side) :
  grid b →
  has_moves b side = Ok false ↔
  ∀ r c, in_bounds r c = true → scan_cell b side r c [] = Ok [].
Proof.
  intros Hg. destruct (generate_moves_spec b side Hg) as (all & Hall & Hmem).
  unfold has_moves. rewrite Hall, bind_Ok_l. split.
  - intros [= Hlen] r c Hb.
    assert (all = []) as -> by (destruct all; [done | discriminate Hlen]).
    destruct (scan_cell_spec b side r c Hg Hb) as (ms & Hms & _).
    rewrite Hms. f_equal. apply elem_of_nil_inv. intros m Hm.
    apply (not_elem_of_nil m), Hmem. exists r, c, ms. done.
  - intros Hnone. assert (all = []) as ->; [| done].
    apply elem_of_nil_inv. intros m (r & c & ms & Hb & Hms & Hm)%Hmem.
    rewrite (Hnone r c Hb) in Hms. injection Hms as <-. by apply not_elem_of_nil in Hm.
Qed.

Lemma has_moves_true (b : Board) (side : Side) (r c : Z) (ms : list Move) (m : Move) :
  grid b → in_bounds r c = true → scan_cell b side r c [] = Ok ms → m ∈ ms →
  has_moves b side = Ok true.
Proof.
  intros Hg Hb Hms Hm. destruct (generate_moves_spec b side Hg) as (all & Hall & Hmem).
  unfold has_moves. rewrite Hall, bind_Ok_l.
  assert (m ∈ all) as Hin by (apply Hmem; exists r, c, ms; done).
  destruct all; [by apply not_elem_of_nil in Hin | done].
Qed.

(** C4, as the code has it.  On a well-formed board, a king of the queried
    side all of whose neighbouring cells on the board hold friendly pieces
    generates no move itself, so [has_moves] is false exactly when no other
    cell generates a move for that side; and [has_moves] is true as soon as
    one of the neighbouring cells is vacated. *)
Theorem has_moves_enclosed_king (b : Board) (side : Side) (r c : Z) :
  wf_board b → in_bounds r c = true →
  getitem2 b r c = Ok (king_letter side) →
  surrounded b side r c = true →
  gen_king b r c side = Ok [] ∧
  (has_moves b side = Ok false ↔
   ∀ r' c', in_bounds r' c' = true → (r', c') ≠ (r, c) →
            scan_cell b side r' c' [] = Ok []) ∧
  (∀ dr dc, (dr, dc) ∈ neighbours → in_bounds (r + dr) (c + dc) = true →
     ∃ b', setitem2 b (r + dr) (c + dc) "."%char = Ok b' ∧ has_moves b' side = Ok true).
Proof.
  intros Hwf Hb Hk Hs. pose proof (wf_board_grid b Hwf) as Hg.
  rewrite getitem2_grid in Hk by done. injection Hk as Hk.
  pose proof (gen_king_surrounded b side r c Hg Hs) as Hking.
  split_and!; [done | |].
  - rewrite has_moves_false_iff by done. split.
    + intros Hall r' c' Hb' _. by apply Hall.
    + intros Hothers r' c' Hb'.
      destruct (decide ((r', c') = (r, c))) as [[= -> ->] | Hne]; [| by apply Hothers].
      by rewrite scan_cell_king.
  - intros dr dc Hn Hb'. exists (set_cell b (r + dr) (c + dc) ".").
    split; [by apply setitem2_grid |].
    pose proof (set_cell_grid b (r + dr) (c + dc) "." Hg) as Hg'.
    assert ((r + dr, c + dc) ≠ (r, c)) as Hne.
    { apply neighbours_spec in Hn as (_ & _ & H0). intros [= Hr Hc].
      assert (dr = 0) as -> by lia. assert (dc = 0) as -> by lia. done. }
    destruct (gen_king_empty_neighbour (set_cell b (r + dr) (c + dc) ".") side r c dr dc)
      as (out & Hout & Hin); [done | done | done | by apply cell_set_cell_eq |].
    apply (has_moves_true _ side r c out (r, c, r + dr, c + dc) Hg' Hb); [| done].
    rewrite scan_cell_king; [done | done | done |].
    by rewrite cell_set_cell_ne.
Qed.

Lemma has_moves_enclosed_king_witness :
  gen_king king_block_corner 1 1 White = Ok [] ∧
  ∃ b', setitem2 king_block_corner 0 2 "."%char = Ok b' ∧ has_moves b' White = Ok true.
Proof.
  destruct (has_moves_enclosed_king king_block_corner White 1 1) as (H1 & _ & H3);
    [reflexivity | reflexivity | reflexivity | reflexivity |].
  split; [exact H1 |].
  apply (H3 (-1) 1); [| reflexivity].
  unfold neighbours. rewrite !elem_of_cons. tauto.
Defined.

(** The corner position has no move at all, the centre position has. *)
Example has_moves_king_block_corner : has_moves king_block_corner White = Ok false.
Proof. vm_compute. reflexivity. Qed.

(** C4 as stated fails: a board that holds nothing but a White king on
    (4,4) and eight White pawns on its eight neighbours, where White has a
    move all the same (the pawns of the upper row can advance). *)
Lemma has_moves_enclosed_king_counterexample :
  wf_board king_block_centre ∧
  getitem2 king_block_centre 4 4 = Ok "K"%char ∧
  surrounded king_block_centre White 4 4 = true ∧
  count_nonempty king_block_centre = 9%nat ∧
  has_moves king_block_centre White = Ok true ∧
  has_moves king_block_centre White ≠ Ok false.
Proof. vm_compute. split_and!; try reflexivity. discriminate. Qed.

(** ** The functions on the store *)

Lemma run_bind_lift {A B : Type} (m : Heap.M A) (x : result A)
    (f : A → Heap.M B) (g : A → result B) (h : gmap nat Heap.obj) :
  m h = (x, h) → (∀ a, x = Ok a → f a h = (g a, h)) →
  (m ≫= f) h = (x ≫= g, h).
Proof.
  intros Hm Hf. unfold mbind at 1, Heap.M_bind. rewrite Hm.
  destruct x as [a|e]; [by apply Hf | done].
Qed.

Lemma run_bind {A B : Type} (m : Heap.M A) (f : A → Heap.M B)
    (h h' : gmap nat Heap.obj) (a : A) :
  m h = (Ok a, h') → (m ≫= f) h = f a h'.
Proof. intros Hm. unfold mbind, Heap.M_bind. by rewrite Hm. Qed.

Lemma run_bind_raise {A B : Type} (m : Heap.M A) (f : A → Heap.M B)
    (h h' : gmap nat Heap.obj) (e : exn) :
  m h = (Raise e, h') → (m ≫= f) h = (Raise e, h').
Proof. intros Hm. unfold mbind, Heap.M_bind. by rewrite Hm. Qed.

(** A loop that only reads the store is the loop on the board value. *)
Lemma for_each_lift {X S : Type} (xs : list X) (body_h : X → S → Heap.M S)
    (body : X → S → result S) (h : gmap nat Heap.obj) :
  (∀ x s, body_h x s h = (body x s, h)) →
  ∀ s, Heap.for_each xs body_h s h = (for_each xs body s, h).
Proof.
  intros Hbody. induction xs as [|x xs IH]; intros s; simpl; [done |].
  apply run_bind_lift; [apply Hbody | intros s' _; apply IH].
Qed.

(** Indexing two lists that are related item by item. *)
Lemma getitem_Forall2 {A B : Type} (R : A → B → Prop) (xs : list A) (ys : list B) (i : Z) :
  Forall2 R xs ys →
  match getitem xs i, getitem ys i with
  | Ok x, Ok y => R x y
  | Raise e, Raise e' => e = e'
  | _, _ => False
  end.
Proof.
  intros HR. unfold getitem. rewrite (Forall2_length _ _ _ HR).
  destruct (py_index (length ys) i) as [n|e]; simpl; [| done].
  destruct (xs !! n) as [x|] eqn:Ex.
  - by destruct (Forall2_lookup_l _ _ _ _ _ HR Ex) as (y & -> & Hxy).
  - assert (ys !! n = None) as ->; [| done].
    apply lookup_ge_None. apply lookup_ge_None in Ex.
    by rewrite <- (Forall2_length _ _ _ HR).
Qed.

Section reading.
Context (h : gmap nat Heap.obj) (l : Heap.loc) (b : Board).
Hypothesis Hrep : Heap.represents h l b.

Lemma getitem2_lift (r c : Z) : Heap.getitem2 l r c h = (getitem2 b r c, h).
Proof.
  destruct Hrep as (rows & Hl & Hrows).
  unfold Heap.getitem2, getitem2.
  unfold mbind at 1, Heap.M_bind, Heap.get_board. rewrite Hl.
  unfold mbind at 1, Heap.M_bind, Heap.lift.
  pose proof (getitem_Forall2 _ rows b r Hrows) as Hr.
  destruct (getitem rows r) as [row|e], (getitem b r) as [cells|e']; try done.
  - simpl. unfold mbind at 1, Heap.M_bind, Heap.get_row. by rewrite Hr.
  - by subst.
Qed.

(** Reads the body of a loop or of a generator, statement by statement,
    against the same statements on the board value. *)
Ltac lifting :=
  cbv zeta;
  lazymatch goal with
  | |- (mbind _ _) _ = (mbind _ _, _) =>
      apply run_bind_lift; [lifting | intros ? _; lifting]
  | |- (if ?c then _ else _) _ = (if ?c then _ else _, _) =>
      destruct c; lifting
  | |- Heap.getitem2 _ _ _ _ = _ => apply getitem2_lift
  | |- Heap.for_each _ _ _ _ = _ =>
      apply for_each_lift; intros ? ?; lifting
  | |- (let '(_, _) := ?d in _) _ _ = _ => destruct d; lifting
  | |- (let '(_, _) := ?d in _) _ = _ => destruct d; lifting
  | _ => first [reflexivity | solve [auto]]
  end.

Lemma gen_pawn_lift (r c : Z) (side : Side) :
  Heap.gen_pawn l r c side h = (gen_pawn b r c side, h).
Proof. unfold Heap.gen_pawn, gen_pawn. lifting. Qed.

Lemma gen_knight_lift (r c : Z) (side : Side) :
  Heap.gen_knight l r c side h = (gen_knight b r c side, h).
Proof. unfold Heap.gen_knight, gen_knight. lifting. Qed.

Lemma gen_king_lift (r c : Z) (side : Side) :
  Heap.gen_king l r c side h = (gen_king b r c side, h).
Proof. unfold Heap.gen_king, gen_king. lifting. Qed.

Lemma slide_ray_lift (r c : Z) (side : Side) (dr dc : Z) (fuel : nat) :
  ∀ rr cc moves,
    Heap.slide_ray fuel l r c side dr dc rr cc moves h
    = (slide_ray fuel b r c side dr dc rr cc moves, h).
Proof.
  induction fuel as [|fuel IH]; intros rr cc moves; simpl; [done |].
  lifting.
Qed.

Lemma slide_moves_lift (r c : Z) (side : Side) (directions : list (Z * Z)) :
  Heap.slide_moves l r c side directions h = (slide_moves b r c side directions, h).
Proof.
  unfold Heap.slide_moves, slide_moves. apply for_each_lift.
  intros [dr dc] moves. apply slide_ray_lift.
Qed.

Lemma scan_cell_lift (side : Side) (r c : Z) (moves : list Move) :
  Heap.scan_cell l side r c moves h = (scan_cell b side r c moves, h).
Proof.
  pose proof gen_pawn_lift. pose proof gen_knight_lift. pose proof gen_king_lift.
  pose proof slide_moves_lift.
  unfold Heap.scan_cell, scan_cell, Heap.gen_bishop, Heap.gen_rook, Heap.gen_queen,
    gen_bishop, gen_rook, gen_queen.
  lifting.
Qed.

(** [generate_moves] on the store returns what [generate_moves] returns on
    the board value, and leaves the store as it was. *)
Lemma generate_moves_lift (side : Side) :
  Heap.generate_moves l side h = (generate_moves b side, h).
Proof.
  unfold Heap.generate_moves, generate_moves. apply for_each_lift.
  intros r moves. apply for_each_lift. intros c moves'. apply scan_cell_lift.
Qed.

End reading.

(** ** Copy-on-apply *)

Lemma represents_weaken (h h' : gmap nat Heap.obj) (l : Heap.loc) (b : Board) :
  h ⊆ h' → Heap.represents h l b → Heap.represents h' l b.
Proof.
  intros Hsub (rows & Hl & Hrows). exists rows. split.
  - exact (lookup_weaken _ _ _ _ Hl Hsub).
  - eapply Forall2_impl; [exact Hrows |]. intros row cells Hrow.
    exact (lookup_weaken _ _ _ _ Hrow Hsub).
Qed.

Lemma alloc_fresh (o : Heap.obj) (h : gmap nat Heap.obj) :
  ∃ l, Heap.alloc o h = (Ok l, <[l := o]> h) ∧ h !! l = None.
Proof.
  exists (fresh (dom h)). split; [done |].
  apply not_elem_of_dom. apply is_fresh.
Qed.

(** The loop of the list comprehension: every row is copied into an object
    that did not exist, and nothing that existed is written. *)
Lemma copy_loop (rows : list Heap.loc) (b : Board) :
  ∀ (h1 : gmap nat Heap.obj) (acc : list Heap.loc),
    Forall2 (λ row cells, h1 !! row = Some (Heap.ORow cells)) rows b →
    ∃ copies h2,
      Heap.for_each rows (λ row copies, l ← Heap.copy row; mret (copies ++ [l])) acc h1
      = (Ok (acc ++ copies), h2) ∧
      h1 ⊆ h2 ∧
      Forall2 (λ row cells, h2 !! row = Some (Heap.ORow cells)) copies b ∧
      Forall (λ row, h1 !! row = None) copies ∧
      NoDup copies.
Proof.
  revert b. induction rows as [|row rows IH]; intros b h1 acc Hrows.
  - apply Forall2_nil_inv_l in Hrows as ->. exists [], h1.
    rewrite app_nil_r. split_and!; [done | done | constructor | constructor | constructor].
  - apply Forall2_cons_inv_l in Hrows as (cells & b' & Hrow & Hrows & ->).
    destruct (alloc_fresh (Heap.ORow cells) h1) as (l0 & Hal & Hl0).
    pose (h1' := <[l0 := Heap.ORow cells]> h1).
    assert (h1 ⊆ h1') as Hsub by (apply insert_subseteq, Hl0).
    destruct (IH b' h1' (acc ++ [l0])) as (copies & h2 & Hloop & Hsub2 & Hcopies & Hnew & Hnd).
    { eapply Forall2_impl; [exact Hrows |]. intros ?? H.
      exact (lookup_weaken _ _ _ _ H Hsub). }
    exists (l0 :: copies), h2. split_and!.
    + assert (Heap.copy row h1 = (Ok l0, h1')) as Hcopy.
      { unfold Heap.copy. erewrite run_bind; [exact Hal |].
        unfold Heap.get_row. by rewrite Hrow. }
      simpl. erewrite run_bind; [| erewrite run_bind; [| exact Hcopy]; reflexivity].
      rewrite Hloop. by rewrite <- app_assoc.
    + by etrans.
    + constructor; [| done]. eapply lookup_weaken; [| exact Hsub2].
      unfold h1'. by rewrite lookup_insert_eq.
    + constructor; [done |]. eapply Forall_impl; [exact Hnew |].
      intros row' Hr. simpl in Hr. exact (lookup_weaken_None _ _ _ Hr Hsub).
    + constructor; [| done]. intros Hin.
      rewrite Forall_forall in Hnew. specialize (Hnew _ Hin).
      unfold h1' in Hnew. by rewrite lookup_insert_eq in Hnew.
Qed.

Lemma copy_rows_spec (h : gmap nat Heap.obj) (l : Heap.loc) (b : Board) :
  Heap.represents h l b →
  ∃ nb h', Heap.copy_rows l h = (Ok nb, h') ∧ Heap.working h h' nb b.
Proof.
  intros (rows & Hl & Hrows).
  destruct (copy_loop rows b h [] Hrows) as (copies & h2 & Hloop & Hsub & Hcopies & Hnew & Hnd).
  destruct (alloc_fresh (Heap.OBoard copies) h2) as (nb & Hal & Hnb).
  exists nb, (<[nb := Heap.OBoard copies]> h2). split.
  - unfold Heap.copy_rows.
    erewrite run_bind; [| unfold Heap.get_board; by rewrite Hl].
    erewrite run_bind; [| exact Hloop]. apply Hal.
  - assert (h2 ⊆ <[nb := Heap.OBoard copies]> h2) as Hsub2 by (by apply insert_subseteq).
    split_and!.
    + by etrans.
    + split; [exact (lookup_weaken_None _ _ _ Hnb Hsub) |].
      exists copies. split_and!; [by rewrite lookup_insert_eq | done | done].
    + exists copies. split; [by rewrite lookup_insert_eq |].
      eapply Forall2_impl; [exact Hcopies |]. intros ?? H.
      exact (lookup_weaken _ _ _ _ H Hsub2).
Qed.

Lemma getitem_Ok_lookup {A : Type} (xs : list A) (i : Z) (x : A) :
  getitem xs i = Ok x →
  ∃ n, py_index (length xs) i = Ok n ∧ xs !! n = Some x.
Proof.
  unfold getitem. destruct (py_index (length xs) i) as [n|e]; simpl; [| done].
  destruct (xs !! n) as [y|] eqn:E; [| done]. intros [= ->]. eauto.
Qed.

(** [new_b[r][c] = x] on a board made by [apply_move]: it writes into a row
    that the caller's store did not have. *)
Lemma setitem2_working (h0 h : gmap nat Heap.obj) (nb : Heap.loc) (b' : Board)
    (r c : Z) (x : Cell) :
  Heap.working h0 h nb b' →
  ∃ h', Heap.setitem2 nb r c x h = (void (setitem2 b' r c x), h') ∧
        match setitem2 b' r c x with
        | Ok b'' => Heap.working h0 h' nb b''
        | Raise _ => Heap.working h0 h' nb b'
        end.
Proof.
  intros Hw. pose proof Hw as (Hsub & (Hnb0 & rows & Hnb & Hnd & Hfresh) & (rows' & Hnb' & Hrows)).
  assert (rows' = rows) as -> by congruence.
  assert (Heap.get_board nb h = (Ok rows, h)) as Hget.
  { unfold Heap.get_board. by rewrite Hnb. }
  unfold Heap.setitem2, setitem2. erewrite run_bind; [| exact Hget].
  pose proof (getitem_Forall2 _ rows b' r Hrows) as Hr.
  destruct (getitem rows r) as [row|e] eqn:Erow, (getitem b' r) as [cells|e'] eqn:Ecells;
    try done.
  2:{ subst e'. exists h. split; [| done]. by erewrite run_bind_raise. }
  erewrite run_bind; [| reflexivity].
  erewrite run_bind; [| unfold Heap.get_row; by rewrite Hr].
  rewrite bind_Ok_l.
  destruct (setitem cells c x) as [cells'|e] eqn:Eset.
  2:{ exists h. split; [| done]. by erewrite run_bind_raise. }
  erewrite run_bind; [| reflexivity]. rewrite bind_Ok_l.
  apply getitem_Ok_lookup in Erow as (n & Hn & Hrow).
  apply getitem_Ok_lookup in Ecells as (n' & Hn' & Hcells).
  rewrite (Forall2_length _ _ _ Hrows) in Hn.
  assert (n' = n) as -> by congruence.
  unfold setitem. rewrite Hn'. simpl.
  exists (<[row := Heap.ORow cells']> h). split; [done |].
  assert (h0 !! row = None) as Hrow0.
  { rewrite Forall_forall in Hfresh. eapply Hfresh, list_elem_of_lookup_2, Hrow. }
  assert (row ≠ nb) as Hne by (intros ->; congruence).
  split_and!.
  - by apply insert_subseteq_r.
  - split; [done |]. exists rows. by rewrite lookup_insert_ne.
  - exists rows. split; [by rewrite lookup_insert_ne |].
    apply Forall2_same_length_lookup_2.
    { rewrite length_insert. by eapply Forall2_length. }
    intros i row' cs Hrow' Hcs.
    destruct (decide (i = n)) as [-> | Hin].
    + assert (row' = row) as -> by congruence.
      rewrite list_lookup_insert_eq in Hcs by (by eapply lookup_lt_Some).
      injection Hcs as <-. by rewrite lookup_insert_eq.
    + rewrite list_lookup_insert_ne in Hcs by done.
      assert (row' ≠ row) as Hne'.
      { intros ->. apply Hin. exact (NoDup_lookup _ _ _ _ Hnd Hrow' Hrow). }
      rewrite lookup_insert_ne by done.
      exact (Forall2_lookup_lr _ _ _ _ _ _ Hrows Hrow' Hcs).
Qed.

(** [apply_move] on the store against [apply_move] on the board value. *)
Lemma apply_move_store (h : gmap nat Heap.obj) (l : Heap.loc) (b : Board) (m : Move) :
  Heap.represents h l b →
  ∃ res h', Heap.apply_move l m h = (res, h') ∧ h ⊆ h' ∧
    match apply_move b m with
    | Ok b' => ∃ nb, res = Ok nb ∧ Heap.fresh_board h h' nb ∧ Heap.represents h' nb b'
    | Raise e => res = Raise e
    end.
Proof.
  intros Hrep. destruct m as [[[r1 c1] r2] c2]. unfold Heap.apply_move, apply_move.
  pose proof (getitem2_lift h l b Hrep r1 c1) as Hpiece.
  destruct (getitem2 b r1 c1) as [piece|e].
  2:{ exists (Raise e), h. by erewrite run_bind_raise. }
  erewrite run_bind; [| exact Hpiece]. rewrite bind_Ok_l.
  destruct (copy_rows_spec h l b Hrep) as (nb & h1 & Hcopy & Hw1).
  erewrite run_bind; [| exact Hcopy].
  (* new_b[r1][c1] = '.' *)
  destruct (setitem2_working h h1 nb b r1 c1 "." Hw1) as (h2 & Hs2 & Hw2).
  destruct (setitem2 b r1 c1 ".") as [b2|e].
  2:{ exists (Raise e), h2. split_and!; [by erewrite run_bind_raise | apply Hw2 | done]. }
  erewrite run_bind; [| exact Hs2]. rewrite bind_Ok_l.
  (* new_b[r2][c2] = piece *)
  destruct (setitem2_working h h2 nb b2 r2 c2 piece Hw2) as (h3 & Hs3 & Hw3).
  destruct (setitem2 b2 r2 c2 piece) as [b3|e].
  2:{ exists (Raise e), h3. split_and!; [by erewrite run_bind_raise | apply Hw3 | done]. }
  erewrite run_bind; [| exact Hs3]. rewrite bind_Ok_l.
  (* the two promotions *)
  assert (∃ h4, (if Ascii.eqb piece "P" && (r2 =? 0)
                 then Heap.setitem2 nb r2 c2 "Q"%char else mret tt) h3
                = (void (if Ascii.eqb piece "P" && (r2 =? 0)
                         then setitem2 b3 r2 c2 "Q"%char else Ok b3), h4) ∧
                match (if Ascii.eqb piece "P" && (r2 =? 0)
                       then setitem2 b3 r2 c2 "Q"%char else Ok b3) with
                | Ok b4 => Heap.working h h4 nb b4
                | Raise _ => Heap.working h h4 nb b3
                end) as (h4 & Hs4 & Hw4).
  { destruct (Ascii.eqb piece "P" && (r2 =? 0)).
    - apply setitem2_working, Hw3.
    - exists h3. done. }
  destruct (if Ascii.eqb piece "P" && (r2 =? 0)
            then setitem2 b3 r2 c2 "Q"%char else Ok b3) as [b4|e].
  2:{ exists (Raise e), h4. split_and!; [by erewrite run_bind_raise | apply Hw4 | done]. }
  erewrite run_bind; [| exact Hs4]. rewrite bind_Ok_l.
  assert (∃ h5, (if Ascii.eqb piece "p" && (r2 =? ROWS - 1)
                 then Heap.setitem2 nb r2 c2 "q"%char else mret tt) h4
                = (void (if Ascii.eqb piece "p" && (r2 =? ROWS - 1)
                         then setitem2 b4 r2 c2 "q"%char else Ok b4), h5) ∧
                match (if Ascii.eqb piece "p" && (r2 =? ROWS - 1)
                       then setitem2 b4 r2 c2 "q"%char else Ok b4) with
                | Ok b5 => Heap.working h h5 nb b5
                | Raise _ => Heap.working h h5 nb b4
                end) as (h5 & Hs5 & Hw5).
  { destruct (Ascii.eqb piece "p" && (r2 =? ROWS - 1)).
    - apply setitem2_working, Hw4.
    - exists h4. done. }
  destruct (if Ascii.eqb piece "p" && (r2 =? ROWS - 1)
            then setitem2 b4 r2 c2 "q"%char else Ok b4) as [b5|e].
  2:{ exists (Raise e), h5. split_and!; [by erewrite run_bind_raise | apply Hw5 | done]. }
  erewrite run_bind; [| exact Hs5]. rewrite bind_Ok_l.
  exists (Ok nb), h5. destruct Hw5 as (Hsub & Hfresh & Hrep5).
  split_and!; [done | done |]. exists nb. done.
Qed.

(** A move inside the board, from a cell that holds a piece to another
    cell, changes the value of the board: the origin is empty afterwards. *)
Lemma apply_move_changes_value (b : Board) (r1 c1 r2 c2 : Z) (x : Cell) :
  grid b → in_bounds r1 c1 = true → in_bounds r2 c2 = true →
  cell b r1 c1 ≠ "."%char → (r1, c1) ≠ (r2, c2) →
  set_cell (set_cell b r1 c1 ".") r2 c2 x ≠ b.
Proof.
  intros Hg H1 H2 Hp Hne Heq. apply Hp. rewrite <- Heq at 1.
  rewrite cell_set_cell_ne by (done || congruence).
  by apply cell_set_cell_eq.
Qed.

(** C9.  Neither function writes into the board it is given.  For a board
    object [l] that holds the board value [b]: [generate_moves] leaves the
    whole store as it was; [apply_move], also when it raises, leaves every
    object of the store as it was, so that [l] still holds [b]; it returns
    a board exactly when [apply_move] on the value [b] does, which it does
    for every move inside an 8x8 board; and the board it returns is a new
    object, different from [l], whose rows are new objects too, and which
    holds the board value that [apply_move] computes from [b].  That value
    differs from [b] whenever the origin holds a piece and is not the
    destination. *)
Theorem no_mutation (h : gmap nat Heap.obj) (l : Heap.loc) (b : Board)
    (side : Side) (r1 c1 r2 c2 : Z) :
  Heap.represents h l b →
  Heap.generate_moves l side h = (generate_moves b side, h) ∧
  ∃ res h', Heap.apply_move l (r1, c1, r2, c2) h = (res, h') ∧
    h ⊆ h' ∧ Heap.represents h' l b ∧
    match apply_move b (r1, c1, r2, c2) with
    | Ok b' => ∃ nb, res = Ok nb ∧ nb ≠ l ∧ Heap.fresh_board h h' nb ∧
                     Heap.represents h' nb b'
    | Raise e => res = Raise e
    end ∧
    (grid b → in_bounds r1 c1 = true → in_bounds r2 c2 = true →
     ∃ nb b', res = Ok nb ∧ apply_move b (r1, c1, r2, c2) = Ok b' ∧
       nb ≠ l ∧ Heap.fresh_board h h' nb ∧ Heap.represents h' nb b' ∧
       ∀ p, getitem2 b r1 c1 = Ok p → p ≠ "."%char → (r1, c1) ≠ (r2, c2) → b' ≠ b).
Proof.
  intros Hrep. split; [by apply generate_moves_lift |].
  destruct (apply_move_store h l b (r1, c1, r2, c2) Hrep)
    as (res & h' & Hrun & Hsub & Hres).
  assert (match apply_move b (r1, c1, r2, c2) with
          | Ok b' => ∃ nb, res = Ok nb ∧ nb ≠ l ∧ Heap.fresh_board h h' nb ∧
                           Heap.represents h' nb b'
          | Raise e => res = Raise e
          end) as Hboth.
  { destruct (apply_move b (r1, c1, r2, c2)) as [b'|e]; [| done].
    destruct Hres as (nb & -> & Hfresh & Hrep').
    exists nb. split_and!; [done | | done | done].
    intros ->. destruct Hfresh as [Hnone _], Hrep as (rows & Hl & _). congruence. }
  exists res, h'. split_and!; [done | done | by eapply represents_weaken | done |].
  intros Hg H1 H2. rewrite (apply_move_grid b r1 c1 r2 c2 Hg H1 H2) in Hboth.
  destruct Hboth as (nb & -> & Hne & Hfresh & Hrep').
  exists nb. eexists.
  split_and!; [done | by apply apply_move_grid | done | done | done |].
  intros p Hp Hpiece Hmove. rewrite getitem2_grid in Hp by done.
  injection Hp as <-. by apply apply_move_changes_value.
Qed.

(** ** The initial position *)

Example new_board_wf : wf_board new_board.
Proof. reflexivity. Qed.

(** C2.  On the initial board [generate_moves] returns 20 moves for White:
    8 single pawn pushes, 8 double pawn pushes and 4 knight moves; and 20
    moves for Black, split in the same way. *)
Theorem initial_position_moves :
  ∃ mw mb,
    generate_moves new_board White = Ok mw ∧
    generate_moves new_board Black = Ok mb ∧
    (length mw = 20 ∧
     length (List.filter (λ m, moves_kind new_board "p" m && pushes 1 m) mw) = 8 ∧
     length (List.filter (λ m, moves_kind new_board "p" m && pushes 2 m) mw) = 8 ∧
     length (List.filter (moves_kind new_board "n") mw) = 4)%nat ∧
    (length mb = 20 ∧
     length (List.filter (λ m, moves_kind new_board "p" m && pushes 1 m) mb) = 8 ∧
     length (List.filter (λ m, moves_kind new_board "p" m && pushes 2 m) mb) = 8 ∧
     length (List.filter (moves_kind new_board "n") mb) = 4)%nat.
Proof.
  eexists _, _. split; [vm_compute; reflexivity |].
  split; [vm_compute; reflexivity |].
  vm_compute. repeat split.
Qed.

(** The position after White's move from (6,4) to (4,4), and what Black
    can do in it. *)
Lemma after_pawn_move :
  ∃ b mb, apply_move new_board (6, 4, 4, 4) = Ok b ∧
          generate_moves b Black = Ok mb ∧
          forallb (λ m, negb (bool_decide (origin m = (0, 5)))) mb = true.
Proof.
  eexists _, _. split; [vm_compute; reflexivity |].
  split; [vm_compute; reflexivity |]. vm_compute. reflexivity.
Qed.

(** C1 as stated fails: after the move from (6,4) to (4,4) no move of Black
    starts on (0,5). *)
Lemma black_bishop_still_blocked :
  ¬ ∃ b mb m, apply_move new_board (6, 4, 4, 4) = Ok b ∧
              generate_moves b Black = Ok mb ∧
              m ∈ mb ∧ origin m = (0, 5).
Proof.
  intros (b & mb & m & Hb & Hmb & Hm & Ho).
  destruct after_pawn_move as (b' & mb' & Hb' & Hmb' & Hall).
  assert (b' = b) as -> by congruence. assert (mb' = mb) as -> by congruence.
  rewrite forallb_forall in Hall. apply list_elem_of_In in Hm.
  specialize (Hall m Hm). apply negb_true_iff, bool_decide_eq_false in Hall. done.
Qed.

(** C1, as the code has it.  After White's move from (6,4) to (4,4) the
    Black bishop on (0,5) is still shut in by the Black pawns on (1,4) and
    (1,6), and Black has no move from (0,5); the diagonal that the move
    opened is that of the White bishop on (7,5), and White has a move from
    (7,5). *)
Theorem after_pawn_move_bishops :
  ∃ b mb mw,
    apply_move new_board (6, 4, 4, 4) = Ok b ∧
    generate_moves b Black = Ok mb ∧
    generate_moves b White = Ok mw ∧
    getitem2 b 0 5 = Ok "b"%char ∧
    getitem2 b 1 4 = Ok "p"%char ∧ getitem2 b 1 6 = Ok "p"%char ∧
    (∀ m, m ∈ mb → origin m ≠ (0, 5)) ∧
    getitem2 b 7 5 = Ok "B"%char ∧
    (∃ m, m ∈ mw ∧ origin m = (7, 5)).
Proof.
  destruct after_pawn_move as (b & mb & Hb & Hmb & Hall).
  exists b, mb. eexists.
  vm_compute in Hb. injection Hb as <-.
  split_and!; try (vm_compute; reflexivity); [done | |].
  - intros m Hm. rewrite forallb_forall in Hall. apply list_elem_of_In in Hm.
    specialize (Hall m Hm). by apply negb_true_iff, bool_decide_eq_false in Hall.
  - exists (7, 5, 6, 4). split; [| done].
    do 22 apply list_elem_of_further. left.
Qed.

(** ** The claims at concrete positions *)

Lemma generate_moves_sound_witness :
  wf_board new_board ∧
  ∃ moves, generate_moves new_board White = Ok moves ∧
    ∀ r1 c1 r2 c2, (r1, c1, r2, c2) ∈ moves →
      in_bounds r1 c1 = true ∧ in_bounds r2 c2 = true ∧
      ∃ t, getitem2 new_board r2 c2 = Ok t ∧
           (t = "."%char ∨ side_of t = Some (opposite White)) ∧
           side_of t ≠ Some White.
Proof.
  split; [reflexivity |].
  apply (generate_moves_sound new_board White). reflexivity.
Defined.

Lemma ai_choose_move_contract_witness :
  wf_board new_board ∧
  ∃ moves res, generate_moves new_board Black = Ok moves ∧
    ai_choose_move 3 new_board Black = Ok res ∧
    (res = None ↔ moves = []) ∧
    (∀ m, res = Some m → m ∈ moves).
Proof.
  split; [reflexivity |].
  apply (ai_choose_move_contract 3 new_board Black). reflexivity.
Defined.

Lemma ai_choose_move_greedy_witness :
  wf_board rook_choice ∧
  ∃ m, ai_choose_move 0 rook_choice Black = Ok (Some m) ∧ score_of rook_choice m = Ok 9.
Proof.
  split; [reflexivity |].
  destruct (ai_choose_move_greedy 0 rook_choice Black
              (match generate_moves rook_choice Black with Ok ms => ms | Raise _ => [] end))
    as (m & v & Hm & _ & Hv & _ & Hq);
    [reflexivity | vm_compute; reflexivity | vm_compute; discriminate |].
  exists m. split; [exact Hm |]. rewrite Hv. f_equal. apply Hq.
  exists 0, 0, 0, 3, "Q"%char. split_and!; [| reflexivity | by left].
  apply list_elem_of_In. vm_compute. do 5 right. left. reflexivity.
Defined.

Lemma apply_move_promotion_witness :
  grid pawn_on_seventh ∧ getitem2 pawn_on_seventh 1 0 = Ok "P"%char ∧
  ∃ b', apply_move pawn_on_seventh (1, 0, 0, 0) = Ok b' ∧
        getitem2 b' 0 0 = Ok "Q"%char.
Proof.
  split; [reflexivity |]. split; [reflexivity |].
  destruct (apply_move_promotion pawn_on_seventh 1 0 0 0 "P")
    as (b' & Hb' & HQ & _); [reflexivity | reflexivity | reflexivity | reflexivity |].
  exists b'. split; [exact Hb' | by apply HQ].
Defined.

Lemma apply_move_population_witness :
  grid pawn_on_seventh ∧
  ∃ b', apply_move pawn_on_seventh (1, 0, 0, 1) = Ok b' ∧
        S (count_nonempty b') = count_nonempty pawn_on_seventh.
Proof.
  split; [reflexivity |].
  destruct (apply_move_population pawn_on_seventh 1 0 0 1 "P" "r")
    as (b' & Hb' & _ & _ & Hcap);
    [reflexivity | reflexivity | reflexivity | reflexivity | discriminate
    | reflexivity | discriminate |].
  exists b'. split; [exact Hb' | apply Hcap; discriminate].
Defined.

Lemma apply_move_empty_origin_witness :
  grid new_board ∧ getitem2 new_board 4 4 = Ok "."%char ∧
  getitem2 new_board 0 0 = Ok "r"%char ∧
  ∃ b', apply_move new_board (4, 4, 0, 0) = Ok b' ∧
        getitem2 b' 4 4 = Ok "."%char ∧ getitem2 b' 0 0 = Ok "."%char.
Proof.
  split_and!; [reflexivity | reflexivity | reflexivity |].
  destruct (apply_move_empty_origin new_board 4 4 0 0) as (b' & Hb' & Hempty);
    [reflexivity | reflexivity | reflexivity |].
  exists b'. split; [exact Hb' | apply Hempty; reflexivity].
Defined.

Example new_board_stored : (Heap.new_board ∅).1 = Ok 8%nat.
Proof. vm_compute. reflexivity. Qed.

Example initial_store_board : Heap.represents initial_store 8%nat new_board.
Proof.
  exists (seq 0 8). split; [vm_compute; reflexivity |].
  repeat constructor; vm_compute; reflexivity.
Qed.

Lemma no_mutation_witness :
  Heap.represents initial_store 8%nat new_board ∧
  Heap.generate_moves 8%nat Black initial_store
  = (generate_moves new_board Black, initial_store) ∧
  ∃ nb h' b', Heap.apply_move 8%nat (6, 4, 4, 4) initial_store = (Ok nb, h') ∧
    apply_move new_board (6, 4, 4, 4) = Ok b' ∧
    initial_store ⊆ h' ∧ Heap.represents h' 8%nat new_board ∧
    nb ≠ 8%nat ∧ Heap.fresh_board initial_store h' nb ∧
    Heap.represents h' nb b' ∧ b' ≠ new_board.
Proof.
  assert (Heap.represents initial_store 8%nat new_board) as Hrep.
  { exists (seq 0 8). split; [vm_compute; reflexivity |].
    repeat constructor; vm_compute; reflexivity. }
  split; [exact Hrep |].
  destruct (no_mutation initial_store 8%nat new_board Black 6 4 4 4 Hrep)
    as (Hgen & res & h' & Hrun & Hsub & Hsame & _ & Hret).
  split; [exact Hgen |].
  destruct Hret as (nb & b' & Hres & Hb' & Hne & Hfresh & Hrep' & Hval);
    [reflexivity | reflexivity | reflexivity |].
  exists nb, h', b'. rewrite <- Hres.
  split_and!; [exact Hrun | exact Hb' | exact Hsub | exact Hsame | exact Hne
              | exact Hfresh | exact Hrep' |].
  apply (Hval "P"%char); [reflexivity | discriminate | discriminate].
Defined.

(** C9, as far as it asks for a returned board value distinct from the
    input: a move whose origin is its destination puts the king back where
    it stood, and the board that [apply_move] returns, a new object, holds
    the value of its input. *)
Lemma apply_move_returns_input_value :
  apply_move new_board (7, 4, 7, 4) = Ok new_board ∧
  ∃ nb h', Heap.apply_move 8%nat (7, 4, 7, 4) initial_store = (Ok nb, h') ∧
    nb ≠ 8%nat ∧ Heap.represents h' nb new_board ∧
    Heap.represents h' 8%nat new_board.
Proof.
  assert (apply_move new_board (7, 4, 7, 4) = Ok new_board) as Hval
    by (vm_compute; reflexivity).
  split; [exact Hval |].
  pose proof initial_store_board as Hrep.
  destruct (apply_move_store initial_store 8%nat new_board (7, 4, 7, 4) Hrep)
    as (res & h' & Hrun & Hsub & Hres).
  rewrite Hval in Hres. destruct Hres as (nb & -> & Hfresh & Hrep').
  exists nb, h'. split_and!; [done | | done | by eapply represents_weaken].
  intros ->. destruct Hfresh as [Hnone _], Hrep as (rows & Hl & _). congruence.
Qed.

(** The board that [apply_move] returns is a new object, but it can hold
    the same board value as its input: moving "nothing" from an empty cell
    to an empty cell. *)
Example apply_move_same_value : apply_move new_board (4, 4, 3, 3) = Ok new_board.
Proof. vm_compute. reflexivity. Qed.

(** On that store [apply_move] returns the object 17, after the eight new
    rows 9 to 16. *)
Example apply_move_stored :
  (Heap.apply_move 8%nat (6, 4, 4, 4) initial_store).1 = Ok 17%nat.
Proof. vm_compute. reflexivity. Qed.

(** Outside the board [apply_move] follows Python's indexing: a row index of
    8 raises, and the row index -8 is row 0, reached without promotion. *)
Example apply_move_out_of_range : apply_move new_board (6, 4, 8, 4) = Raise IndexError.
Proof. vm_compute. reflexivity. Qed.

Example apply_move_negative_row :
  (b ← apply_move new_board (6, 0, -8, 0); getitem2 b 0 0) = Ok "P"%char.
Proof. vm_compute. reflexivity. Qed.

(** * More of the engine and of the window *)

(** ** Clicks *)

(** The pixels of a square. *)
Lemma mouse_to_square_rect (x y r c : Z) :
  mouse_to_square (x, y) = Some (r, c) ↔
  in_bounds r c = true ∧
  c * 80 ≤ x < (c + 1) * 80 ∧ 32 + r * 80 ≤ y < 32 + (r + 1) * 80.
Proof.
  unfold mouse_to_square. change SQ with 80.
  destruct (Z.ltb_spec y 32) as [Hy | Hy].
  - split; [done |]. intros (Hb%in_bounds_spec & _ & Hr). lia.
  - pose proof (Z.div_mod (y - 32) 80 ltac:(lia)) as Hdy.
    pose proof (Z.mod_pos_bound (y - 32) 80 ltac:(lia)) as Hmy.
    pose proof (Z.div_mod x 80 ltac:(lia)) as Hdx.
    pose proof (Z.mod_pos_bound x 80 ltac:(lia)) as Hmx.
    destruct (in_bounds ((y - 32) / 80) (x / 80)) eqn:E; split.
    + intros [= <- <-]. split; [done |]. lia.
    + intros (_ & Hx & Hr). f_equal. f_equal; nia.
    + done.
    + intros (Hb & Hx & Hr).
      assert ((y - 32) / 80 = r) as Hr' by nia.
      assert (x / 80 = c) as Hc' by nia.
      congruence.
Qed.

(** [mouse_to_square] returns the square [(r, c)] exactly for the pixels of
    the 80 by 80 rectangle of that square below the info panel, and [None]
    exactly for the pixels of the panel and beside the board. *)
Theorem mouse_to_square_spec (x y : Z) :
  (∀ r c, mouse_to_square (x, y) = Some (r, c) ↔
          in_bounds r c = true ∧
          c * 80 ≤ x < (c + 1) * 80 ∧ 32 + r * 80 ≤ y < 32 + (r + 1) * 80) ∧
  (mouse_to_square (x, y) = None ↔ x < 0 ∨ 640 ≤ x ∨ y < 32 ∨ 672 ≤ y).
Proof.
  split; [intros r c; apply mouse_to_square_rect |].
  destruct (mouse_to_square (x, y)) as [[r c]|] eqn:E.
  - apply mouse_to_square_rect in E as (Hb%in_bounds_spec & Hx & Hy).
    split; [done | lia].
  - split; [| done]. intros _.
    destruct (decide (0 ≤ x < 640 ∧ 32 ≤ y < 672)) as [Hin | Hout]; [| lia].
    exfalso.
    assert (mouse_to_square (x, y) = Some ((y - 32) / 80, x / 80)) as Hsome;
      [| congruence].
    pose proof (Z.div_mod (y - 32) 80 ltac:(lia)) as Hdy.
    pose proof (Z.mod_pos_bound (y - 32) 80 ltac:(lia)) as Hmy.
    pose proof (Z.div_mod x 80 ltac:(lia)) as Hdx.
    pose proof (Z.mod_pos_bound x 80 ltac:(lia)) as Hmx.
    apply mouse_to_square_rect. split; [apply in_bounds_spec |]; lia.
Qed.

(** ** Loops that append, in order *)

(** A loop whose body appends the list [g x] appends the lists of its
    iterations one after the other. *)
Lemma for_each_concat {X A : Type} (xs : list X) (g : X → list A)
    (body : X → list A → result (list A)) :
  (∀ x acc, x ∈ xs → body x acc = Ok (acc ++ g x)) →
  ∀ acc, for_each xs body acc = Ok (acc ++ (xs ≫= g)).
Proof.
  induction xs as [|x xs IH]; intros Hbody acc; cbn [for_each].
  - by rewrite app_nil_r.
  - rewrite Hbody by left. rewrite bind_Ok_l, IH.
    + by rewrite bind_cons, app_assoc.
    + intros y acc' Hy. apply Hbody. by right.
Qed.

(** The rows and the cells of a grid, read through [cell]. *)
Lemma grid_rows (b : Board) :
  grid b → b = (λ r, (λ c, cell b r c) <$> seqZ 0 8) <$> seqZ 0 8.
Proof.
  intros Hg. pose proof Hg as [Hlen Hrows]%grid_spec.
  apply list_eq_same_length with 8%nat; [by rewrite length_fmap, length_seqZ | done |].
  intros i row row' Hi Hrow Hrow'.
  apply list_lookup_fmap_Some in Hrow' as (r & -> & Hr).
  apply lookup_seqZ in Hr as [-> _].
  assert (length row = 8%nat) as Hl by (eapply Hrows, list_elem_of_lookup_2, Hrow).
  apply list_eq_same_length with 8%nat; [by rewrite length_fmap, length_seqZ | done |].
  intros j p p' Hj Hp Hp'.
  apply list_lookup_fmap_Some in Hp' as (c & -> & Hc).
  apply lookup_seqZ in Hc as [-> _]. unfold cell.
  rewrite !Z.add_0_l, !Nat2Z.id, Hrow. simpl. by rewrite Hp.
Qed.

Lemma length_list_bind {A B : Type} (f : A → list B) (l : list A) :
  length (l ≫= f) = sum_list (length ∘ f <$> l).
Proof.
  induction l as [|x l IH]; [done |].
  rewrite bind_cons, length_app, IH. done.
Qed.

(** ** Drawing the pieces *)

Lemma UNICODE_PIECES_valid (p : Cell) :
  valid_cell p = true → p ≠ "."%char → is_Some (UNICODE_PIECES !! p).
Proof.
  intros Hv%valid_cell_cases Hne. unfold pieces in Hv. simpl in Hv.
  rewrite !elem_of_cons, elem_of_nil in Hv.
  destruct Hv as [-> | [-> | [-> | [-> | [-> | [-> | [-> | [-> | [-> | [->
               | [-> | [-> | [-> | []]]]]]]]]]]]]]; try done;
    vm_compute; eauto.
Qed.

Lemma draw_pieces_cells (b : Board) :
  wf_board b →
  draw_pieces b = Ok (seqZ 0 8 ≫= λ r, seqZ 0 8 ≫= λ c, cell_blits b r c).
Proof.
  intros Hwf. pose proof (wf_board_grid b Hwf) as Hg. unfold draw_pieces, ROWS, COLS.
  rewrite (for_each_concat (seqZ 0 8) (λ r, seqZ 0 8 ≫= λ c, cell_blits b r c));
    [done |].
  intros r acc Hr.
  rewrite (for_each_concat (seqZ 0 8) (λ c, cell_blits b r c)); [done |].
  intros c acc' Hc. apply elem_of_seqZ in Hr, Hc.
  assert (in_bounds r c = true) as Hb by (apply in_bounds_spec; lia).
  rewrite getitem2_grid, bind_Ok_l by done. unfold cell_blits.
  destruct (Ascii.eqb_spec (cell b r c) ".") as [He | Hne]; [by rewrite app_nil_r |].
  destruct (UNICODE_PIECES_valid _ (wf_board_cell b r c Hwf Hb) Hne) as [g Hg'].
  unfold UNICODE_PIECES_getitem. rewrite Hg'. done.
Qed.

(** On a well-formed board [draw_pieces] raises nothing and blits one glyph
    for each occupied cell; every glyph is the one [UNICODE_PIECES] gives
    for the piece of a cell, and a click on its centre in the window
    selects that cell. *)
Theorem draw_pieces_spec (b : Board) :
  wf_board b →
  ∃ blits, draw_pieces b = Ok blits ∧
    length blits = count_nonempty b ∧
    (∀ g xy, (g, xy) ∈ blits →
       ∃ r c p, mouse_to_square (on_screen xy) = Some (r, c) ∧
                getitem2 b r c = Ok p ∧ p ≠ "."%char ∧
                UNICODE_PIECES !! p = Some g) ∧
    (∀ r c p, in_bounds r c = true → getitem2 b r c = Ok p → p ≠ "."%char →
       ∃ g, UNICODE_PIECES !! p = Some g ∧ (g, centre r c) ∈ blits).
Proof.
  intros Hwf. pose proof (wf_board_grid b Hwf) as Hg.
  eexists. split; [by apply draw_pieces_cells |]. split_and!.
  - rewrite length_list_bind.
    unfold count_nonempty. rewrite (grid_rows b Hg) at 1. rewrite <- list_fmap_compose.
    f_equal. apply list_fmap_ext. intros _ r Hr%list_elem_of_lookup_2.
    unfold compose. rewrite length_list_bind, <- !list_fmap_compose.
    f_equal. apply list_fmap_ext. intros _ c Hc%list_elem_of_lookup_2. unfold compose.
    apply elem_of_seqZ in Hr, Hc.
    assert (in_bounds r c = true) as Hb by (apply in_bounds_spec; lia).
    unfold cell_blits, occupied.
    destruct (Ascii.eqb_spec (cell b r c) ".") as [He | Hne]; [done |].
    by destruct (UNICODE_PIECES_valid _ (wf_board_cell b r c Hwf Hb) Hne) as [g ->].
  - intros g xy (r & Hin & Hr)%list_elem_of_bind.
    apply list_elem_of_bind in Hin as (c & Hin & Hc).
    apply elem_of_seqZ in Hr, Hc.
    assert (in_bounds r c = true) as Hb by (apply in_bounds_spec; lia).
    unfold cell_blits in Hin.
    destruct (Ascii.eqb_spec (cell b r c) ".") as [He | Hne];
      [by apply not_elem_of_nil in Hin |].
    destruct (UNICODE_PIECES !! cell b r c) as [g'|] eqn:Eg;
      [| by apply not_elem_of_nil in Hin].
    apply list_elem_of_singleton in Hin as [= -> ->].
    exists r, c, (cell b r c). split_and!; [| by apply getitem2_grid | done | done].
    apply mouse_to_square_rect. split; [done |].
    change SQ with 80. change (80 / 2) with 40. lia.
  - intros r c p Hb Hp Hne. rewrite getitem2_grid in Hp by done. injection Hp as <-.
    destruct (UNICODE_PIECES_valid _ (wf_board_cell b r c Hwf Hb) Hne) as [g Hg'].
    exists g. split; [done |]. apply in_bounds_spec in Hb.
    apply list_elem_of_bind. exists r. split; [| apply elem_of_seqZ; lia].
    apply list_elem_of_bind. exists c. split; [| apply elem_of_seqZ; lia].
    unfold cell_blits. apply Ascii.eqb_neq in Hne. rewrite Hne, Hg'. left.
Qed.

Lemma draw_pieces_spec_witness :
  ∃ blits, draw_pieces new_board = Ok blits ∧
    length blits = count_nonempty new_board ∧
    (∀ g xy, (g, xy) ∈ blits →
       ∃ r c p, mouse_to_square (on_screen xy) = Some (r, c) ∧
                getitem2 new_board r c = Ok p ∧ p ≠ "."%char ∧
                UNICODE_PIECES !! p = Some g) ∧
    (∀ r c p, in_bounds r c = true → getitem2 new_board r c = Ok p → p ≠ "."%char →
       ∃ g, UNICODE_PIECES !! p = Some g ∧ (g, centre r c) ∈ blits).
Proof. apply (draw_pieces_spec new_board). reflexivity. Defined.

(** ** Indices outside the board and negative indices *)

Lemma py_index_wrap (i : Z) :
  indexable i → py_index 8 i = Ok (Z.to_nat (wrap i)).
Proof.
  unfold indexable, py_index, wrap. intros Hi.
  destruct (Z.leb_spec 0 i), (Z.ltb_spec i (Z.of_nat 8)), (Z.ltb_spec i 0),
    (Z.leb_spec (- Z.of_nat 8) i); simpl; try lia; done.
Qed.

Lemma py_index_out (i : Z) :
  ¬ indexable i → py_index 8 i = Raise IndexError.
Proof.
  unfold indexable, py_index. intros Hi.
  destruct (Z.leb_spec 0 i), (Z.ltb_spec i (Z.of_nat 8)), (Z.ltb_spec i 0),
    (Z.leb_spec (- Z.of_nat 8) i); simpl; try lia; done.
Qed.

Lemma wrap_in_bounds (r c : Z) :
  indexable r → indexable c → in_bounds (wrap r) (wrap c) = true.
Proof.
  unfold indexable, wrap. intros Hr Hc. apply in_bounds_spec.
  destruct (Z.ltb_spec r 0), (Z.ltb_spec c 0); lia.
Qed.

Lemma wrap_id (i : Z) : 0 ≤ i → wrap i = i.
Proof. unfold wrap. intros Hi. destruct (Z.ltb_spec i 0); [lia | done]. Qed.

Lemma getitem_wrap {A : Type} (l : list A) (i : Z) :
  length l = 8%nat → indexable i → getitem l i = getitem l (wrap i).
Proof.
  intros Hl Hi. unfold getitem. rewrite Hl, py_index_wrap by done.
  rewrite py_index_in_range; [done |]. unfold indexable, wrap in *.
  destruct (Z.ltb_spec i 0); lia.
Qed.

Lemma getitem_out {A : Type} (l : list A) (i : Z) :
  length l = 8%nat → ¬ indexable i → getitem l i = Raise IndexError.
Proof. intros Hl Hi. unfold getitem. by rewrite Hl, py_index_out. Qed.

Lemma setitem_wrap {A : Type} (l : list A) (i : Z) (x : A) :
  length l = 8%nat → indexable i → setitem l i x = setitem l (wrap i) x.
Proof.
  intros Hl Hi. unfold setitem. rewrite Hl, py_index_wrap by done.
  rewrite py_index_in_range; [done |]. unfold indexable, wrap in *.
  destruct (Z.ltb_spec i 0); lia.
Qed.

Lemma setitem_out {A : Type} (l : list A) (i : Z) (x : A) :
  length l = 8%nat → ¬ indexable i → setitem l i x = Raise IndexError.
Proof. intros Hl Hi. unfold setitem. by rewrite Hl, py_index_out. Qed.

(** [board[r][c]] on a grid, for any two integers. *)
Lemma getitem2_any (b : Board) (r c : Z) :
  grid b →
  getitem2 b r c
  = if decide (indexable r ∧ indexable c) then Ok (cell b (wrap r) (wrap c))
    else Raise IndexError.
Proof.
  intros Hg. pose proof Hg as [Hlen Hrows]%grid_spec.
  destruct (decide (indexable r ∧ indexable c)) as [[Hr Hc] | Hout].
  - rewrite <- (getitem2_grid b (wrap r) (wrap c)) by (done || by apply wrap_in_bounds).
    unfold getitem2. rewrite (getitem_wrap b r) by done.
    destruct (getitem b (wrap r)) as [row|e] eqn:E; [| done]. simpl.
    apply getitem_wrap; [| done].
    apply getitem_Ok_lookup in E as (n & _ & Hn).
    eapply Hrows, list_elem_of_lookup_2, Hn.
  - unfold getitem2. destruct (decide (indexable r)) as [Hr | Hr].
    + rewrite (getitem_wrap b r) by done.
      destruct (getitem b (wrap r)) as [row|e] eqn:E.
      * simpl. apply getitem_out; [| tauto].
        apply getitem_Ok_lookup in E as (n & _ & Hn).
        eapply Hrows, list_elem_of_lookup_2, Hn.
      * exfalso. destruct (getitem_in_range b (wrap r)) as (row & _ & Hrow);
          [| congruence].
        rewrite Hlen. unfold indexable, wrap in *. destruct (Z.ltb_spec r 0); lia.
    + by rewrite getitem_out.
Qed.

(** [board[r][c] = x] on a grid, for any two integers. *)
Lemma setitem2_any (b : Board) (r c : Z) (x : Cell) :
  grid b →
  setitem2 b r c x
  = if decide (indexable r ∧ indexable c) then Ok (set_cell b (wrap r) (wrap c) x)
    else Raise IndexError.
Proof.
  intros Hg. pose proof Hg as [Hlen Hrows]%grid_spec.
  destruct (decide (indexable r ∧ indexable c)) as [[Hr Hc] | Hout].
  - rewrite <- (setitem2_grid b (wrap r) (wrap c)) by (done || by apply wrap_in_bounds).
    unfold setitem2. rewrite (getitem_wrap b r) by done.
    destruct (getitem b (wrap r)) as [row|e] eqn:E; [| done]. simpl.
    apply getitem_Ok_lookup in E as (n & _ & Hn).
    assert (length row = 8%nat) as Hl by (eapply Hrows, list_elem_of_lookup_2, Hn).
    rewrite (setitem_wrap row c) by done.
    destruct (setitem row (wrap c) x) as [row'|e]; [| done]. simpl.
    by apply setitem_wrap.
  - unfold setitem2. destruct (decide (indexable r)) as [Hr | Hr].
    + rewrite (getitem_wrap b r) by done.
      destruct (getitem b (wrap r)) as [row|e] eqn:E.
      * simpl. apply getitem_Ok_lookup in E as (n & _ & Hn).
        assert (length row = 8%nat) as Hl by (eapply Hrows, list_elem_of_lookup_2, Hn).
        rewrite setitem_out; [done | done | tauto].
      * exfalso. destruct (getitem_in_range b (wrap r)) as (row & _ & Hrow);
          [| congruence].
        rewrite Hlen. unfold indexable, wrap in *. destruct (Z.ltb_spec r 0); lia.
    + by rewrite getitem_out.
Qed.

(** [apply_move] on a grid accepts exactly the moves whose four coordinates
    are indices of a list of eight items, negative ones counting from the
    end; any other move raises [IndexError].  On an accepted move the board
    returned is a grid, and read with the indices of the move its
    destination holds the piece that was on the origin, promoted only if
    the row index itself is 0 (White pawn) or 7 (Black pawn). *)
Theorem apply_move_indices (b : Board) (r1 c1 r2 c2 : Z) :
  grid b →
  (indexable r1 ∧ indexable c1 ∧ indexable r2 ∧ indexable c2 →
   ∃ p b', getitem2 b r1 c1 = Ok p ∧
           apply_move b (r1, c1, r2, c2) = Ok b' ∧ grid b' ∧
           getitem2 b' r2 c2 = Ok (arrival p r2)) ∧
  (¬ (indexable r1 ∧ indexable c1 ∧ indexable r2 ∧ indexable c2) →
   apply_move b (r1, c1, r2, c2) = Raise IndexError).
Proof.
  intros Hg. unfold apply_move. rewrite getitem2_any by done.
  destruct (decide (indexable r1 ∧ indexable c1)) as [[Hr1 Hc1] | Hout1].
  2:{ split; [tauto | done]. }
  rewrite bind_Ok_l, setitem2_any by done.
  rewrite decide_True by done. rewrite bind_Ok_l.
  pose proof (set_cell_grid b (wrap r1) (wrap c1) "." Hg) as Hg1.
  rewrite setitem2_any by done.
  destruct (decide (indexable r2 ∧ indexable c2)) as [[Hr2 Hc2] | Hout2].
  2:{ split; [tauto | done]. }
  rewrite bind_Ok_l.
  set (p := cell b (wrap r1) (wrap c1)).
  set (b2 := set_cell (set_cell b (wrap r1) (wrap c1) ".") (wrap r2) (wrap c2) p).
  assert (grid b2) as Hg2 by (by apply set_cell_grid).
  split; [| tauto]. intros _. exists p.
  assert (∃ b', (new_b ← (if Ascii.eqb p "P" && (r2 =? 0)
                          then setitem2 b2 r2 c2 "Q"%char else Ok b2);
                 new_b0 ← (if Ascii.eqb p "p" && (r2 =? ROWS - 1)
                           then setitem2 new_b r2 c2 "q"%char else Ok new_b);
                 Ok new_b0) = Ok b' ∧ grid b' ∧
               cell b' (wrap r2) (wrap c2) = arrival p r2) as (b' & -> & Hg' & Hcell).
  { unfold arrival. pose proof (wrap_in_bounds r2 c2 Hr2 Hc2) as Hb2.
    destruct (Ascii.eqb p "P" && (r2 =? 0)) eqn:EP.
    - rewrite setitem2_any, decide_True, bind_Ok_l by done.
      assert (Ascii.eqb p "p" && (r2 =? ROWS - 1) = false) as ->.
      { apply andb_true_iff in EP as [->%Ascii.eqb_eq _]. done. }
      eexists. split_and!; [done | by apply set_cell_grid |].
      by rewrite cell_set_cell_eq.
    - rewrite bind_Ok_l. destruct (Ascii.eqb p "p" && (r2 =? ROWS - 1)) eqn:Ep.
      + rewrite setitem2_any, decide_True, bind_Ok_l by done.
        eexists. split_and!; [done | by apply set_cell_grid |].
        by rewrite cell_set_cell_eq.
      + eexists. split_and!; [done | done |]. unfold b2.
        by rewrite cell_set_cell_eq. }
  exists b'. split_and!; [done | done | done |].
  rewrite getitem2_any, decide_True by done. by rewrite Hcell.
Qed.

Lemma apply_move_indices_witness :
  grid pawn_on_seventh ∧
  ∃ p b', getitem2 pawn_on_seventh 1 0 = Ok p ∧
          apply_move pawn_on_seventh (1, 0, -8, 0) = Ok b' ∧ grid b' ∧
          getitem2 b' (-8) 0 = Ok (arrival p (-8)).
Proof.
  split; [reflexivity |].
  apply (apply_move_indices pawn_on_seventh 1 0 (-8) 0); [reflexivity |].
  unfold indexable. lia.
Defined.

(** ** What [apply_move] leaves alone *)

Lemma wf_board_spec (b : Board) :
  wf_board b ↔
  grid b ∧ ∀ r c, in_bounds r c = true → valid_cell (cell b r c) = true.
Proof.
  split.
  - intros Hwf. split; [by apply wf_board_grid |]. intros r c. by apply wf_board_cell.
  - intros [Hg Hcells]. unfold wf_board, wf_boardb. apply andb_true_iff. split; [done |].
    pose proof Hg as [Hlen Hrows]%grid_spec.
    apply forallb_forall. intros row Hrow%list_elem_of_In.
    apply forallb_forall. intros p Hp%list_elem_of_In.
    pose proof (Hrows row Hrow) as Hl.
    apply list_elem_of_lookup_1 in Hrow as (i & Hi), Hp as (j & Hj).
    pose proof (lookup_lt_Some _ _ _ Hi). pose proof (lookup_lt_Some _ _ _ Hj).
    specialize (Hcells (Z.of_nat i) (Z.of_nat j)).
    unfold cell in Hcells. rewrite !Nat2Z.id, Hi in Hcells. simpl in Hcells.
    rewrite Hj in Hcells. apply Hcells, in_bounds_spec. lia.
Qed.

Lemma set_cell_wf (b : Board) (r c : Z) (x : Cell) :
  wf_board b → in_bounds r c = true → valid_cell x = true →
  wf_board (set_cell b r c x).
Proof.
  rewrite !wf_board_spec. intros [Hg Hcells] Hb Hx. split; [by apply set_cell_grid |].
  intros r' c' Hb'. destruct (decide ((r, c) = (r', c'))) as [[= <- <-] | Hne].
  - by rewrite cell_set_cell_eq.
  - rewrite cell_set_cell_ne by done. by apply Hcells.
Qed.

Lemma arrival_valid (p : Cell) (r2 : Z) :
  valid_cell p = true → valid_cell (arrival p r2) = true.
Proof.
  intros Hp. unfold arrival.
  destruct (Ascii.eqb p "P" && (r2 =? 0)); [done |].
  by destruct (Ascii.eqb p "p" && (r2 =? ROWS - 1)).
Qed.

(** On a grid, a move inside the board changes the origin and the
    destination only: the board returned is a grid again, every other cell
    holds what it held, and the origin, when it is not the destination, is
    empty. *)
Theorem apply_move_frame (b : Board) (r1 c1 r2 c2 : Z) :
  grid b → in_bounds r1 c1 = true → in_bounds r2 c2 = true →
  ∃ b', apply_move b (r1, c1, r2, c2) = Ok b' ∧ grid b' ∧
    (∀ r c, in_bounds r c = true → (r, c) ≠ (r1, c1) → (r, c) ≠ (r2, c2) →
            getitem2 b' r c = getitem2 b r c) ∧
    ((r1, c1) ≠ (r2, c2) → getitem2 b' r1 c1 = Ok "."%char).
Proof.
  intros Hg H1 H2. eexists. split; [by apply apply_move_grid |].
  pose proof (set_cell_grid b r1 c1 "." Hg) as Hg1.
  pose proof (set_cell_grid _ r2 c2 (arrival (cell b r1 c1) r2) Hg1) as Hg2.
  split_and!; [done | |].
  - intros r c Hb Hn1 Hn2. rewrite !getitem2_grid by done.
    rewrite !cell_set_cell_ne by done. done.
  - intros Hne. rewrite getitem2_grid by done.
    rewrite cell_set_cell_ne by done. by rewrite cell_set_cell_eq.
Qed.

Lemma apply_move_frame_witness :
  ∃ b', apply_move new_board (6, 4, 4, 4) = Ok b' ∧ grid b' ∧
    (∀ r c, in_bounds r c = true → (r, c) ≠ (6, 4) → (r, c) ≠ (4, 4) →
            getitem2 b' r c = getitem2 new_board r c) ∧
    ((6, 4) ≠ (4, 4) → getitem2 b' 6 4 = Ok "."%char).
Proof.
  apply (apply_move_frame new_board 6 4 4 4); reflexivity.
Defined.

(** [apply_move] keeps a well-formed board well-formed. *)
Theorem apply_move_wf (b : Board) (r1 c1 r2 c2 : Z) :
  wf_board b → in_bounds r1 c1 = true → in_bounds r2 c2 = true →
  ∃ b', apply_move b (r1, c1, r2, c2) = Ok b' ∧ wf_board b'.
Proof.
  intros Hwf H1 H2. pose proof (wf_board_grid b Hwf) as Hg.
  eexists. split; [by apply apply_move_grid |].
  apply set_cell_wf; [by apply set_cell_wf | done |].
  by apply arrival_valid, wf_board_cell.
Qed.

Lemma apply_move_wf_witness :
  ∃ b', apply_move pawn_on_seventh (1, 0, 0, 1) = Ok b' ∧ wf_board b'.
Proof.
  apply (apply_move_wf pawn_on_seventh 1 0 0 1); reflexivity.
Defined.

(** ** Whose pieces move *)

Lemma islower_not_isupper (p : Cell) : islower p = true → isupper p = false.
Proof.
  unfold islower, isupper. intros [H1%Z.leb_le H2%Z.leb_le]%andb_true_iff.
  apply andb_false_iff. right. apply Z.leb_gt. lia.
Qed.

(** Only a cell that holds a piece of the side to move yields moves. *)
Lemma scan_cell_owner (b : Board) (side : Side) (r c : Z) (ms : list Move) :
  grid b → in_bounds r c = true →
  scan_cell b side r c [] = Ok ms → ms ≠ [] →
  side_of (cell b r c) = Some side.
Proof.
  intros Hg Hb. unfold scan_cell. rewrite getitem2_grid, bind_Ok_l by done.
  unfold side_of, is_white, is_black.
  destruct (Ascii.eqb (cell b r c) "."); [by intros [= <-] |].
  destruct side; simpl.
  - destruct (isupper (cell b r c)); simpl; [done | by intros [= <-]].
  - destruct (islower (cell b r c)) eqn:El; simpl; [| by intros [= <-]].
    by rewrite (islower_not_isupper _ El).
Qed.

(** On a well-formed board every generated move starts on a cell that holds
    a piece of the side to move, and ends on another cell. *)
Theorem generate_moves_own_piece (b : Board) (side : Side) :
  wf_board b →
  ∃ moves, generate_moves b side = Ok moves ∧
    ∀ r1 c1 r2 c2, (r1, c1, r2, c2) ∈ moves →
      (r1, c1) ≠ (r2, c2) ∧
      ∃ p, getitem2 b r1 c1 = Ok p ∧ side_of p = Some side.
Proof.
  intros Hwf. pose proof (wf_board_grid b Hwf) as Hg.
  destruct (generate_moves_spec b side Hg) as (all & Hall & Hmem).
  exists all. split; [done |].
  intros r1 c1 r2 c2 (r & c & ms & Hb & Hms & Hm)%Hmem.
  destruct (scan_cell_spec b side r c Hg Hb) as (ms' & Hms' & Hgood & _).
  assert (ms' = ms) as -> by congruence.
  rewrite Forall_forall in Hgood.
  destruct (Hgood _ Hm) as ([= -> ->] & Hb2 & Hdest).
  assert (side_of (cell b r c) = Some side) as Hown.
  { eapply scan_cell_owner; [done | done | done |]. intros ->. by apply not_elem_of_nil in Hm. }
  split.
  - intros [= <- <-]. rewrite Hown in Hdest.
    destruct Hdest as [Hdot | [= Hopp]].
    + rewrite Hdot in Hown. done.
    + by destruct side.
  - exists (cell b r c). split; [by apply getitem2_grid | done].
Qed.

Lemma generate_moves_own_piece_witness :
  ∃ moves, generate_moves new_board Black = Ok moves ∧
    ∀ r1 c1 r2 c2, (r1, c1, r2, c2) ∈ moves →
      (r1, c1) ≠ (r2, c2) ∧
      ∃ p, getitem2 new_board r1 c1 = Ok p ∧ side_of p = Some Black.
Proof. apply (generate_moves_own_piece new_board Black). reflexivity. Defined.

(** ** Playing a generated move *)

Lemma arrival_side (p : Cell) (r2 : Z) : side_of (arrival p r2) = side_of p.
Proof.
  unfold arrival.
  destruct (Ascii.eqb p "P" && (r2 =? 0)) eqn:EP.
  { apply andb_true_iff in EP as [->%Ascii.eqb_eq _]. done. }
  destruct (Ascii.eqb p "p" && (r2 =? ROWS - 1)) eqn:Ep.
  { apply andb_true_iff in Ep as [->%Ascii.eqb_eq _]. done. }
  done.
Qed.

Lemma weigh_set_cell (w : Cell → nat) (b : Board) (r c : Z) (x : Cell) :
  grid b → in_bounds r c = true →
  (sum_list ((λ row, sum_list (w <$> row)) <$> set_cell b r c x) + w (cell b r c)
   = sum_list ((λ row, sum_list (w <$> row)) <$> b) + w x)%nat.
Proof.
  intros Hg Hb. destruct (grid_row b r c Hg Hb) as (row & Hrow & Hl & Hp).
  unfold set_cell.
  assert (alter (λ row, <[Z.to_nat c := x]> row) (Z.to_nat r) b
          = <[Z.to_nat r := <[Z.to_nat c := x]> row]> b) as ->.
  { apply list_eq. intros i. destruct (decide (i = Z.to_nat r)) as [-> | Hne].
    - rewrite list_lookup_alter_eq, Hrow. simpl.
      rewrite list_lookup_insert_eq; [done |]. by eapply lookup_lt_Some.
    - rewrite list_lookup_alter_ne by done. by rewrite list_lookup_insert_ne. }
  pose proof (sum_list_insert (λ row, sum_list (w <$> row)) b (Z.to_nat r)
                (<[Z.to_nat c := x]> row) row Hrow) as Hout.
  pose proof (sum_list_insert w row (Z.to_nat c) x _ Hp) as Hin.
  simpl in Hout. lia.
Qed.

(** The moves of a well-formed board, taken apart. *)
Lemma generated_move_facts (b : Board) (side : Side) (moves : list Move)
    (r1 c1 r2 c2 : Z) :
  grid b → generate_moves b side = Ok moves → (r1, c1, r2, c2) ∈ moves →
  in_bounds r1 c1 = true ∧ in_bounds r2 c2 = true ∧ (r1, c1) ≠ (r2, c2) ∧
  side_of (cell b r1 c1) = Some side ∧
  (cell b r2 c2 = "."%char ∨ side_of (cell b r2 c2) = Some (opposite side)).
Proof.
  intros Hg Hgen Hm.
  destruct (generate_moves_spec b side Hg) as (all & Hall & Hmem).
  assert (all = moves) as -> by congruence.
  apply Hmem in Hm as (r & c & ms & Hb & Hms & Hm).
  destruct (scan_cell_spec b side r c Hg Hb) as (ms' & Hms' & Hgood & _).
  assert (ms' = ms) as -> by congruence.
  rewrite Forall_forall in Hgood.
  destruct (Hgood _ Hm) as ([= -> ->] & Hb2 & Hdest).
  assert (side_of (cell b r c) = Some side) as Hown.
  { eapply scan_cell_owner; [done | done | done |]. intros ->. by apply not_elem_of_nil in Hm. }
  split_and!; [done | done | | done | done].
  intros [= <- <-]. rewrite Hown in Hdest.
  destruct Hdest as [Hdot | [= Hopp]].
  - rewrite Hdot in Hown. done.
  - by destruct side.
Qed.

(** Every generated move can be played: on a well-formed board [apply_move]
    accepts it and returns a well-formed board on which the origin is empty
    and the destination holds a piece of the side that moved. *)
Theorem apply_generated_move (b : Board) (side : Side) (moves : list Move)
    (r1 c1 r2 c2 : Z) :
  wf_board b → generate_moves b side = Ok moves → (r1, c1, r2, c2) ∈ moves →
  ∃ b' p, apply_move b (r1, c1, r2, c2) = Ok b' ∧ wf_board b' ∧
          getitem2 b' r1 c1 = Ok "."%char ∧
          getitem2 b' r2 c2 = Ok p ∧ side_of p = Some side.
Proof.
  intros Hwf Hgen Hm. pose proof (wf_board_grid b Hwf) as Hg.
  destruct (generated_move_facts b side moves r1 c1 r2 c2 Hg Hgen Hm)
    as (H1 & H2 & Hne & Hown & _).
  pose proof (set_cell_grid b r1 c1 "." Hg) as Hg1.
  pose proof (set_cell_grid _ r2 c2 (arrival (cell b r1 c1) r2) Hg1) as Hg2.
  eexists _, (arrival (cell b r1 c1) r2).
  split_and!; [by apply apply_move_grid | | | |].
  - apply set_cell_wf; [by apply set_cell_wf | done |].
    by apply arrival_valid, wf_board_cell.
  - rewrite getitem2_grid by done. rewrite cell_set_cell_ne by done.
    by rewrite cell_set_cell_eq.
  - rewrite getitem2_grid by done. by rewrite cell_set_cell_eq.
  - by rewrite arrival_side.
Qed.

Lemma apply_generated_move_witness :
  ∃ b' p, apply_move rook_choice (0, 0, 0, 3) = Ok b' ∧ wf_board b' ∧
          getitem2 b' 0 0 = Ok "."%char ∧
          getitem2 b' 0 3 = Ok p ∧ side_of p = Some Black.
Proof.
  apply (apply_generated_move rook_choice Black
           (match generate_moves rook_choice Black with Ok ms => ms | Raise _ => [] end));
    [reflexivity | vm_compute; reflexivity |].
  apply list_elem_of_In. vm_compute. do 5 right. left. reflexivity.
Defined.

(** A generated move never takes a piece of the side that moves: that side
    keeps the number of its pieces, and the other side loses one piece
    exactly when the destination was occupied. *)
Theorem apply_generated_move_counts (b : Board) (side : Side) (moves : list Move)
    (r1 c1 r2 c2 : Z) (t : Cell) :
  wf_board b → generate_moves b side = Ok moves → (r1, c1, r2, c2) ∈ moves →
  getitem2 b r2 c2 = Ok t →
  ∃ b', apply_move b (r1, c1, r2, c2) = Ok b' ∧
        count_side b' side = count_side b side ∧
        (count_side b' (opposite side) + occupied t)%nat = count_side b (opposite side).
Proof.
  intros Hwf Hgen Hm Ht. pose proof (wf_board_grid b Hwf) as Hg.
  destruct (generated_move_facts b side moves r1 c1 r2 c2 Hg Hgen Hm)
    as (H1 & H2 & Hne & Hown & Hdest).
  rewrite getitem2_grid in Ht by done. injection Ht as Ht.
  pose proof (set_cell_grid b r1 c1 "." Hg) as Hg1.
  eexists. split; [by apply apply_move_grid |].
  unfold count_side.
  pose proof (weigh_set_cell (belongs side) b r1 c1 "." Hg H1) as Ha1.
  pose proof (weigh_set_cell (belongs side) _ r2 c2 (arrival (cell b r1 c1) r2) Hg1 H2)
    as Ha2.
  pose proof (weigh_set_cell (belongs (opposite side)) b r1 c1 "." Hg H1) as Hb1.
  pose proof (weigh_set_cell (belongs (opposite side)) _ r2 c2
                (arrival (cell b r1 c1) r2) Hg1 H2) as Hb2.
  rewrite cell_set_cell_ne in Ha2, Hb2 by done. rewrite Ht in *.
  assert (belongs side (cell b r1 c1) = 1%nat) as Hs1.
  { unfold belongs. by rewrite bool_decide_eq_true_2. }
  assert (belongs (opposite side) (cell b r1 c1) = 0%nat) as Ho1.
  { unfold belongs. rewrite bool_decide_eq_false_2; [done |].
    rewrite Hown. by destruct side. }
  assert (belongs side (arrival (cell b r1 c1) r2) = 1%nat) as Hs2.
  { unfold belongs. by rewrite arrival_side, bool_decide_eq_true_2. }
  assert (belongs (opposite side) (arrival (cell b r1 c1) r2) = 0%nat) as Ho2.
  { unfold belongs. rewrite arrival_side, bool_decide_eq_false_2; [done |].
    rewrite Hown. by destruct side. }
  assert (belongs side t = 0%nat ∧ belongs (opposite side) t = occupied t) as [Hst Hot].
  { unfold belongs, occupied. destruct Hdest as [-> | Hopp].
    - by destruct side.
    - rewrite Hopp. rewrite bool_decide_eq_false_2 by (by destruct side).
      rewrite bool_decide_eq_true_2 by done.
      destruct (Ascii.eqb_spec t ".") as [-> | _]; [by destruct side | done]. }
  change (belongs side ".") with 0%nat in Ha1.
  assert (belongs (opposite side) "." = 0%nat) as Hdot by (by destruct side).
  lia.
Qed.

Lemma apply_generated_move_counts_witness :
  ∃ b', apply_move rook_choice (0, 0, 0, 3) = Ok b' ∧
        count_side b' Black = count_side rook_choice Black ∧
        (count_side b' (opposite Black) + occupied "Q")%nat
        = count_side rook_choice (opposite Black).
Proof.
  apply (apply_generated_move_counts rook_choice Black
           (match generate_moves rook_choice Black with Ok ms => ms | Raise _ => [] end));
    [reflexivity | vm_compute; reflexivity | | reflexivity].
  apply list_elem_of_In. vm_compute. do 5 right. left. reflexivity.
Defined.

(** ** The knight and the king, exactly *)

Lemma can_land_test (side : Side) (t : Cell) :
  Ascii.eqb t "." || bool_decide (side_of t ≠ Some side) = true ↔ can_land side t.
Proof.
  unfold can_land. rewrite orb_true_iff, Ascii.eqb_eq, bool_decide_eq_true. done.
Qed.

Lemma jumps_spec (dr dc : Z) :
  (dr, dc) ∈ jumps ↔
  (Z.abs dr = 1 ∧ Z.abs dc = 2) ∨ (Z.abs dr = 2 ∧ Z.abs dc = 1).
Proof.
  unfold jumps. rewrite !elem_of_cons, elem_of_nil. split.
  - intros H. repeat destruct H as [[= -> ->] | H]; try done; simpl; lia.
  - intros H.
    assert ((dr = 1 ∨ dr = -1) ∧ (dc = 2 ∨ dc = -2)
            ∨ (dr = 2 ∨ dr = -2) ∧ (dc = 1 ∨ dc = -1)) as Hc by lia.
    destruct Hc as [[[-> | ->] [-> | ->]] | [[-> | ->] [-> | ->]]]; tauto.
Qed.

(** On a well-formed board [gen_knight] returns exactly the moves from
    [(r, c)] to the cells of the board one row and two columns, or two rows
    and one column, away that are empty or hold no piece of [side]. *)
Theorem gen_knight_exact (b : Board) (r c : Z) (side : Side) :
  wf_board b →
  ∃ ms, gen_knight b r c side = Ok ms ∧
    ∀ m, m ∈ ms ↔
      ∃ rr cc t, m = (r, c, rr, cc) ∧ in_bounds rr cc = true ∧
        ((Z.abs (rr - r) = 1 ∧ Z.abs (cc - c) = 2)
         ∨ (Z.abs (rr - r) = 2 ∧ Z.abs (cc - c) = 1)) ∧
        getitem2 b rr cc = Ok t ∧ can_land side t.
Proof.
  intros Hwf. pose proof (wf_board_grid b Hwf) as Hg. unfold gen_knight.
  destruct (for_each_collect jumps (λ d, Ok (knight_step b r c side d))
              (λ '(dr, dc) moves,
                 let rr := r + dr in
                 let cc := c + dc in
                 if negb (in_bounds rr cc) then Ok moves
                 else
                   target ← getitem2 b rr cc;
                   if Ascii.eqb target "." || bool_decide (side_of target ≠ Some side)
                   then Ok (moves ++ [(r, c, rr, cc)]) else Ok moves))
    as (out & Hout & Hmem).
  { intros [dr dc] _. eexists. split; [done |]. intros acc. unfold knight_step.
    destruct (in_bounds (r + dr) (c + dc)) eqn:E; simpl; [| by rewrite app_nil_r].
    rewrite getitem2_grid by done. rewrite bind_Ok_l.
    destruct (Ascii.eqb (cell b (r + dr) (c + dc)) "."
              || bool_decide (side_of (cell b (r + dr) (c + dc)) ≠ Some side));
      [done | by rewrite app_nil_r]. }
  exists out. split; [apply (Hout []) |].
  intros m. rewrite Hmem. split.
  - intros ([dr dc] & ms & Hd & [= <-] & Hm). unfold knight_step in Hm.
    destruct (in_bounds (r + dr) (c + dc)) eqn:E; simpl in Hm;
      [| by apply not_elem_of_nil in Hm].
    destruct (Ascii.eqb (cell b (r + dr) (c + dc)) "."
              || bool_decide (side_of (cell b (r + dr) (c + dc)) ≠ Some side)) eqn:El;
      [| by apply not_elem_of_nil in Hm].
    apply list_elem_of_singleton in Hm as ->.
    exists (r + dr), (c + dc), (cell b (r + dr) (c + dc)).
    split_and!; [done | done | | by apply getitem2_grid | by apply can_land_test].
    apply jumps_spec in Hd. replace (r + dr - r) with dr by lia.
    replace (c + dc - c) with dc by lia. done.
  - intros (rr & cc & t & -> & Hb & Hshape & Ht & Hland).
    rewrite getitem2_grid in Ht by done. injection Ht as <-.
    exists (rr - r, cc - c). eexists. split_and!; [by apply jumps_spec | done |].
    unfold knight_step. replace (r + (rr - r)) with rr by lia.
    replace (c + (cc - c)) with cc by lia. rewrite Hb. simpl.
    apply can_land_test in Hland. rewrite Hland. left.
Qed.

Lemma gen_knight_exact_witness :
  ∃ ms, gen_knight new_board 7 1 White = Ok ms ∧
    ∀ m, m ∈ ms ↔
      ∃ rr cc t, m = (7, 1, rr, cc) ∧ in_bounds rr cc = true ∧
        ((Z.abs (rr - 7) = 1 ∧ Z.abs (cc - 1) = 2)
         ∨ (Z.abs (rr - 7) = 2 ∧ Z.abs (cc - 1) = 1)) ∧
        getitem2 new_board rr cc = Ok t ∧ can_land White t.
Proof. apply (gen_knight_exact new_board 7 1 White). reflexivity. Defined.

(** On a well-formed board [gen_king] returns exactly the moves from
    [(r, c)] to the neighbouring cells of the board that are empty or hold
    no piece of [side]. *)
Theorem gen_king_exact (b : Board) (r c : Z) (side : Side) :
  wf_board b →
  ∃ ms, gen_king b r c side = Ok ms ∧
    ∀ m, m ∈ ms ↔
      ∃ rr cc t, m = (r, c, rr, cc) ∧ in_bounds rr cc = true ∧
        Z.max (Z.abs (rr - r)) (Z.abs (cc - c)) = 1 ∧
        getitem2 b rr cc = Ok t ∧ can_land side t.
Proof.
  intros Hwf. pose proof (wf_board_grid b Hwf) as Hg.
  destruct (gen_king_spec b r c side Hg) as (out & Hout & Hmem).
  exists out. split; [done |]. intros m. rewrite Hmem. split.
  - intros (dr & dc & Hdr & Hdc & Hm). unfold king_step in Hm.
    destruct ((dr =? 0) && (dc =? 0)) eqn:E0; [by apply not_elem_of_nil in Hm |].
    destruct (in_bounds (r + dr) (c + dc)) eqn:E; simpl in Hm;
      [| by apply not_elem_of_nil in Hm].
    destruct (Ascii.eqb (cell b (r + dr) (c + dc)) "."
              || bool_decide (side_of (cell b (r + dr) (c + dc)) ≠ Some side)) eqn:El;
      [| by apply not_elem_of_nil in Hm].
    apply list_elem_of_singleton in Hm as ->.
    exists (r + dr), (c + dc), (cell b (r + dr) (c + dc)).
    split_and!; [done | done | | by apply getitem2_grid | by apply can_land_test].
    rewrite !elem_of_cons, elem_of_nil in Hdr, Hdc.
    apply andb_false_iff in E0. rewrite !Z.eqb_neq in E0. lia.
  - intros (rr & cc & t & -> & Hb & Hshape & Ht & Hland).
    rewrite getitem2_grid in Ht by done. injection Ht as <-.
    exists (rr - r), (cc - c). split_and!.
    + rewrite !elem_of_cons. lia.
    + rewrite !elem_of_cons. lia.
    + unfold king_step. replace (r + (rr - r)) with rr by lia.
      replace (c + (cc - c)) with cc by lia. rewrite Hb. simpl.
      apply can_land_test in Hland. rewrite Hland.
      assert ((rr - r =? 0) && (cc - c =? 0) = false) as ->; [| left].
      apply andb_false_iff. rewrite !Z.eqb_neq. lia.
Qed.

Lemma gen_king_exact_witness :
  ∃ ms, gen_king rook_choice 7 7 Black = Ok ms ∧
    ∀ m, m ∈ ms ↔
      ∃ rr cc t, m = (7, 7, rr, cc) ∧ in_bounds rr cc = true ∧
        Z.max (Z.abs (rr - 7)) (Z.abs (cc - 7)) = 1 ∧
        getitem2 rook_choice rr cc = Ok t ∧ can_land Black t.
Proof. apply (gen_king_exact rook_choice 7 7 Black). reflexivity. Defined.

(** ** The pawn, exactly *)

Lemma capture_test (side : Side) (t : Cell) :
  negb (Ascii.eqb t ".") && truthy (side_of t) && bool_decide (side_of t ≠ Some side)
  = bool_decide (side_of t = Some (opposite side)).
Proof.
  unfold side_of.
  destruct (Ascii.eqb t "."), (is_white t), side; simpl;
    repeat case_bool_decide; done.
Qed.

Lemma gen_pawn_lists (b : Board) (r c : Z) (side : Side) :
  grid b →
  gen_pawn b r c side
  = Ok (pawn_pushes b r c side ++ ([-1; 1] ≫= pawn_capture b r c side)).
Proof.
  intros Hg. unfold gen_pawn.
  change (match side with White => -1 | Black => 1 end) with (pawn_dir side).
  change (match side with White => 6 | Black => 1 end) with (pawn_start side).
  cbv zeta.
  assert ((if in_bounds (r + pawn_dir side) c then
             t1 ← getitem2 b (r + pawn_dir side) c;
             if Ascii.eqb t1 "." then
               if (r =? pawn_start side) && in_bounds (r + 2 * pawn_dir side) c then
                 t2 ← getitem2 b (r + 2 * pawn_dir side) c;
                 if Ascii.eqb t2 "." then
                   t1' ← getitem2 b (r + pawn_dir side) c;
                   if Ascii.eqb t1' "."
                   then Ok (([] ++ [(r, c, r + pawn_dir side, c)])
                            ++ [(r, c, r + 2 * pawn_dir side, c)])
                   else Ok ([] ++ [(r, c, r + pawn_dir side, c)])
                 else Ok ([] ++ [(r, c, r + pawn_dir side, c)])
               else Ok ([] ++ [(r, c, r + pawn_dir side, c)])
             else Ok []
           else Ok []) = Ok (pawn_pushes b r c side)) as ->.
  { unfold pawn_pushes. cbv zeta.
    destruct (in_bounds (r + pawn_dir side) c) eqn:E1; [| done].
    rewrite getitem2_grid by done. simpl.
    destruct (Ascii.eqb (cell b (r + pawn_dir side) c) ".") eqn:H1; [| done].
    destruct (r =? pawn_start side); [| done].
    destruct (in_bounds (r + 2 * pawn_dir side) c) eqn:E2; [| done]. simpl.
    rewrite getitem2_grid by done. simpl.
    destruct (Ascii.eqb (cell b (r + 2 * pawn_dir side) c) "."); [| done].
    rewrite ?getitem2_grid by done. simpl. by rewrite ?H1. }
  rewrite bind_Ok_l.
  apply (for_each_concat [-1; 1] (pawn_capture b r c side)).
  intros dc acc _. unfold pawn_capture. cbv zeta.
  destruct (in_bounds (r + pawn_dir side) (c + dc)) eqn:E; [| by rewrite app_nil_r].
  rewrite getitem2_grid by done. rewrite bind_Ok_l, capture_test. simpl.
  destruct (bool_decide (side_of (cell b (r + pawn_dir side) (c + dc))
                         = Some (opposite side))); [done | by rewrite app_nil_r].
Qed.

(** On a well-formed board [gen_pawn] returns exactly: the step forward when
    the cell ahead is on the board and empty; the double step when, besides,
    the pawn is on its starting row and the second cell ahead is on the
    board and empty; and the two diagonal steps forward onto cells of the
    board that hold a piece of the other side. *)
Theorem gen_pawn_exact (b : Board) (r c : Z) (side : Side) :
  wf_board b →
  ∃ ms, gen_pawn b r c side = Ok ms ∧
    ∀ m, m ∈ ms ↔
      (m = (r, c, r + pawn_dir side, c) ∧
       in_bounds (r + pawn_dir side) c = true ∧
       getitem2 b (r + pawn_dir side) c = Ok "."%char)
      ∨ (m = (r, c, r + 2 * pawn_dir side, c) ∧ r = pawn_start side ∧
         in_bounds (r + pawn_dir side) c = true ∧
         getitem2 b (r + pawn_dir side) c = Ok "."%char ∧
         in_bounds (r + 2 * pawn_dir side) c = true ∧
         getitem2 b (r + 2 * pawn_dir side) c = Ok "."%char)
      ∨ (∃ cc t, m = (r, c, r + pawn_dir side, cc) ∧ Z.abs (cc - c) = 1 ∧
                 in_bounds (r + pawn_dir side) cc = true ∧
                 getitem2 b (r + pawn_dir side) cc = Ok t ∧
                 side_of t = Some (opposite side)).
Proof.
  intros Hwf. pose proof (wf_board_grid b Hwf) as Hg.
  eexists. split; [by apply gen_pawn_lists |].
  intros m. rewrite elem_of_app. split.
  - intros [Hpush | Hcap].
    + unfold pawn_pushes in Hpush. cbv zeta in Hpush.
      destruct (in_bounds (r + pawn_dir side) c) eqn:E1;
        [| by apply not_elem_of_nil in Hpush].
      destruct (Ascii.eqb_spec (cell b (r + pawn_dir side) c) ".") as [H1 | H1];
        [| by apply not_elem_of_nil in Hpush].
      assert (getitem2 b (r + pawn_dir side) c = Ok "."%char) as Hg1
        by (by rewrite getitem2_grid, H1).
      simpl in Hpush.
      destruct (Z.eqb_spec r (pawn_start side)) as [Hs | Hs]; simpl in Hpush.
      2:{ apply list_elem_of_singleton in Hpush as ->. by left. }
      destruct (in_bounds (r + 2 * pawn_dir side) c) eqn:E2; simpl in Hpush.
      2:{ apply list_elem_of_singleton in Hpush as ->. by left. }
      destruct (Ascii.eqb_spec (cell b (r + 2 * pawn_dir side) c) ".") as [H2 | H2].
      2:{ apply list_elem_of_singleton in Hpush as ->. by left. }
      apply elem_of_cons in Hpush as [-> | ->%list_elem_of_singleton]; [by left |].
      right. left. split_and!; try done. by rewrite getitem2_grid, H2.
    + apply list_elem_of_bind in Hcap as (dc & Hm & Hdc).
      unfold pawn_capture in Hm. cbv zeta in Hm.
      destruct (in_bounds (r + pawn_dir side) (c + dc)) eqn:E; simpl in Hm;
        [| by apply not_elem_of_nil in Hm].
      case_bool_decide as Hside; [| by apply not_elem_of_nil in Hm].
      apply list_elem_of_singleton in Hm as ->.
      right. right. exists (c + dc), (cell b (r + pawn_dir side) (c + dc)).
      split_and!; [done | | done | by apply getitem2_grid | done].
      rewrite !elem_of_cons, elem_of_nil in Hdc. lia.
  - intros [(-> & E1 & H1) | [(-> & Hs & E1 & H1 & E2 & H2) | (cc & t & -> & Hcc & E & Ht & Hside)]].
    + left. rewrite getitem2_grid in H1 by done. injection H1 as H1.
      unfold pawn_pushes. cbv zeta. rewrite E1, H1. simpl.
      destruct ((r =? pawn_start side) && in_bounds (r + 2 * pawn_dir side) c
                && Ascii.eqb (cell b (r + 2 * pawn_dir side) c) "."); left.
    + left. rewrite getitem2_grid in H1, H2 by done.
      injection H1 as H1. injection H2 as H2.
      unfold pawn_pushes. cbv zeta. rewrite E1, H1, E2, H2.
      apply Z.eqb_eq in Hs. rewrite Hs. simpl. right. left.
    + right. rewrite getitem2_grid in Ht by done. injection Ht as <-.
      apply list_elem_of_bind. exists (cc - c). split.
      * unfold pawn_capture. cbv zeta. replace (c + (cc - c)) with cc by lia.
        rewrite E, bool_decide_eq_true_2 by done. left.
      * rewrite !elem_of_cons. lia.
Qed.

Lemma gen_pawn_exact_witness :
  ∃ ms, gen_pawn new_board 6 4 White = Ok ms ∧
    ∀ m, m ∈ ms ↔
      (m = (6, 4, 6 + pawn_dir White, 4) ∧
       in_bounds (6 + pawn_dir White) 4 = true ∧
       getitem2 new_board (6 + pawn_dir White) 4 = Ok "."%char)
      ∨ (m = (6, 4, 6 + 2 * pawn_dir White, 4) ∧ 6 = pawn_start White ∧
         in_bounds (6 + pawn_dir White) 4 = true ∧
         getitem2 new_board (6 + pawn_dir White) 4 = Ok "."%char ∧
         in_bounds (6 + 2 * pawn_dir White) 4 = true ∧
         getitem2 new_board (6 + 2 * pawn_dir White) 4 = Ok "."%char)
      ∨ (∃ cc t, m = (6, 4, 6 + pawn_dir White, cc) ∧ Z.abs (cc - 4) = 1 ∧
                 in_bounds (6 + pawn_dir White) cc = true ∧
                 getitem2 new_board (6 + pawn_dir White) cc = Ok t ∧
                 side_of t = Some (opposite White)).
Proof. apply (gen_pawn_exact new_board 6 4 White). reflexivity. Defined.

(** ** The sliding pieces, exactly *)

(** One ray, from any cell [(rr, cc)] on: it appends the cells up to the
    first occupied one, and that one too unless it holds a piece of
    [side]. *)
Lemma slide_ray_exact (b : Board) (r c : Z) (side : Side) (dr dc : Z) (fuel : nat) :
  grid b → (dr, dc) ∈ queen_dirs →
  ∀ rr cc,
    0 ≤ Z.min (room dr rr) (room dc cc) < Z.of_nat fuel →
    ∃ out,
      (∀ moves, slide_ray fuel b r c side dr dc rr cc moves = Ok (moves ++ out)) ∧
      ∀ m, m ∈ out ↔
        ∃ n, 0 ≤ n ∧ m = (r, c, rr + n * dr, cc + n * dc) ∧
             (∀ k, 0 ≤ k ≤ n → in_bounds (rr + k * dr) (cc + k * dc) = true) ∧
             (∀ k, 0 ≤ k < n → cell b (rr + k * dr) (cc + k * dc) = "."%char) ∧
             can_land side (cell b (rr + n * dr) (cc + n * dc)).
Proof.
  intros Hg Hd. induction fuel as [|fuel IH]; intros rr cc Hroom; [lia |].
  cbn [slide_ray]. destruct (in_bounds rr cc) eqn:E.
  2:{ exists []. split; [intros moves; by rewrite app_nil_r |].
      intros m. split; [by intros ?%not_elem_of_nil |].
      intros (n & Hn & _ & Hin & _). specialize (Hin 0 ltac:(lia)).
      rewrite !Z.mul_0_l, !Z.add_0_r in Hin. congruence. }
  rewrite getitem2_grid by done.
  destruct (Ascii.eqb_spec (cell b rr cc) ".") as [He | He].
  - destruct (IH (rr + dr) (cc + dc)) as (out & Hout & Hmem).
    { apply in_bounds_spec in E. clear IH.
      unfold queen_dirs in Hd. set_unfold in Hd.
      destruct Hd as [[=] | [[=] | [[=] | [[=] | [[=] | [[=] | [[=] | [[=] | []]]]]]]]];
        subst dr dc; unfold room in *; simpl in *; lia. }
    exists ((r, c, rr, cc) :: out). split.
    + intros moves. rewrite bind_Ok_l, (proj2 (Ascii.eqb_eq _ _) He), Hout.
      by rewrite <- app_assoc.
    + intros m. rewrite elem_of_cons, Hmem. split.
      * intros [-> | (n & Hn & -> & Hin & Hclear & Hland)].
        -- exists 0. rewrite !Z.mul_0_l, !Z.add_0_r. split_and!; [done | done | | | by left].
           ++ intros k Hk. assert (k = 0) as -> by lia.
              by rewrite !Z.mul_0_l, !Z.add_0_r.
           ++ intros k Hk. lia.
        -- exists (n + 1). split_and!; [lia | f_equal; [f_equal|]; lia | | |].
           ++ intros k Hk. destruct (decide (k = 0)) as [-> | Hk0].
              ** by rewrite !Z.mul_0_l, !Z.add_0_r.
              ** specialize (Hin (k - 1) ltac:(lia)).
                 replace (rr + k * dr) with (rr + dr + (k - 1) * dr) by lia.
                 by replace (cc + k * dc) with (cc + dc + (k - 1) * dc) by lia.
           ++ intros k Hk. destruct (decide (k = 0)) as [-> | Hk0].
              ** by rewrite !Z.mul_0_l, !Z.add_0_r.
              ** specialize (Hclear (k - 1) ltac:(lia)).
                 replace (rr + k * dr) with (rr + dr + (k - 1) * dr) by lia.
                 by replace (cc + k * dc) with (cc + dc + (k - 1) * dc) by lia.
           ++ replace (rr + (n + 1) * dr) with (rr + dr + n * dr) by lia.
              by replace (cc + (n + 1) * dc) with (cc + dc + n * dc) by lia.
      * intros (n & Hn & -> & Hin & Hclear & Hland).
        destruct (decide (n = 0)) as [-> | Hn0].
        -- left. by rewrite !Z.mul_0_l, !Z.add_0_r.
        -- right. exists (n - 1). split_and!; [lia | f_equal; [f_equal|]; lia | | |].
           ++ intros k Hk. specialize (Hin (k + 1) ltac:(lia)).
              replace (rr + dr + k * dr) with (rr + (k + 1) * dr) by lia.
              by replace (cc + dc + k * dc) with (cc + (k + 1) * dc) by lia.
           ++ intros k Hk. specialize (Hclear (k + 1) ltac:(lia)).
              replace (rr + dr + k * dr) with (rr + (k + 1) * dr) by lia.
              by replace (cc + dc + k * dc) with (cc + (k + 1) * dc) by lia.
           ++ replace (rr + dr + (n - 1) * dr) with (rr + n * dr) by lia.
              by replace (cc + dc + (n - 1) * dc) with (cc + n * dc) by lia.
  - assert (∀ m n, 0 ≤ n → m = (r, c, rr + n * dr, cc + n * dc) →
              (∀ k, 0 ≤ k < n → cell b (rr + k * dr) (cc + k * dc) = "."%char) →
              n = 0 ∧ m = (r, c, rr, cc)) as Hfirst.
    { intros m n Hn -> Hclear. destruct (decide (n = 0)) as [-> | Hn0].
      - by rewrite !Z.mul_0_l, !Z.add_0_r.
      - specialize (Hclear 0 ltac:(lia)).
        rewrite !Z.mul_0_l, !Z.add_0_r in Hclear. done. }
    destruct (decide (side_of (cell b rr cc) ≠ Some side)) as [Hside | Hside].
    + exists [(r, c, rr, cc)]. split.
      { intros moves. rewrite bind_Ok_l, (proj2 (Ascii.eqb_neq _ _) He).
        by rewrite bool_decide_eq_true_2. }
      intros m. rewrite list_elem_of_singleton. split.
      * intros ->. exists 0. rewrite !Z.mul_0_l, !Z.add_0_r.
        split_and!; [done | done | | | by right].
        -- intros k Hk. assert (k = 0) as -> by lia.
           by rewrite !Z.mul_0_l, !Z.add_0_r.
        -- intros k Hk. lia.
      * intros (n & Hn & Hm & _ & Hclear & _). by destruct (Hfirst m n Hn Hm Hclear).
    + exists []. split.
      { intros moves. rewrite bind_Ok_l, (proj2 (Ascii.eqb_neq _ _) He).
        by rewrite bool_decide_eq_false_2, app_nil_r. }
      intros m. split; [by intros ?%not_elem_of_nil |].
      intros (n & Hn & Hm & _ & Hclear & Hland).
      destruct (Hfirst m n Hn Hm Hclear) as [-> ->].
      rewrite !Z.mul_0_l, !Z.add_0_r in Hland. by destruct Hland.
Qed.

(** On a well-formed board [slide_moves] returns exactly the moves along its
    directions to the cells of the board that are reached over empty cells
    only and that are empty or hold no piece of [side]: a ray never goes
    over or beyond a piece.  [gen_bishop], [gen_rook] and [gen_queen] are
    [slide_moves] with the diagonal, the straight and all eight
    directions. *)
Theorem slide_moves_exact (b : Board) (r c : Z) (side : Side)
    (directions : list (Z * Z)) :
  wf_board b → in_bounds r c = true → directions ⊆ queen_dirs →
  ∃ ms, slide_moves b r c side directions = Ok ms ∧
    ∀ m, m ∈ ms ↔
      ∃ dr dc n t, (dr, dc) ∈ directions ∧ 1 ≤ n ∧
        m = (r, c, r + n * dr, c + n * dc) ∧
        in_bounds (r + n * dr) (c + n * dc) = true ∧
        (∀ k, 1 ≤ k < n → getitem2 b (r + k * dr) (c + k * dc) = Ok "."%char) ∧
        getitem2 b (r + n * dr) (c + n * dc) = Ok t ∧ can_land side t.
Proof.
  intros Hwf Hrc Hsub. pose proof (wf_board_grid b Hwf) as Hg. unfold slide_moves.
  assert (∀ dr dc, (dr, dc) ∈ directions →
            0 ≤ Z.min (room dr (r + dr)) (room dc (c + dc)) < Z.of_nat ray_fuel) as Hroom.
  { intros dr dc Hin%Hsub. apply in_bounds_spec in Hrc.
    unfold queen_dirs in Hin. set_unfold in Hin. unfold ray_fuel.
    destruct Hin as [[=] | [[=] | [[=] | [[=] | [[=] | [[=] | [[=] | [[=] | []]]]]]]]];
      subst dr dc; unfold room; simpl; lia. }
  assert (∀ dr dc n k, (dr, dc) ∈ directions → 1 ≤ k ≤ n →
            in_bounds (r + n * dr) (c + n * dc) = true →
            in_bounds (r + k * dr) (c + k * dc) = true) as Hconvex.
  { intros dr dc n k Hin%Hsub Hk Hn%in_bounds_spec.
    apply in_bounds_spec in Hrc. apply in_bounds_spec.
    unfold queen_dirs in Hin. set_unfold in Hin.
    destruct Hin as [[=] | [[=] | [[=] | [[=] | [[=] | [[=] | [[=] | [[=] | []]]]]]]]];
      subst dr dc; lia. }
  destruct (for_each_collect directions
              (λ '(dr, dc), slide_ray ray_fuel b r c side dr dc (r + dr) (c + dc) [])
              (λ '(dr, dc) moves,
                 slide_ray ray_fuel b r c side dr dc (r + dr) (c + dc) moves))
    as (out & Hout & Hmem).
  { intros [dr dc] Hin.
    destruct (slide_ray_exact b r c side dr dc ray_fuel Hg (Hsub _ Hin)
                (r + dr) (c + dc) (Hroom _ _ Hin)) as (ray & Hray & _).
    exists ray. split; [apply (Hray []) | done]. }
  exists out. split; [apply (Hout []) |].
  intros m. rewrite Hmem. split.
  - intros ([dr dc] & ms & Hin & Hms & Hm).
    destruct (slide_ray_exact b r c side dr dc ray_fuel Hg (Hsub _ Hin)
                (r + dr) (c + dc) (Hroom _ _ Hin)) as (ray & Hray & Hchar).
    rewrite (Hray []) in Hms. injection Hms as <-.
    apply Hchar in Hm as (n & Hn & -> & Hinb & Hclear & Hland).
    exists dr, dc, (n + 1), (cell b (r + (n + 1) * dr) (c + (n + 1) * dc)).
    assert (∀ k, r + dr + k * dr = r + (k + 1) * dr) as Er by (intros; lia).
    assert (∀ k, c + dc + k * dc = c + (k + 1) * dc) as Ec by (intros; lia).
    setoid_rewrite Er in Hinb. setoid_rewrite Ec in Hinb.
    setoid_rewrite Er in Hclear. setoid_rewrite Ec in Hclear.
    rewrite Er, Ec in Hland |- *.
    split_and!; [done | lia | done | by apply Hinb; lia | | | done].
    + intros k Hk. specialize (Hclear (k - 1) ltac:(lia)).
      specialize (Hinb (k - 1) ltac:(lia)).
      replace (k - 1 + 1) with k in * by lia. by rewrite getitem2_grid, Hclear.
    + apply getitem2_grid; [done |]. apply Hinb. lia.
  - intros (dr & dc & n & t & Hin & Hn & -> & Hinb & Hclear & Ht & Hland).
    destruct (slide_ray_exact b r c side dr dc ray_fuel Hg (Hsub _ Hin)
                (r + dr) (c + dc) (Hroom _ _ Hin)) as (ray & Hray & Hchar).
    exists (dr, dc), ray. split_and!; [done | apply (Hray []) |].
    apply Hchar. exists (n - 1).
    assert (∀ k, r + dr + k * dr = r + (k + 1) * dr) as Er by (intros; lia).
    assert (∀ k, c + dc + k * dc = c + (k + 1) * dc) as Ec by (intros; lia).
    rewrite Er, Ec. replace (n - 1 + 1) with n by lia.
    rewrite getitem2_grid in Ht by done. injection Ht as <-.
    split_and!; [lia | done | | | done].
    + intros k Hk. rewrite Er, Ec. apply (Hconvex dr dc n); [done | lia | done].
    + intros k Hk. rewrite Er, Ec. specialize (Hclear (k + 1) ltac:(lia)).
      rewrite getitem2_grid in Hclear; [by injection Hclear |done |].
      apply (Hconvex dr dc n); [done | lia | done].
Qed.

Lemma slide_moves_exact_witness :
  ∃ ms, gen_rook rook_choice 0 0 Black = Ok ms ∧
    ∀ m, m ∈ ms ↔
      ∃ dr dc n t, (dr, dc) ∈ rook_dirs ∧ 1 ≤ n ∧
        m = (0, 0, 0 + n * dr, 0 + n * dc) ∧
        in_bounds (0 + n * dr) (0 + n * dc) = true ∧
        (∀ k, 1 ≤ k < n → getitem2 rook_choice (0 + k * dr) (0 + k * dc) = Ok "."%char) ∧
        getitem2 rook_choice (0 + n * dr) (0 + n * dc) = Ok t ∧ can_land Black t.
Proof.
  apply (slide_moves_exact rook_choice 0 0 Black rook_dirs);
    [reflexivity | reflexivity |].
  intros d. unfold rook_dirs, queen_dirs. rewrite !elem_of_cons, !elem_of_nil. tauto.
Defined.

(** The loop of [slide_moves] ends from every origin, on the board or
    outside it: [ray_fuel] is never spent. *)
Lemma slide_moves_ends (b : Board) (r c : Z) (side : Side)
    (directions : list (Z * Z)) :
  grid b → directions ⊆ queen_dirs →
  ∃ ms, slide_moves b r c side directions = Ok ms.
Proof.
  intros Hg Hsub. unfold slide_moves.
  destruct (for_each_inv (λ _ : list Move, True) directions
              (λ '(dr, dc) moves,
                 slide_ray ray_fuel b r c side dr dc (r + dr) (c + dc) moves) [])
    as (ms & Hms & _); [done | | by exists ms].
  intros [dr dc] moves Hin _.
  destruct (in_bounds (r + dr) (c + dc)) eqn:E.
  - destruct (slide_ray_exact b r c side dr dc ray_fuel Hg (Hsub _ Hin)
                (r + dr) (c + dc)) as (out & Hout & _).
    + apply in_bounds_spec in E. apply Hsub in Hin.
      unfold queen_dirs in Hin. set_unfold in Hin. unfold ray_fuel.
      destruct Hin as [[=] | [[=] | [[=] | [[=] | [[=] | [[=] | [[=] | [[=] | []]]]]]]]];
        subst dr dc; unfold room; simpl; lia.
    + eexists. split; [apply Hout | done].
  - exists moves. unfold ray_fuel. cbn [slide_ray]. rewrite E. done.
Qed.

(** ** Every best move can be chosen *)

Lemma best_loop_all (b : Board) (sc : Move → Z) (xs : list Move) :
  (∀ m, m ∈ xs → score_of b m = Ok (sc m) ∧ 0 ≤ sc m) →
  ∀ seen st, best_inv sc seen st → best_all sc seen st →
    ∃ st', for_each xs (best_step b) st = Ok st' ∧ best_all sc (seen ++ xs) st'.
Proof.
  induction xs as [|x xs IH]; intros Hsc seen st Hinv Hall.
  - exists st. rewrite app_nil_r. done.
  - destruct (Hsc x) as [Hx Hx0]; [left |].
    assert (∀ m, m ∈ [x] → score_of b m = Ok (sc m) ∧ 0 ≤ sc m) as Hsc1.
    { intros m ->%list_elem_of_singleton. done. }
    destruct (best_loop b sc [x] Hsc1 seen st Hinv) as (st1 & Hst1 & Hinv1).
    cbn [for_each] in Hst1.
    destruct (best_step b x st) as [st1'|e] eqn:Estep; [| done].
    rewrite bind_Ok_l in Hst1. injection Hst1 as ->.
    assert (best_all sc (seen ++ [x]) st1) as Hall1.
    { destruct st as [bm bs]. unfold best_step in Estep.
      rewrite Hx, bind_Ok_l in Estep.
      destruct (Z.gtb_spec (sc x) bs) as [Hgt | Hle].
      - injection Estep as <-. intros m [Hm | ->%list_elem_of_singleton]%elem_of_app Hs;
          [| left].
        destruct Hinv as [(-> & _) | (_ & _ & Hmax)].
        + by apply not_elem_of_nil in Hm.
        + specialize (Hmax m Hm). lia.
      - destruct (Z.eqb_spec (sc x) bs) as [Heq | Hneq]; injection Estep as <-.
        + intros m [Hm | ->%list_elem_of_singleton]%elem_of_app Hs;
            apply elem_of_app; [left; by apply Hall | right; left].
        + intros m [Hm | ->%list_elem_of_singleton]%elem_of_app Hs;
            [by apply Hall | done]. }
    destruct (IH (λ m Hm, Hsc m (list_elem_of_further _ _ _ Hm)) _ _ Hinv1 Hall1)
      as (st' & Hst' & Hall').
    exists st'. split.
    + cbn [for_each]. rewrite Estep. done.
    + by rewrite <- app_assoc in Hall'.
Qed.

Lemma choice_any {A : Type} (l : list A) (x : A) :
  x ∈ l → ∃ k, choice k l = Ok x.
Proof.
  intros (i & Hi)%list_elem_of_lookup_1. exists i. unfold choice.
  pose proof (lookup_lt_Some _ _ _ Hi) as Hlt.
  destruct l as [|a l']; [done |].
  rewrite Nat.mod_small by done. by rewrite Hi.
Qed.

(** The random choice reaches every best move: on a well-formed board, a
    generated move whose score no generated move exceeds is returned by
    [ai_choose_move] for some draw of the generator. *)
Theorem ai_choose_move_any_best (b : Board) (side : Side) (moves : list Move)
    (m : Move) (v : Z) :
  wf_board b → generate_moves b side = Ok moves →
  m ∈ moves → score_of b m = Ok v →
  (∀ m' v', m' ∈ moves → score_of b m' = Ok v' → v' ≤ v) →
  ∃ k, ai_choose_move k b side = Ok (Some m).
Proof.
  intros Hwf Hgen Hm Hv Hmax.
  pose proof (generated_scores b side moves Hwf Hgen) as Hsc.
  destruct (best_loop b (dest_material b) moves Hsc [] ([], -999))
    as ([bm bs] & Hloop & Hinv); [by left |].
  destruct (best_loop_all b (dest_material b) moves Hsc [] ([], -999))
    as (st' & Hloop' & Hall); [by left | by intros ? ?%not_elem_of_nil |].
  rewrite Hloop in Hloop'. injection Hloop' as <-.
  simpl in Hinv, Hall.
  destruct Hinv as [(-> & _) | (Hbm & Hin & Hle)]; [by apply not_elem_of_nil in Hm |].
  assert (dest_material b m = v) as Hmv.
  { destruct (Hsc m Hm) as [Hs _]. congruence. }
  assert (dest_material b m = bs) as Hbest.
  { destruct bm as [|m1 bm']; [done |].
    destruct (Hin m1) as [Hm1 Hs1]; [left |].
    pose proof (Hle m Hm). destruct (Hsc m1 Hm1) as [Hsm1 _].
    specialize (Hmax m1 _ Hm1 Hsm1). lia. }
  destruct (choice_any bm m (Hall m Hm Hbest)) as (k & Hk).
  exists k. unfold ai_choose_move. rewrite Hgen, bind_Ok_l.
  destruct moves as [|m0 moves']; [by apply not_elem_of_nil in Hm |].
  rewrite Hloop, bind_Ok_l.
  destruct bm as [|m1 bm']; [done |]. by rewrite Hk.
Qed.

Lemma ai_choose_move_any_best_witness :
  ∃ k, ai_choose_move k rook_choice Black = Ok (Some (0, 0, 0, 3)).
Proof.
  apply (ai_choose_move_any_best rook_choice Black
           (match generate_moves rook_choice Black with Ok ms => ms | Raise _ => [] end)
           (0, 0, 0, 3) 9);
    [reflexivity | vm_compute; reflexivity | | reflexivity |].
  - apply list_elem_of_In. vm_compute. do 5 right. left. reflexivity.
  - intros m' v' Hm' Hv'. apply list_elem_of_In in Hm'. vm_compute in Hm'.
    repeat destruct Hm' as [<- | Hm'];
      try (vm_compute in Hv'; injection Hv' as <-; lia).
    done.
Defined.

(** * The game loop *)

Lemma mouse_to_square_in_bounds (pos : Z * Z) (r c : Z) :
  mouse_to_square pos = Some (r, c) → in_bounds r c = true.
Proof.
  destruct pos as [x y]. unfold mouse_to_square.
  destruct (y <? 32); [done |].
  destruct (in_bounds ((y - 32) / SQ) (x / SQ)) eqn:E; [| done].
  by intros [= <- <-].
Qed.

Lemma apply_generated_wf (b : Board) (side : Side) (moves : list Move) (m : Move) :
  wf_board b → generate_moves b side = Ok moves → m ∈ moves →
  ∃ b', apply_move b m = Ok b' ∧ wf_board b'.
Proof.
  intros Hwf Hgen Hm. pose proof (wf_board_grid b Hwf) as Hg.
  destruct m as [[[r1 c1] r2] c2].
  destruct (generated_move_facts b side moves r1 c1 r2 c2 Hg Hgen Hm)
    as (H1 & H2 & _).
  eexists. split; [by apply apply_move_grid |].
  apply set_cell_wf; [by apply set_cell_wf | done |].
  by apply arrival_valid, wf_board_cell.
Qed.

Lemma select_spec (st : state) (r c : Z) :
  wf_board (board st) → in_bounds r c = true → turn st = White →
  ∃ st', select st r c = Ok st' ∧
    board st' = board st ∧ turn st' = turn st ∧ running st' = running st ∧
    status_text st' = status_text st ∧ selection_ok st'.
Proof.
  intros Hwf Hb Ht. pose proof (wf_board_grid _ Hwf) as Hg.
  unfold select. rewrite getitem2_grid, bind_Ok_l by done.
  destruct (negb (Ascii.eqb (cell (board st) r c) ".") && is_white (cell (board st) r c))
    eqn:E.
  - destruct (generate_moves_from (board st) White Hg) as (all & Hall & _).
    rewrite Hall, bind_Ok_l. eexists. split; [done |]. simpl.
    split_and!; try done. unfold selection_ok. simpl.
    split_and!; [done | done | | by exists all].
    apply andb_true_iff in E as [Hne Hw]. unfold side_of.
    apply negb_true_iff in Hne. by rewrite Hne, Hw.
  - eexists. split; [done |]. simpl. split_and!; try done.
Qed.

Lemma make_move_spec (st : state) (all : list Move) (r c : Z) (ms : list Move) :
  wf_board (board st) → generate_moves (board st) White = Ok all →
  ms ⊆ all →
  ∃ res, make_move ms st r c = Ok res ∧
    match res with
    | None => True
    | Some st' =>
        ply White (board st) (board st') ∧ wf_board (board st') ∧
        turn st' = Black ∧ selected st' = None ∧ legal_for_selected st' = [] ∧
        running st' = running st
    end.
Proof.
  intros Hwf Hgen. induction ms as [|m ms IH]; intros Hsub; [by exists None |].
  destruct m as [[[r1 c1] r2] c2]. cbn [make_move].
  destruct ((r2 =? r) && (c2 =? c)).
  - assert ((r1, c1, r2, c2) ∈ all) as Hm by (apply Hsub; left).
    destruct (apply_generated_wf _ _ _ _ Hwf Hgen Hm) as (b' & Hb' & Hwf').
    rewrite Hb', bind_Ok_l. eexists. split; [done |]. simpl.
    split_and!; try done. by exists all, (r1, c1, r2, c2).
  - apply IH. intros x Hx. apply Hsub. by right.
Qed.

Lemma filter_subseteq (f : Move → bool) (l : list Move) : List.filter f l ⊆ l.
Proof.
  intros x Hx%list_elem_of_In. apply list_elem_of_In.
  by apply filter_In in Hx as [? _].
Qed.

Lemma handle_event_inv (b0 : Board) (ev : event) (st : state) :
  events_inv b0 st →
  ∃ st', handle_event ev st = Ok st' ∧ events_inv b0 st'.
Proof.
  intros Hinv. pose proof Hinv as (Hwf & Hsel & Hprog).
  destruct ev as [| button pos |]; simpl.
  - eexists. split; [done |]. by destruct st.
  - destruct (button =? 1); [| by exists st].
    destruct (turn st) eqn:Ht; [| by exists st].
    destruct (mouse_to_square pos) as [[r c]|] eqn:Hsq; [| by exists st].
    apply mouse_to_square_in_bounds in Hsq.
    destruct Hprog as [[Hb0 _] | (_ & Hbl & _)]; [| congruence].
    assert (∃ st', select st r c = Ok st' ∧ events_inv b0 st') as Hselect.
    { destruct (select_spec st r c Hwf Hsq Ht) as (st' & Hst' & Hb & Ht' & _ & _ & Hsel').
      exists st'. split; [done |]. split_and!; [by rewrite Hb | done |].
      left. split; congruence. }
    destruct (selected st) as [[sr sc]|] eqn:Hs; [| done].
    unfold selection_ok in Hsel. rewrite Hs in Hsel.
    destruct Hsel as (_ & _ & _ & all & Hall & Hlegal).
    destruct (make_move_spec st all r c (legal_for_selected st) Hwf Hall)
      as (res & -> & Hres).
    { rewrite Hlegal. apply filter_subseteq. }
    rewrite bind_Ok_l. destruct res as [st'|]; [| done].
    destruct Hres as (Hply & Hwf' & Ht' & Hs' & Hl' & _).
    exists st'. split; [done |]. split_and!; [done | |].
    + unfold selection_ok. by rewrite Hs'.
    + right. rewrite <- Hb0. done.
  - by exists st.
Qed.

Lemma events_loop_inv (b0 : Board) (events : list event) (st : state) :
  events_inv b0 st →
  ∃ st', for_each events handle_event st = Ok st' ∧ events_inv b0 st'.
Proof.
  intros Hinv. apply for_each_inv; [done |].
  intros ev st1 _. apply handle_event_inv.
Qed.

Lemma ai_choose_move_total (k : nat) (b : Board) (side : Side) :
  wf_board b →
  ∃ moves res, generate_moves b side = Ok moves ∧ ai_choose_move k b side = Ok res ∧
    match res with Some m => m ∈ moves | None => moves = [] end.
Proof.
  intros Hwf.
  destruct (generate_moves_from b side (wf_board_grid b Hwf)) as (moves & Hgen & _).
  exists moves. destruct (decide (moves = [])) as [-> | Hne].
  - exists None. unfold ai_choose_move. by rewrite Hgen.
  - destruct (ai_choose_move_spec k b side moves Hwf Hgen Hne) as (m & Hm & Hin & _).
    by exists (Some m).
Qed.

Lemma ai_turn_inv (k : nat) (b0 : Board) (st : state) :
  events_inv b0 st →
  ∃ st', ai_turn k st = Ok st' ∧ loop_inv st' ∧
    (board st' = b0 ∨
     ∃ b1, ply White b0 b1 ∧ (board st' = b1 ∨ ply Black b1 (board st'))).
Proof.
  intros (Hwf & Hsel & Hprog). unfold ai_turn.
  destruct (running st) eqn:Hrun; simpl.
  2:{ exists st. split; [done |]. split.
      - split_and!; [done | done | by rewrite Hrun].
      - destruct Hprog as [[-> _] | (Hply & _)]; [by left | right; eauto]. }
  case_bool_decide as Ht.
  2:{ exists st. split; [done |].
      destruct Hprog as [[Hb Htw] | (_ & Htb & _)]; [| done].
      split; [| by left]. split_and!; done. }
  destruct Hprog as [[_ Htw] | (Hply & _ & Hs & Hl)]; [congruence |].
  destruct (ai_choose_move_total k (board st) Black Hwf) as (moves & res & Hgen & -> & Hres).
  rewrite bind_Ok_l. destruct res as [m|].
  - destruct (apply_generated_wf _ _ _ _ Hwf Hgen Hres) as (b' & Hb' & Hwf').
    rewrite Hb', bind_Ok_l. eexists. split; [done |]. simpl. split.
    + split_and!; [done | | done]. unfold selection_ok. simpl. by rewrite Hs.
    + right. exists (board st). split; [done |]. right. by exists moves, m.
  - eexists. split; [done |]. simpl. split.
    + split_and!; [done | | done]. unfold selection_ok. simpl. by rewrite Hs.
    + right. exists (board st). split; [done | by left].
Qed.

Lemma has_moves_total (b : Board) (side : Side) :
  wf_board b → ∃ x, has_moves b side = Ok x.
Proof.
  intros Hwf.
  destruct (generate_moves_from b side (wf_board_grid b Hwf)) as (moves & Hgen & _).
  unfold has_moves. rewrite Hgen. by eexists.
Qed.

Lemma end_conditions_inv (st : state) :
  loop_inv st →
  ∃ st', end_conditions st = Ok st' ∧ loop_inv st' ∧ board st' = board st.
Proof.
  intros Hinv. pose proof Hinv as (Hwf & Hsel & Ht). unfold end_conditions.
  destruct (running st) eqn:Hrun; [| by exists st].
  destruct (has_moves_total (board st) White Hwf) as (w & ->).
  rewrite bind_Ok_l.
  assert (∀ s, loop_inv (set_status st s) ∧ board (set_status st s) = board st) as Hset.
  { intros s. split; [| done]. split_and!; [done | done |]. simpl. by rewrite Hrun. }
  destruct w; simpl.
  - destruct (has_moves_total (board st) Black Hwf) as (bl & ->).
    rewrite bind_Ok_l. destruct bl; simpl; [by exists st |].
    destruct (negb (status_text st =? ""))%string; eexists; split; try done; apply Hset.
  - destruct (has_moves_total (board st) Black Hwf) as (bl & ->).
    rewrite bind_Ok_l. destruct bl; simpl; eexists; (split; [done |]).
    + apply Hset.
    + apply (Hset (_ ++ _)%string).
Qed.

Lemma iteration_spec (k : nat) (events : list event) (st : state) :
  loop_inv st → running st = true →
  ∃ st', iteration k events st = Ok st' ∧ loop_inv st' ∧
    (board st' = board st ∨
     ∃ b1, ply White (board st) b1 ∧ (board st' = b1 ∨ ply Black b1 (board st'))).
Proof.
  intros (Hwf & Hsel & Ht) Hrun. unfold iteration.
  destruct (events_loop_inv (board st) events st) as (st1 & -> & Hinv1).
  { split_and!; [done | done |]. left. split; [done | by apply Ht]. }
  rewrite bind_Ok_l.
  destruct (ai_turn_inv k (board st) st1 Hinv1) as (st2 & -> & Hinv2 & Hply).
  rewrite bind_Ok_l.
  destruct (end_conditions_inv st2 Hinv2) as (st3 & -> & Hinv3 & Hb3).
  rewrite bind_Ok_l.
  rewrite draw_pieces_cells by apply Hinv3. rewrite bind_Ok_l.
  exists st3. split; [done |]. split; [done |]. by rewrite Hb3.
Qed.

(** The loop never raises: from a state in which the board is well-formed,
    the selection is that of a White piece with its generated moves, and it
    is White's turn while the loop runs, every sequence of events leads to
    such a state again. *)
Theorem main_loop_safe (inputs : list (nat * list event)) (st : state) :
  loop_inv st → ∃ st', main_loop inputs st = Ok st' ∧ loop_inv st'.
Proof.
  revert st. induction inputs as [|[k events] inputs IH]; intros st Hinv.
  - by exists st.
  - cbn [main_loop]. destruct (running st) eqn:Hrun; [| by exists st].
    destruct (iteration_spec k events st Hinv Hrun) as (st1 & -> & Hinv1 & _).
    rewrite bind_Ok_l. by apply IH.
Qed.

Lemma main_loop_safe_witness :
  ∃ st', main_loop [(0%nat, [MouseButtonDown 1 (360, 552)]);
                    (0%nat, [OtherEvent; MouseButtonDown 1 (360, 392)]);
                    (0%nat, [Quit])] initial_state = Ok st'
         ∧ loop_inv st'.
Proof.
  apply (main_loop_safe _ initial_state).
  split_and!; [reflexivity | reflexivity | reflexivity].
Defined.

(** In one iteration the board changes by generated moves only: it stays as
    it is, or White plays one move of [generate_moves] and then Black at
    most one move of [generate_moves]. *)
Theorem iteration_plies (k : nat) (events : list event) (st st' : state) :
  loop_inv st → running st = true → iteration k events st = Ok st' →
  board st' = board st ∨
  ∃ b1, ply White (board st) b1 ∧ (board st' = b1 ∨ ply Black b1 (board st')).
Proof.
  intros Hinv Hrun Hit.
  destruct (iteration_spec k events st Hinv Hrun) as (st1 & Hst1 & _ & Hply).
  assert (st1 = st') as -> by congruence. done.
Qed.

Lemma iteration_plies_witness :
  let st' := match iteration 0 [MouseButtonDown 1 (360, 552);
                                MouseButtonDown 1 (360, 392)] initial_state with
             | Ok s => s
             | Raise _ => initial_state
             end in
  board st' = board initial_state ∨
  ∃ b1, ply White (board initial_state) b1 ∧ (board st' = b1 ∨ ply Black b1 (board st')).
Proof.
  intros st'.
  apply (iteration_plies 0 [MouseButtonDown 1 (360, 552); MouseButtonDown 1 (360, 392)]
           initial_state st');
    [split_and!; reflexivity | reflexivity | vm_compute; reflexivity].
Defined.

(** ** Two clicks play a move *)

Lemma make_move_first (st : state) (r1 c1 r c : Z) (ms : list Move) (b' : Board) :
  Forall (λ m, origin m = (r1, c1)) ms → (r1, c1, r, c) ∈ ms →
  apply_move (board st) (r1, c1, r, c) = Ok b' →
  make_move ms st r c
  = Ok (Some {| board := b'; turn := Black; selected := None;
                legal_for_selected := []; running := running st;
                status_text := "" |}).
Proof.
  intros Hor Hin Hb'. induction ms as [|m ms IH]; [by apply not_elem_of_nil in Hin |].
  destruct m as [[[mr1 mc1] r2] c2]. cbn [make_move].
  apply Forall_cons in Hor as [[= -> ->] Hor].
  destruct ((r2 =? r) && (c2 =? c)) eqn:E.
  - apply andb_true_iff in E as [->%Z.eqb_eq ->%Z.eqb_eq]. by rewrite Hb'.
  - apply elem_of_cons in Hin as [[= -> ->] | Hin]; [| by apply IH].
    rewrite !Z.eqb_refl in E. done.
Qed.

(** Every generated move can be played with two clicks: when it is White's
    turn and nothing is selected, a click on the square where a move of
    [generate_moves] starts, followed by a click on the square where it
    ends, applies that move and gives the turn to Black. *)
Theorem two_clicks_play (st : state) (moves : list Move) (r1 c1 r2 c2 : Z)
    (p1 p2 : Z * Z) :
  wf_board (board st) → turn st = White → selected st = None →
  generate_moves (board st) White = Ok moves → (r1, c1, r2, c2) ∈ moves →
  mouse_to_square p1 = Some (r1, c1) → mouse_to_square p2 = Some (r2, c2) →
  ∃ st' b', for_each [MouseButtonDown 1 p1; MouseButtonDown 1 p2] handle_event st = Ok st' ∧
    apply_move (board st) (r1, c1, r2, c2) = Ok b' ∧
    board st' = b' ∧ turn st' = Black ∧ selected st' = None.
Proof.
  intros Hwf Ht Hs Hgen Hm Hp1 Hp2. pose proof (wf_board_grid _ Hwf) as Hg.
  destruct (generated_move_facts _ _ _ _ _ _ _ Hg Hgen Hm) as (H1 & H2 & _ & Hown & _).
  destruct (apply_generated_wf _ _ _ _ Hwf Hgen Hm) as (b' & Hb' & _).
  cbn [for_each handle_event]. change (1 =? 1) with true. cbv iota.
  rewrite Ht, Hp1, Hs. cbv iota.
  assert (negb (Ascii.eqb (cell (board st) r1 c1) ".") && is_white (cell (board st) r1 c1)
          = true) as Hsel.
  { unfold side_of in Hown. destruct (Ascii.eqb (cell (board st) r1 c1) "."); [done |].
    simpl. by destruct (is_white (cell (board st) r1 c1)). }
  unfold select. rewrite getitem2_grid, bind_Ok_l, Hsel, Hgen by done.
  rewrite !bind_Ok_l. cbn [handle_event turn selected legal_for_selected].
  change (1 =? 1) with true. cbv iota. rewrite Ht, Hp2. cbv iota.
  rewrite (make_move_first _ r1 c1 r2 c2 _ b').
  - rewrite !bind_Ok_l. eexists _, b'. done.
  - apply Forall_forall. intros [[[a1 a2] a3] a4] Hin%list_elem_of_In.
    apply filter_In in Hin as [_ [->%Z.eqb_eq ->%Z.eqb_eq]%andb_true_iff]. done.
  - apply list_elem_of_In, filter_In. split; [by apply list_elem_of_In |].
    by rewrite !Z.eqb_refl.
  - done.
Qed.

Lemma two_clicks_play_witness :
  ∃ st' b', for_each [MouseButtonDown 1 (360, 552); MouseButtonDown 1 (360, 392)]
              handle_event initial_state = Ok st' ∧
    apply_move (board initial_state) (6, 4, 4, 4) = Ok b' ∧
    board st' = b' ∧ turn st' = Black ∧ selected st' = None.
Proof.
  apply (two_clicks_play initial_state
           (match generate_moves new_board White with Ok ms => ms | Raise _ => [] end));
    [reflexivity | reflexivity | reflexivity | vm_compute; reflexivity |
    | reflexivity | reflexivity].
  apply list_elem_of_In. vm_compute. do 9 right. left. reflexivity.
Defined.

(** ** The message that grows *)





(** * No move is listed twice *)

Lemma gen_knight_list (b : Board) (r c : Z) (side : Side) :
  grid b → gen_knight b r c side = Ok (jumps ≫= knight_step b r c side).
Proof.
  intros Hg. unfold gen_knight.
  apply (for_each_concat jumps (knight_step b r c side)).
  intros [dr dc] acc _. unfold knight_step.
  destruct (in_bounds (r + dr) (c + dc)) eqn:E; simpl; [| by rewrite app_nil_r].
  rewrite getitem2_grid by done. rewrite bind_Ok_l.
  destruct (Ascii.eqb (cell b (r + dr) (c + dc)) "."
            || bool_decide (side_of (cell b (r + dr) (c + dc)) ≠ Some side));
    [done | by rewrite app_nil_r].
Qed.

Lemma gen_king_list (b : Board) (r c : Z) (side : Side) :
  grid b →
  gen_king b r c side
  = Ok ([-1; 0; 1] ≫= λ dr, [-1; 0; 1] ≫= λ dc, king_step b r c side dr dc).
Proof.
  intros Hg. unfold gen_king.
  rewrite (for_each_concat [-1; 0; 1]
             (λ dr, [-1; 0; 1] ≫= λ dc, king_step b r c side dr dc)); [done |].
  intros dr acc _.
  rewrite (for_each_concat [-1; 0; 1] (λ dc, king_step b r c side dr dc)); [done |].
  intros dc acc' _. unfold king_step.
  destruct ((dr =? 0) && (dc =? 0)); [by rewrite app_nil_r |].
  destruct (in_bounds (r + dr) (c + dc)) eqn:E; simpl; [| by rewrite app_nil_r].
  rewrite getitem2_grid by done. rewrite bind_Ok_l.
  destruct (Ascii.eqb (cell b (r + dr) (c + dc)) "."
            || bool_decide (side_of (cell b (r + dr) (c + dc)) ≠ Some side));
    [done | by rewrite app_nil_r].
Qed.

Lemma NoDup_small : NoDup [-1; 0; 1] ∧ NoDup [-1; 1] ∧ NoDup jumps ∧ NoDup queen_dirs.
Proof.
  split_and!; repeat (apply NoDup_cons; split; [set_unfold; intuition congruence |]);
    constructor.
Qed.

Lemma gen_knight_NoDup (b : Board) (r c : Z) (side : Side) :
  grid b → ∃ ms, gen_knight b r c side = Ok ms ∧ NoDup ms.
Proof.
  intros Hg. eexists. split; [by apply gen_knight_list |].
  assert (∀ d m, m ∈ knight_step b r c side d → m = (r, c, r + d.1, c + d.2)) as Hstep.
  { intros [dr dc] m Hm. unfold knight_step in Hm.
    repeat case_match; try by apply not_elem_of_nil in Hm.
    by apply list_elem_of_singleton in Hm. }
  apply NoDup_bind; [| | apply NoDup_small].
  - intros [dr dc] [dr' dc'] m _ _ Hm%Hstep Hm'%Hstep. subst m.
    injection Hm' as Hr Hc. simpl in *. f_equal; lia.
  - intros [dr dc] _. unfold knight_step.
    repeat case_match; first [apply NoDup_singleton | constructor].
Qed.

Lemma gen_king_NoDup (b : Board) (r c : Z) (side : Side) :
  grid b → ∃ ms, gen_king b r c side = Ok ms ∧ NoDup ms.
Proof.
  intros Hg. eexists. split; [by apply gen_king_list |].
  assert (∀ dr dc m, m ∈ king_step b r c side dr dc → m = (r, c, r + dr, c + dc)) as Hstep.
  { intros dr dc m Hm. unfold king_step in Hm.
    repeat case_match; try by apply not_elem_of_nil in Hm.
    by apply list_elem_of_singleton in Hm. }
  apply NoDup_bind; [| | apply NoDup_small].
  - intros dr dr' m _ _ (dc & Hm%Hstep & _)%list_elem_of_bind
      (dc' & Hm'%Hstep & _)%list_elem_of_bind.
    subst m. injection Hm' as Hr Hc. lia.
  - intros dr _. apply NoDup_bind; [| | apply NoDup_small].
    + intros dc dc' m _ _ Hm%Hstep Hm'%Hstep. subst m. injection Hm' as Hc. lia.
    + intros dc _. unfold king_step.
      repeat case_match; first [apply NoDup_singleton | constructor].
Qed.

Lemma gen_pawn_NoDup (b : Board) (r c : Z) (side : Side) :
  grid b → ∃ ms, gen_pawn b r c side = Ok ms ∧ NoDup ms.
Proof.
  intros Hg. eexists. split; [by apply gen_pawn_lists |].
  assert (pawn_dir side = 1 ∨ pawn_dir side = -1) as Hdir by (destruct side; simpl; lia).
  assert (∀ dc m, m ∈ pawn_capture b r c side dc → m = (r, c, r + pawn_dir side, c + dc))
    as Hcap.
  { intros dc m Hm. unfold pawn_capture in Hm. cbv zeta in Hm.
    repeat case_match; try by apply not_elem_of_nil in Hm.
    by apply list_elem_of_singleton in Hm. }
  assert (pawn_pushes b r c side = []
          ∨ pawn_pushes b r c side = [(r, c, r + pawn_dir side, c)]
          ∨ pawn_pushes b r c side
            = [(r, c, r + pawn_dir side, c); (r, c, r + 2 * pawn_dir side, c)]) as Hpush.
  { unfold pawn_pushes. cbv zeta. repeat case_match; auto. }
  apply NoDup_app. split_and!.
  - destruct Hpush as [-> | [-> | ->]]; [constructor | apply NoDup_singleton |].
    apply NoDup_cons. split; [| apply NoDup_singleton].
    intros [= Heq]%list_elem_of_singleton. lia.
  - intros m Hm (dc & Hm'%Hcap & Hdc)%list_elem_of_bind. subst m.
    rewrite !elem_of_cons, elem_of_nil in Hdc.
    destruct Hpush as [Hp | [Hp | Hp]]; rewrite Hp in Hm;
      rewrite ?elem_of_cons, ?elem_of_nil in Hm.
    + done.
    + destruct Hm as [[= Hc] | []]. lia.
    + destruct Hm as [[= Hc] | [[= Hr Hc] | []]]; lia.
  - apply NoDup_bind; [| | apply NoDup_small].
    + intros dc dc' m _ _ Hm%Hcap Hm'%Hcap. subst m. injection Hm' as Hc. lia.
    + intros dc _. unfold pawn_capture. cbv zeta.
      repeat case_match; first [apply NoDup_singleton | constructor].
Qed.

Lemma slide_ray_NoDup (b : Board) (r c : Z) (side : Side) (dr dc : Z) (fuel : nat) :
  grid b → (dr, dc) ∈ queen_dirs →
  ∀ rr cc,
    0 ≤ Z.min (room dr rr) (room dc cc) < Z.of_nat fuel →
    ∃ out,
      (∀ moves, slide_ray fuel b r c side dr dc rr cc moves = Ok (moves ++ out)) ∧
      NoDup out ∧
      ∀ m, m ∈ out → ∃ n, 0 ≤ n ∧ m = (r, c, rr + n * dr, cc + n * dc).
Proof.
  intros Hg Hd. induction fuel as [|fuel IH]; intros rr cc Hroom; [lia |].
  cbn [slide_ray]. destruct (in_bounds rr cc) eqn:E.
  2:{ exists []. split_and!; [intros moves; by rewrite app_nil_r | constructor |].
      by intros m ?%not_elem_of_nil. }
  rewrite getitem2_grid by done.
  assert (∀ m, m = (r, c, rr, cc) → ∃ n, 0 ≤ n ∧ m = (r, c, rr + n * dr, cc + n * dc))
    as Hhere.
  { intros m ->. exists 0. split; [done |]. f_equal; [f_equal |]; lia. }
  destruct (Ascii.eqb_spec (cell b rr cc) ".") as [He | He].
  - destruct (IH (rr + dr) (cc + dc)) as (out & Hout & Hnd & Hmem).
    { apply in_bounds_spec in E. clear IH.
      unfold queen_dirs in Hd. set_unfold in Hd.
      destruct Hd as [[=] | [[=] | [[=] | [[=] | [[=] | [[=] | [[=] | [[=] | []]]]]]]]];
        subst dr dc; unfold room in *; simpl in *; lia. }
    exists ((r, c, rr, cc) :: out). split_and!.
    + intros moves. rewrite bind_Ok_l, (proj2 (Ascii.eqb_eq _ _) He), Hout.
      by rewrite <- app_assoc.
    + apply NoDup_cons. split; [| done].
      intros (n & Hn & [= Hr Hc])%Hmem.
      unfold queen_dirs in Hd. set_unfold in Hd.
      destruct Hd as [[=] | [[=] | [[=] | [[=] | [[=] | [[=] | [[=] | [[=] | []]]]]]]]];
        subst dr dc; lia.
    + intros m [-> | (n & Hn & ->)%Hmem]%elem_of_cons; [by apply Hhere |].
      exists (n + 1). split; [lia |]. f_equal; [f_equal |]; lia.
  - destruct (decide (side_of (cell b rr cc) ≠ Some side)) as [Hside | Hside].
    + exists [(r, c, rr, cc)]. split_and!.
      * intros moves. rewrite bind_Ok_l, (proj2 (Ascii.eqb_neq _ _) He).
        by rewrite bool_decide_eq_true_2.
      * apply NoDup_singleton.
      * intros m ->%list_elem_of_singleton. by apply Hhere.
    + exists []. split_and!.
      * intros moves. rewrite bind_Ok_l, (proj2 (Ascii.eqb_neq _ _) He).
        by rewrite bool_decide_eq_false_2, app_nil_r.
      * constructor.
      * by intros m ?%not_elem_of_nil.
Qed.

Lemma slide_moves_NoDup (b : Board) (r c : Z) (side : Side) (directions : list (Z * Z)) :
  grid b → in_bounds r c = true → directions ⊆ queen_dirs → NoDup directions →
  ∃ ms, slide_moves b r c side directions = Ok ms ∧ NoDup ms.
Proof.
  intros Hg Hrc Hsub Hnd.
  assert (∀ d, d ∈ directions →
            ∃ out, (∀ moves, slide_ray ray_fuel b r c side d.1 d.2 (r + d.1) (c + d.2) moves
                             = Ok (moves ++ out)) ∧ NoDup out ∧
                   ∀ m, m ∈ out → ∃ n, 1 ≤ n ∧ m = (r, c, r + n * d.1, c + n * d.2))
    as Hray.
  { intros [dr dc] Hin. cbn [fst snd].
    destruct (slide_ray_NoDup b r c side dr dc ray_fuel Hg (Hsub _ Hin) (r + dr) (c + dc))
      as (out & Hout & Hndo & Hmem).
    { apply in_bounds_spec in Hrc. apply Hsub in Hin.
      unfold queen_dirs in Hin. set_unfold in Hin. unfold ray_fuel.
      destruct Hin as [[=] | [[=] | [[=] | [[=] | [[=] | [[=] | [[=] | [[=] | []]]]]]]]];
        subst dr dc; unfold room; simpl; lia. }
    exists out. split_and!; [done | done |].
    intros m (n & Hn & ->)%Hmem. exists (n + 1). split; [lia |].
    f_equal; [f_equal |]; lia. }
  exists (directions ≫= λ d, unwrap (slide_ray ray_fuel b r c side d.1 d.2
                                       (r + d.1) (c + d.2) [])).
  split.
  - unfold slide_moves.
    rewrite (for_each_concat directions
               (λ d, unwrap (slide_ray ray_fuel b r c side d.1 d.2 (r + d.1) (c + d.2) [])));
      [done |].
    intros [dr dc] acc Hin. destruct (Hray _ Hin) as (out & Hout & _).
    cbn [fst snd] in *. rewrite (Hout []), (Hout acc). done.
  - apply NoDup_bind; [| | done].
    + intros [dr dc] [dr' dc'] m Hin Hin' Hm Hm'.
      destruct (Hray _ Hin) as (out & Hout & _ & Hmem).
      destruct (Hray _ Hin') as (out' & Hout' & _ & Hmem').
      cbn [fst snd] in *. rewrite (Hout []) in Hm. rewrite (Hout' []) in Hm'.
      cbn [unwrap app] in Hm, Hm'.
      apply Hmem in Hm as (n & Hn & ->). apply Hmem' in Hm' as (n' & Hn' & [= Hr Hc]).
      apply Hsub in Hin, Hin'. unfold queen_dirs in Hin, Hin'. set_unfold in Hin.
      set_unfold in Hin'.
      destruct Hin as [[=] | [[=] | [[=] | [[=] | [[=] | [[=] | [[=] | [[=] | []]]]]]]]];
        destruct Hin' as [[=] | [[=] | [[=] | [[=] | [[=] | [[=] | [[=] | [[=] | []]]]]]]]];
        subst; first [done | exfalso; lia].
    + intros [dr dc] Hin. destruct (Hray _ Hin) as (out & Hout & Hndo & _).
      cbn [fst snd] in *. by rewrite (Hout []).
Qed.

Lemma NoDup_dirs : NoDup bishop_dirs ∧ NoDup rook_dirs.
Proof.
  split; repeat (apply NoDup_cons; split; [set_unfold; intuition congruence |]);
    constructor.
Qed.

Lemma scan_cell_NoDup (b : Board) (side : Side) (r c : Z) :
  grid b → in_bounds r c = true →
  ∃ ms, scan_cell b side r c [] = Ok ms ∧ NoDup ms.
Proof.
  intros Hg Hb. unfold scan_cell. rewrite getitem2_grid by done.
  rewrite !bind_Ok_l.
  assert (∃ ms : list Move, Ok [] = Ok ms ∧ NoDup ms) as Hnone
    by (exists []; split; [done | constructor]).
  assert (∀ gen : result (list Move),
            (∃ ms, gen = Ok ms ∧ NoDup ms) →
            ∃ ms, (ms0 ← gen; Ok ([] ++ ms0)) = Ok ms ∧ NoDup ms) as Hgen.
  { intros gen (ms & -> & Hms). exists ms. done. }
  destruct (Ascii.eqb (cell b r c) "."); cbv iota; [exact Hnone |].
  destruct (bool_decide (side = White) && negb (is_white (cell b r c)));
    cbv iota; [exact Hnone |].
  destruct (bool_decide (side = Black) && negb (is_black (cell b r c)));
    cbv iota; [exact Hnone |].
  destruct (Ascii.eqb (lower (cell b r c)) "p"); cbv iota;
    [by apply Hgen, gen_pawn_NoDup |].
  destruct (Ascii.eqb (lower (cell b r c)) "n"); cbv iota;
    [by apply Hgen, gen_knight_NoDup |].
  destruct (Ascii.eqb (lower (cell b r c)) "b"); cbv iota.
  { apply Hgen, slide_moves_NoDup; [done | done | apply bishop_dirs_queen | apply NoDup_dirs]. }
  destruct (Ascii.eqb (lower (cell b r c)) "r"); cbv iota.
  { apply Hgen, slide_moves_NoDup; [done | done | apply rook_dirs_queen | apply NoDup_dirs]. }
  destruct (Ascii.eqb (lower (cell b r c)) "q"); cbv iota.
  { apply Hgen, slide_moves_NoDup; [done | done | done | apply NoDup_small]. }
  destruct (Ascii.eqb (lower (cell b r c)) "k"); cbv iota;
    [by apply Hgen, gen_king_NoDup |].
  exact Hnone.
Qed.

(** [generate_moves] as the lists of the 64 cells, one after the other. *)
Lemma generate_moves_list (b : Board) (side : Side) :
  grid b →
  generate_moves b side
  = Ok (seqZ 0 8 ≫= λ r, seqZ 0 8 ≫= λ c, unwrap (scan_cell b side r c [])).
Proof.
  intros Hg. unfold generate_moves, ROWS, COLS.
  rewrite (for_each_concat (seqZ 0 8)
             (λ r, seqZ 0 8 ≫= λ c, unwrap (scan_cell b side r c []))); [done |].
  intros r acc Hr.
  rewrite (for_each_concat (seqZ 0 8) (λ c, unwrap (scan_cell b side r c []))); [done |].
  intros c acc' Hc. apply elem_of_seqZ in Hr, Hc.
  destruct (scan_cell_spec b side r c Hg) as (ms & Hms & _ & Happ).
  { apply in_bounds_spec. lia. }
  by rewrite Happ, Hms.
Qed.

Lemma cell_moves_origin (b : Board) (side : Side) (r c : Z) (m : Move) :
  grid b → r ∈ seqZ 0 8 → c ∈ seqZ 0 8 →
  m ∈ unwrap (scan_cell b side r c []) → origin m = (r, c).
Proof.
  intros Hg Hr%elem_of_seqZ Hc%elem_of_seqZ Hm.
  destruct (scan_cell_spec b side r c Hg) as (ms & Hms & Hfrom & _).
  { apply in_bounds_spec. lia. }
  rewrite Hms in Hm. simpl in Hm. rewrite Forall_forall in Hfrom.
  specialize (Hfrom m Hm). destruct m as [[[r1 c1] r2] c2]. by destruct Hfrom.
Qed.

(** On a well-formed board [generate_moves] lists no move twice. *)
Theorem generate_moves_NoDup (b : Board) (side : Side) :
  wf_board b → ∃ moves, generate_moves b side = Ok moves ∧ NoDup moves.
Proof.
  intros Hwf. pose proof (wf_board_grid b Hwf) as Hg.
  eexists. split; [by apply generate_moves_list |].
  apply NoDup_bind; [| | apply NoDup_seqZ].
  - intros r r' m Hr Hr' (c & Hm & Hc)%list_elem_of_bind (c' & Hm' & Hc')%list_elem_of_bind.
    apply cell_moves_origin in Hm, Hm'; try done. congruence.
  - intros r Hr. apply NoDup_bind; [| | apply NoDup_seqZ].
    + intros c c' m Hc Hc' Hm Hm'.
      apply cell_moves_origin in Hm, Hm'; try done. congruence.
    + intros c Hc. apply elem_of_seqZ in Hr, Hc.
      destruct (scan_cell_NoDup b side r c Hg) as (ms & -> & Hnd); [| done].
      apply in_bounds_spec. lia.
Qed.

Lemma generate_moves_NoDup_witness :
  ∃ moves, generate_moves rook_choice Black = Ok moves ∧ NoDup moves.
Proof. apply (generate_moves_NoDup rook_choice Black). reflexivity. Defined.

(** ** The order of the moves *)

Lemma StronglySorted_bind {X A : Type} (k : A → Z) (lo hi : X → Z)
    (g : X → list A) (xs : list X) :
  (∀ x a, x ∈ xs → a ∈ g x → lo x ≤ k a ≤ hi x) →
  (∀ x, x ∈ xs → StronglySorted (λ a a', k a ≤ k a') (g x)) →
  StronglySorted (λ x y, hi x ≤ lo y) xs →
  StronglySorted (λ a a', k a ≤ k a') (xs ≫= g).
Proof.
  intros Hk Hg Hs. induction Hs as [|x xs Hs IH Hx]; [constructor |].
  rewrite bind_cons. apply StronglySorted_app_2.
  - intros a a' Ha (y & Ha' & Hy)%list_elem_of_bind.
    rewrite Forall_forall in Hx. specialize (Hx y Hy).
    pose proof (Hk x a ltac:(left) Ha). pose proof (Hk y a' ltac:(by right) Ha'). lia.
  - apply Hg. left.
  - apply IH.
    + intros y a Hy. apply Hk. by right.
    + intros y Hy. apply Hg. by right.
Qed.

Lemma StronglySorted_lookup {A : Type} (R : A → A → Prop) (l : list A)
    (i j : nat) (x y : A) :
  StronglySorted R l → (i < j)%nat → l !! i = Some x → l !! j = Some y → R x y.
Proof.
  intros Hs Hij Hi Hj. rewrite <- (take_drop j l) in Hs.
  apply (StronglySorted_app_1_elem_of _ _ _ _ _ Hs).
  - apply list_elem_of_lookup. exists i. by rewrite lookup_take_lt.
  - apply list_elem_of_lookup. exists 0%nat. by rewrite lookup_drop, Nat.add_0_r.
Qed.

Lemma StronglySorted_weaken {A : Type} (R R' : A → A → Prop) (l : list A) :
  (∀ x y, R x y → R' x y) → StronglySorted R l → StronglySorted R' l.
Proof.
  intros HR. induction 1 as [|x l Hs IH Hx]; constructor; [done |].
  eapply Forall_impl; [done |]. intros y. apply HR.
Qed.

Lemma Ok_inj {A : Type} (x y : A) : Ok x = Ok y → x = y.
Proof. by intros [= ->]. Qed.

Lemma seqZ_8_sorted : StronglySorted Z.lt (seqZ 0 8).
Proof.
  apply Sorted_StronglySorted; [apply _ |].
  repeat (constructor; [| constructor; done]). constructor.
Qed.

(** [generate_moves] lists the moves in the order of the scan of the board:
    a move listed before another one starts on an earlier row, or on the
    same row and not on a later column. *)
Theorem generate_moves_row_major (b : Board) (side : Side) (moves : list Move)
    (i j : nat) (r1 c1 r2 c2 r1' c1' r2' c2' : Z) :
  wf_board b → generate_moves b side = Ok moves →
  (i ≤ j)%nat →
  moves !! i = Some (r1, c1, r2, c2) → moves !! j = Some (r1', c1', r2', c2') →
  r1 < r1' ∨ (r1 = r1' ∧ c1 ≤ c1').
Proof.
  intros Hwf Hgen Hij Hi Hj. pose proof (wf_board_grid b Hwf) as Hg.
  destruct (decide (i = j)) as [-> | Hne].
  { assert (r1 = r1' ∧ c1 = c1') as [-> ->] by (split; congruence). lia. }
  assert (∀ a1 a2 a3 a4, (a1, a2, a3, a4) ∈ moves → in_bounds a1 a2 = true) as Hin.
  { intros a1 a2 a3 a4 Hm.
    by destruct (generated_move_facts b side moves a1 a2 a3 a4 Hg Hgen Hm). }
  assert (StronglySorted (λ a a', scan_index a ≤ scan_index a') moves) as Hs.
  { pose proof (generate_moves_list b side Hg) as Hl. rewrite Hgen in Hl.
    apply Ok_inj in Hl. rewrite Hl.
    apply (StronglySorted_bind scan_index (λ r, 8 * r) (λ r, 8 * r + 7)).
    - intros r m Hr (c & Hm & Hc)%list_elem_of_bind.
      pose proof (cell_moves_origin b side r c m Hg Hr Hc Hm) as Ho.
      apply elem_of_seqZ in Hc. destruct m as [[[a1 a2] a3] a4].
      injection Ho as -> ->. simpl. lia.
    - intros r Hr.
      apply (StronglySorted_bind scan_index (λ c, 8 * r + c) (λ c, 8 * r + c)).
      + intros c m Hc Hm.
        pose proof (cell_moves_origin b side r c m Hg Hr Hc Hm) as Ho.
        destruct m as [[[a1 a2] a3] a4]. injection Ho as -> ->. simpl. lia.
      + intros c Hc.
        assert (∀ m, m ∈ unwrap (scan_cell b side r c []) → scan_index m = 8 * r + c) as Hk.
        { intros m Hm. pose proof (cell_moves_origin b side r c m Hg Hr Hc Hm) as Ho.
          destruct m as [[[a1 a2] a3] a4]. by injection Ho as -> ->. }
        induction (unwrap (scan_cell b side r c [])) as [|m ms IH]; constructor.
        * apply IH. intros m' Hm'. apply Hk. by right.
        * apply Forall_forall. intros m' Hm'.
          rewrite (Hk m) by left. rewrite (Hk m') by (by right). done.
      + eapply StronglySorted_weaken; [| apply seqZ_8_sorted]. intros x y Hxy. simpl. lia.
    - eapply StronglySorted_weaken; [| apply seqZ_8_sorted]. intros x y Hxy. simpl. lia. }
  pose proof (StronglySorted_lookup _ _ i j _ _ Hs ltac:(lia) Hi Hj) as Hle.
  simpl in Hle.
  pose proof (Hin _ _ _ _ (list_elem_of_lookup_2 _ _ _ Hi)) as [Ha _]%in_bounds_spec.
  pose proof (Hin _ _ _ _ (list_elem_of_lookup_2 _ _ _ Hj)) as [Hb _]%in_bounds_spec.
  pose proof (Hin _ _ _ _ (list_elem_of_lookup_2 _ _ _ Hi)) as [_ Ha']%in_bounds_spec.
  pose proof (Hin _ _ _ _ (list_elem_of_lookup_2 _ _ _ Hj)) as [_ Hb']%in_bounds_spec.
  lia.
Qed.

Lemma generate_moves_row_major_witness : 6 < 7 ∨ (6 = 7 ∧ 0 ≤ 1).
Proof.
  apply (generate_moves_row_major new_board White
           (match generate_moves new_board White with Ok ms => ms | Raise _ => [] end)
           0 16 6 0 5 0 7 1 5 2);
    [reflexivity | vm_compute; reflexivity | lia
    | vm_compute; reflexivity | vm_compute; reflexivity].
Defined.

(** ** Having a move and choosing one *)

(** On a well-formed board [has_moves] is true exactly when [ai_choose_move]
    returns a move, whatever the draw: the message "no moves" of [main] and
    the opponent's turn agree. *)
Theorem has_moves_iff_choice (k : nat) (b : Board) (side : Side) :
  wf_board b →
  ∃ h res, has_moves b side = Ok h ∧ ai_choose_move k b side = Ok res ∧
    (h = true ↔ ∃ m, res = Some m).
Proof.
  intros Hwf.
  destruct (ai_choose_move_total k b side Hwf) as (moves & res & Hgen & Hres & Hm).
  exists (0 <? Z.of_nat (length moves)), res. unfold has_moves. rewrite Hgen.
  split_and!; [done | done |]. destruct res as [m|].
  - split; [eauto |]. intros _. destruct moves; [by apply not_elem_of_nil in Hm | done].
  - subst moves. split; [done | by intros [m [=]]].
Qed.

Lemma has_moves_iff_choice_witness :
  ∃ h res, has_moves king_block_corner White = Ok h ∧
    ai_choose_move 0 king_block_corner White = Ok res ∧
    (h = true ↔ ∃ m, res = Some m).
Proof. apply (has_moves_iff_choice 0 king_block_corner White). reflexivity. Defined.

(** ** A new board shares nothing *)

Lemma store_loop (b : Board) :
  ∀ (h1 : gmap nat Heap.obj) (acc : list Heap.loc),
    ∃ rows h2,
      Heap.for_each b (λ cells rows, l ← Heap.alloc (Heap.ORow cells); mret (rows ++ [l]))
        acc h1 = (Ok (acc ++ rows), h2) ∧
      h1 ⊆ h2 ∧
      Forall2 (λ row cells, h2 !! row = Some (Heap.ORow cells)) rows b ∧
      Forall (λ row, h1 !! row = None) rows ∧
      NoDup rows.
Proof.
  induction b as [|cells b IH]; intros h1 acc.
  - exists [], h1. rewrite app_nil_r.
    split_and!; [done | done | constructor | constructor | constructor].
  - destruct (alloc_fresh (Heap.ORow cells) h1) as (l0 & Hal & Hl0).
    pose (h1' := <[l0 := Heap.ORow cells]> h1).
    assert (h1 ⊆ h1') as Hsub by (apply insert_subseteq, Hl0).
    destruct (IH h1' (acc ++ [l0])) as (rows & h2 & Hloop & Hsub2 & Hrows & Hnew & Hnd).
    exists (l0 :: rows), h2. split_and!.
    + cbn [Heap.for_each]. erewrite run_bind; [| erewrite run_bind; [| exact Hal]; reflexivity].
      fold h1'. rewrite Hloop. by rewrite <- app_assoc.
    + by etrans.
    + constructor; [| done]. eapply lookup_weaken; [| exact Hsub2].
      unfold h1'. by rewrite lookup_insert_eq.
    + constructor; [done |]. eapply Forall_impl; [exact Hnew |].
      intros row' Hr. simpl in Hr. exact (lookup_weaken_None _ _ _ Hr Hsub).
    + constructor; [| done]. intros Hin.
      rewrite Forall_forall in Hnew. specialize (Hnew _ Hin).
      unfold h1' in Hnew. by rewrite lookup_insert_eq in Hnew.
Qed.

(** Whatever the store holds, [new_board] changes none of its objects and
    returns a new board object that holds the initial position in eight new
    row objects, all different: no two rows of the board are the same
    list. *)
Theorem new_board_fresh (h : gmap nat Heap.obj) :
  ∃ l h', Heap.new_board h = (Ok l, h') ∧ h ⊆ h' ∧
          Heap.fresh_board h h' l ∧ Heap.represents h' l new_board.
Proof.
  destruct (store_loop new_board h []) as (rows & h2 & Hloop & Hsub & Hrows & Hnew & Hnd).
  destruct (alloc_fresh (Heap.OBoard rows) h2) as (l & Hal & Hl).
  exists l, (<[l := Heap.OBoard rows]> h2).
  assert (h2 ⊆ <[l := Heap.OBoard rows]> h2) as Hsub2 by (by apply insert_subseteq).
  split_and!.
  - unfold Heap.new_board, Heap.store. erewrite run_bind; [| exact Hloop]. apply Hal.
  - by etrans.
  - split; [exact (lookup_weaken_None _ _ _ Hl Hsub) |].
    exists rows. split_and!; [by rewrite lookup_insert_eq | done | done].
  - exists rows. split; [by rewrite lookup_insert_eq |].
    eapply Forall2_impl; [exact Hrows |]. intros ?? H.
    exact (lookup_weaken _ _ _ _ H Hsub2).
Qed.
